(** * Spoti-find: void-spot analysis

    A shallow embedding of the computational core of Spoti-find
    ([polygon_tools.py], [area_volume_map.py], [vsa.py]) together with the
    properties of its specification.

    Conventions of the embedding.
    - Python integers are [Z]; array indices and array shapes are [nat].
    - Python floats that the code obtains from integers by [+], [-], [*] and
      [/] are exact rationals [Q]; the division raises [ZeroDivisionError] on
      a zero divisor, as Python's float division does.
    - Lengths, which go through [math.sqrt], and [math.pi] are real numbers.
    - A Python exception is a value [Raise e] of the [result] type.
    - The OpenCV primitives (Otsu threshold, contour tracing, filled contour
      drawing) are parameters of the development, gathered in [Cv2]. *)

From Stdlib Require Import ZArith QArith Qabs Reals Qreals List Lia Lra Bool.
From Stdlib Require Import Sorted Permutation Qround.
From Stdlib Require Lqa.
Import ListNotations.
Open Scope Z_scope.

(** ** Python exceptions and fallible computations *)

Inductive exn : Set :=
| IndexError
| ValueError
| KeyError
| TypeError
| ZeroDivisionError.

Inductive result (A : Type) : Type :=
| Ok (a : A)
| Raise (e : exn).

Arguments Ok {A} a.
Arguments Raise {A} e.

Definition bind {A B : Type} (c : result A) (k : A -> result B) : result B :=
  match c with
  | Ok a => k a
  | Raise e => Raise e
  end.

Notation "x <- c ;; k" := (bind c (fun x => k))
  (at level 61, c at next level, right associativity).

(** ** polygon_tools.py *)

Module PolygonTools.

Definition point : Type := Z * Z.
Definition polygon : Type := list point.

Definition px (p : point) : Z := fst p.
Definition py (p : point) : Z := snd p.

(** [math.sqrt(dx*dx + dy*dy)] with [dx], [dy] the differences from [p] to [q]. *)
Definition edge_length (p q : point) : R :=
  let dx := px q - px p in
  let dy := py q - py p in
  sqrt (IZR (dx * dx + dy * dy)).

(** The loop [for idx in range(len(pt_list)-1)] of [polygon_perimeter]. *)
Fixpoint perimeter_loop (sum : R) (pt_list : polygon) : R :=
  match pt_list with
  | p :: ((q :: _) as rest) => perimeter_loop (sum + edge_length p q) rest
  | _ => sum
  end.

(** [pt_list[0]] of an empty list raises [IndexError]. *)
Definition polygon_perimeter (pt_list : polygon) : result R :=
  match pt_list with
  | [] => Raise IndexError
  | first :: _ =>
      Ok (perimeter_loop 0 pt_list + edge_length (last pt_list first) first)%R
  end.

(** One term of the shoelace sum, [p[1]*q[0] - p[0]*q[1]]. *)
Definition shoelace_term (p q : point) : Z := py p * px q - px p * py q.

(** The loop [for idx in range(len(pt_list)-1)] of [polygon_signed_area]. *)
Fixpoint shoelace_loop (sum : Z) (pt_list : polygon) : Z :=
  match pt_list with
  | p :: ((q :: _) as rest) => shoelace_loop (sum + shoelace_term p q) rest
  | _ => sum
  end.

Definition polygon_signed_area (pt_list : polygon) : Q :=
  if (length pt_list <? 3)%nat then 0%Q
  else
    match pt_list with
    | [] => 0%Q
    | first :: _ =>
        let lst := last pt_list first in
        let sum := shoelace_loop 0 pt_list in
        let sum :=
          if negb (px first =? px lst) || negb (py first =? py lst)
          then sum + shoelace_term lst first
          else sum in
        (inject_Z sum / 2)%Q
    end.

Definition polygon_area (pt_list : polygon) : Q :=
  let area := polygon_signed_area pt_list in
  if Qlt_le_dec area 0 then (area * (-1))%Q else area.

(** [min] and [max] of a Python list; both raise [ValueError] on [[]]. *)
Definition py_min (l : list Z) : result Z :=
  match l with
  | [] => Raise ValueError
  | a :: t => Ok (fold_left Z.min t a)
  end.

Definition py_max (l : list Z) : result Z :=
  match l with
  | [] => Raise ValueError
  | a :: t => Ok (fold_left Z.max t a)
  end.

Definition polygon_mbr (pg : polygon) : result (Z * Z * Z * Z) :=
  let x_coords := map px pg in
  let y_coords := map py pg in
  x <- py_min x_coords ;;
  xmax <- py_max x_coords ;;
  let w := xmax - x + 1 in
  y <- py_min y_coords ;;
  ymax <- py_max y_coords ;;
  let h := ymax - y + 1 in
  Ok (x, y, w, h).

Definition circularity (pg : polygon) : result R :=
  L <- polygon_perimeter pg ;;
  if Rle_dec L 0 then Ok 0%R
  else
    let A := polygon_area pg in
    Ok ((4 * PI * Q2R A) / (L * L))%R.

End PolygonTools.

(** ** area_volume_map.py

    In this module a float is a rational and its operations are exact;
    module [AreaVolumeMapFloat] below repeats the fit with the rounding of
    the operations as a parameter. *)

Module AreaVolumeMap.

(** The two coefficients held by an [AreaVolumeMap] object. *)
Record model : Type := Model { c1 : Q; c2 : Q }.

(** Python's [a / b] on floats. *)
Definition fdiv (a b : Q) : result Q :=
  if Qeq_bool b 0 then Raise ZeroDivisionError else Ok (a / b)%Q.

Definition map_area (m : model) (area_cm2 : Q) : Q :=
  (c2 m * area_cm2 * area_cm2 + c1 m * area_cm2)%Q.

(** The six running sums of [_compute_second_order_model]. *)
Record sums : Type :=
  Sums { a1 : Q; b1 : Q; s1 : Q; a2 : Q; b2 : Q; s2 : Q }.

Definition second_order_step (s : sums) (p : Q * Q) : sums :=
  let x := fst p in
  let y := snd p in
  Sums (a1 s + x ^ 3) (b1 s + x ^ 2) (s1 s + x * y)
       (a2 s + x ^ 4) (b2 s + x ^ 3) (s2 s + x * x * y)%Q.

Definition second_order_sums (points : list (Q * Q)) : sums :=
  fold_left second_order_step points (Sums 0 0 0 0 0 0).

(** The denominator shared by both coefficients. *)
Definition determinant (points : list (Q * Q)) : Q :=
  let s := second_order_sums points in
  (a1 s * b2 s - a2 s * b1 s)%Q.

(** The assignment to [self.c2] comes first: when its division raises, the
    object keeps the coefficients it had on entry. *)
Definition _compute_second_order_model (points : list (Q * Q)) (m : model)
  : result unit * model :=
  let s := second_order_sums points in
  match fdiv (b2 s * s1 s - b1 s * s2 s) (a1 s * b2 s - a2 s * b1 s) with
  | Raise e => (Raise e, m)
  | Ok new_c2 =>
      let m := Model (c1 m) new_c2 in
      match fdiv (a1 s * s2 s - a2 s * s1 s) (a1 s * b2 s - a2 s * b1 s) with
      | Raise e => (Raise e, m)
      | Ok new_c1 => (Ok tt, Model new_c1 (c2 m))
      end
  end.

Definition linear_step (acc : Q * Q) (p : Q * Q) : Q * Q :=
  (fst acc + fst p ^ 2, snd acc + fst p * snd p)%Q.

Definition _compute_linear_model (points : list (Q * Q)) (m : model)
  : result unit * model :=
  let '(sum_xx, sum_xy) := fold_left linear_step points (0%Q, 0%Q) in
  match fdiv sum_xy sum_xx with
  | Raise e => (Raise e, m)
  | Ok v => (Ok tt, Model v 0)
  end.

(** [compute_model]: the returned boolean, or the exception, and the
    coefficients the object holds afterwards. *)
Definition compute_model (points : list (Q * Q)) (m : model)
  : result bool * model :=
  let m := Model 0 0 in
  if (length points <=? 0)%nat then (Ok false, m)
  else
    let '(r, m) :=
      if (length points <=? 3)%nat
      then _compute_linear_model points m
      else _compute_second_order_model points m in
    match r with
    | Raise e => (Raise e, m)
    | Ok _ => (Ok true, m)
    end.

End AreaVolumeMap.

(** ** area_volume_map.py, with the rounding of its arithmetic

    Python's floats are binary64 numbers: an operation returns the float
    that its exact result is rounded to.  Module [AreaVolumeMap] above takes
    every operation to be exact.  Here a finite float is the rational it
    denotes and the five operations the fit uses are parameters, so that the
    same code can be read with exact operations or with rounded ones.
    Infinities and NaN are outside the model: the operands are taken to be
    small enough for [x**4] and the sums not to overflow. *)

Module AreaVolumeMapFloat.

Import AreaVolumeMap.

Class FloatArith : Type := {
  fadd : Q -> Q -> Q;
  fsub : Q -> Q -> Q;
  fmul : Q -> Q -> Q;
  (** [x ** n] for the integer exponents 2, 3 and 4 *)
  fpow : Q -> positive -> Q;
  (** [a / b] for a divisor other than zero *)
  fquot : Q -> Q -> Q
}.

(** Python's [a / b] on floats: the divisor is compared with zero as it was
    computed. *)
Definition fdiv `{FloatArith} (a b : Q) : result Q :=
  if Qeq_bool b 0 then Raise ZeroDivisionError else Ok (fquot a b).

Definition map_area `{FloatArith} (m : model) (area_cm2 : Q) : Q :=
  fadd (fmul (fmul (c2 m) area_cm2) area_cm2) (fmul (c1 m) area_cm2).

Definition second_order_step `{FloatArith} (s : sums) (p : Q * Q) : sums :=
  let x := fst p in
  let y := snd p in
  Sums (fadd (a1 s) (fpow x 3)) (fadd (b1 s) (fpow x 2))
       (fadd (s1 s) (fmul x y))
       (fadd (a2 s) (fpow x 4)) (fadd (b2 s) (fpow x 3))
       (fadd (s2 s) (fmul (fmul x x) y)).

Definition second_order_sums `{FloatArith} (points : list (Q * Q)) : sums :=
  fold_left second_order_step points (Sums 0 0 0 0 0 0).

(** The divisor [a1*b2 - a2*b1] as the code computes it. *)
Definition determinant `{FloatArith} (points : list (Q * Q)) : Q :=
  let s := second_order_sums points in
  fsub (fmul (a1 s) (b2 s)) (fmul (a2 s) (b1 s)).

Definition _compute_second_order_model `{FloatArith}
  (points : list (Q * Q)) (m : model) : result unit * model :=
  let s := second_order_sums points in
  match fdiv (fsub (fmul (b2 s) (s1 s)) (fmul (b1 s) (s2 s)))
             (fsub (fmul (a1 s) (b2 s)) (fmul (a2 s) (b1 s))) with
  | Raise e => (Raise e, m)
  | Ok new_c2 =>
      let m := Model (c1 m) new_c2 in
      match fdiv (fsub (fmul (a1 s) (s2 s)) (fmul (a2 s) (s1 s)))
                 (fsub (fmul (a1 s) (b2 s)) (fmul (a2 s) (b1 s))) with
      | Raise e => (Raise e, m)
      | Ok new_c1 => (Ok tt, Model new_c1 (c2 m))
      end
  end.

Definition linear_step `{FloatArith} (acc : Q * Q) (p : Q * Q) : Q * Q :=
  (fadd (fst acc) (fpow (fst p) 2), fadd (snd acc) (fmul (fst p) (snd p))).

Definition _compute_linear_model `{FloatArith} (points : list (Q * Q))
  (m : model) : result unit * model :=
  let '(sum_xx, sum_xy) := fold_left linear_step points (0%Q, 0%Q) in
  match fdiv sum_xy sum_xx with
  | Raise e => (Raise e, m)
  | Ok v => (Ok tt, Model v 0)
  end.

Definition compute_model `{FloatArith} (points : list (Q * Q)) (m : model)
  : result bool * model :=
  let m := Model 0 0 in
  if (length points <=? 0)%nat then (Ok false, m)
  else
    let '(r, m) :=
      if (length points <=? 3)%nat
      then _compute_linear_model points m
      else _compute_second_order_model points m in
    match r with
    | Raise e => (Raise e, m)
    | Ok _ => (Ok true, m)
    end.

End AreaVolumeMapFloat.

(** ** vsa.py *)

Module Vsa.

Import PolygonTools.

(** *** numpy arrays

    A two-dimensional numpy array is the list of its rows.  The vectorised
    numpy operations the code uses are written pixel by pixel with [imap2]. *)

Definition array (A : Type) : Type := list (list A).

Definition height {A : Type} (a : array A) : nat := length a.

Definition width {A : Type} (a : array A) : nat :=
  match a with
  | [] => 0%nat
  | row :: _ => length row
  end.

(** [a[y][x]], [None] when the index is out of range. *)
Definition get {A : Type} (a : array A) (y x : nat) : option A :=
  match nth_error a y with
  | Some row => nth_error row x
  | None => None
  end.

Definition tabulate {A : Type} (h w : nat) (f : nat -> nat -> A) : array A :=
  map (fun y => map (f y) (seq 0 w)) (seq 0 h).

Fixpoint imap_from {A B : Type} (i : nat) (f : nat -> A -> B) (l : list A)
  : list B :=
  match l with
  | [] => []
  | a :: t => f i a :: imap_from (S i) f t
  end.

Definition imap {A B : Type} (f : nat -> A -> B) (l : list A) : list B :=
  imap_from 0 f l.

Definition imap2 {A B : Type} (f : nat -> nat -> A -> B) (a : array A)
  : array B :=
  imap (fun y row => imap (fun x v => f y x v) row) a.

(** [l[i:j]] for non-negative [i], [j]: out-of-range bounds are clipped. *)
Definition slice {A : Type} (l : list A) (i j : nat) : list A :=
  firstn (j - i) (skipn i l).

(** [a[y1:y2, x1:x2]]. *)
Definition slice2 {A : Type} (a : array A) (y1 y2 x1 x2 : nat) : array A :=
  map (fun row => slice row x1 x2) (slice a y1 y2).

Fixpoint nat_list_eqb (l1 l2 : list nat) : bool :=
  match l1, l2 with
  | [], [] => true
  | a :: t1, b :: t2 => Nat.eqb a b && nat_list_eqb t1 t2
  | _, _ => false
  end.

Definition same_shape {A B : Type} (a : array A) (b : array B) : bool :=
  nat_list_eqb (map (@length A) a) (map (@length B) b).

Definition in_rect (y1 y2 x1 x2 y x : nat) : bool :=
  (y1 <=? y)%nat && (y <? y2)%nat && (x1 <=? x)%nat && (x <? x2)%nat.

(** [np.any]. *)
Definition np_any (a : array Z) : bool :=
  existsb (existsb (fun v => negb (v =? 0))) a.

(** [a.flatten().tolist()]. *)
Definition flatten {A : Type} (a : array A) : list A := concat a.

Fixpoint insert_sorted (v : Z) (l : list Z) : list Z :=
  match l with
  | [] => [v]
  | a :: t => if v <=? a then v :: l else a :: insert_sorted v t
  end.

(** [np.sort] of a flat list. *)
Definition np_sort (l : list Z) : list Z := fold_right insert_sorted [] l.

(** A cell of the float64 array that [segment_spots] accumulates into:
    assigning [None] to a float array stores NaN. *)
Inductive fcell : Set :=
| FNum (z : Z)
| FNaN.

(** *** OpenCV primitives *)

Class Cv2 : Type := {
  (** threshold chosen by [cv2.threshold(..., THRESH_BINARY+THRESH_OTSU)] *)
  otsu : array Z -> Z;
  (** threshold chosen by [cv2.threshold(..., THRESH_BINARY+THRESH_TRIANGLE)] *)
  triangle : array Z -> Z;
  (** [cv2.findContours(mask, RETR_EXTERNAL, CHAIN_APPROX_NONE)], each contour
      as its point list *)
  findContours : array Z -> list polygon;
  (** [painted contours y x]: [cv2.drawContours(image, contours, -1, color,
      thickness=FILLED)] writes [color] to [image[y][x]] *)
  painted : list polygon -> nat -> nat -> bool
}.

(** The uint8 that [astype(np.uint8)] makes of a NaN: the C conversion behind
    it leaves the value to the platform. *)
Class NumpyCast : Type := {
  nan_as_uint8 : Z
}.

(** Modelled from the spec: [pt.eccentricity], which [measure_spots] calls and
    which is not among the functions of polygon_tools.py; the spec leaves its
    formula open, so it is an arbitrary fallible function of the polygon. *)
Class PolygonToolsExt : Type := {
  eccentricity : polygon -> result Q
}.

(** [cv2.threshold(img, thresh, 255, cv2.THRESH_BINARY)]. *)
Definition threshold_binary (img : array Z) (thresh : Z) : array Z :=
  map (map (fun v => if thresh <? v then 255 else 0)) img.

Definition drawContours `{Cv2} (image : array Z) (contours : list polygon)
  (color : Z) : array Z :=
  imap2 (fun y x v => if painted contours y x then color else v) image.

Definition polygon_to_contour (pg : polygon) : polygon := pg.
Definition contour_to_polygon (contour : polygon) : polygon := contour.

(** *** The processor *)

Inductive size_class : Set := junk | nano | micro | primary.

(** A numpy float64 obtained by a numpy division. *)
Inductive npfloat : Type :=
| Fin (q : Q)
| Inf
| NaN.

Record poly_props : Type := {
  img_x : Z;
  img_y : Z;
  img_w : Z;
  img_h : Z;
  perimeter_pix : R;
  perimeter_cm : R;
  area_pix2 : Q;
  area_cm2 : Q;
  volume_ul : Q;
  class : option size_class;
  prop_eccentricity : Q;
  ave_dist_to_edge_pix : npfloat;
  ave_dist_to_edge_cm : npfloat;
  points : polygon
}.

(** A rectangle [[x, y, w, h]]. *)
Record rect : Type := Rect { rx : nat; ry : nat; rw : nat; rh : nat }.

Record VsaProcessor : Type := {
  img : option (array Z);
  img_extended : option (array Z);
  img_median : Q;
  paper_mask : option (array Z);
  dist_map : option (array Z);
  spot_mask : option (array Z);
  spot_polygons : list polygon;
  spot_polygon_properties : list poly_props;
  roi : rect;
  roi_mask : option (array Z);
  roi_polygons : list polygon;
  win_size : nat
}.

Definition set_spot_mask (s : VsaProcessor) (m : option (array Z))
  : VsaProcessor :=
  {| img := img s; img_extended := img_extended s; img_median := img_median s;
     paper_mask := paper_mask s; dist_map := dist_map s; spot_mask := m;
     spot_polygons := spot_polygons s;
     spot_polygon_properties := spot_polygon_properties s;
     roi := roi s; roi_mask := roi_mask s; roi_polygons := roi_polygons s;
     win_size := win_size s |}.

Definition set_spot_polygons_field (s : VsaProcessor) (l : list polygon)
  : VsaProcessor :=
  {| img := img s; img_extended := img_extended s; img_median := img_median s;
     paper_mask := paper_mask s; dist_map := dist_map s;
     spot_mask := spot_mask s; spot_polygons := l;
     spot_polygon_properties := spot_polygon_properties s;
     roi := roi s; roi_mask := roi_mask s; roi_polygons := roi_polygons s;
     win_size := win_size s |}.

Definition set_properties (s : VsaProcessor) (l : list poly_props)
  : VsaProcessor :=
  {| img := img s; img_extended := img_extended s; img_median := img_median s;
     paper_mask := paper_mask s; dist_map := dist_map s;
     spot_mask := spot_mask s; spot_polygons := spot_polygons s;
     spot_polygon_properties := l;
     roi := roi s; roi_mask := roi_mask s; roi_polygons := roi_polygons s;
     win_size := win_size s |}.

Definition set_roi (s : VsaProcessor) (r : rect) (m : option (array Z))
  (l : list polygon) : VsaProcessor :=
  {| img := img s; img_extended := img_extended s; img_median := img_median s;
     paper_mask := paper_mask s; dist_map := dist_map s;
     spot_mask := spot_mask s; spot_polygons := spot_polygons s;
     spot_polygon_properties := spot_polygon_properties s;
     roi := r; roi_mask := m; roi_polygons := l;
     win_size := win_size s |}.

Definition set_roi_polygons (s : VsaProcessor) (l : list polygon)
  : VsaProcessor :=
  set_roi s (roi s) (roi_mask s) l.

(** The object [VsaProcessor()] builds. *)
Definition init : VsaProcessor :=
  {| img := None; img_extended := None; img_median := 0;
     paper_mask := None; dist_map := None; spot_mask := None;
     spot_polygons := []; spot_polygon_properties := [];
     roi := Rect 0 0 0 0; roi_mask := None; roi_polygons := [];
     win_size := 100 |}.

Definition have_img (s : VsaProcessor) : bool :=
  match img s with
  | None => false
  | Some a => negb (height a =? 0)%nat
  end.

Definition _vectorize_spots `{Cv2} (s : VsaProcessor) : result VsaProcessor :=
  match spot_mask s with
  | None => Raise TypeError
  | Some m => Ok (set_spot_polygons_field s (map contour_to_polygon (findContours m)))
  end.

(** *** Per-region thresholding *)

(** Python's [int()] of a float: truncation towards zero. *)
Definition py_int (q : Q) : Z := Z.quot (Qnum q) (Zpos (Qden q)).

Definition Qltb (a b : Q) : bool := negb (Qle_bool b a).

Definition triangle_weight : Q := 0.

Definition roi_threshold `{Cv2} (roi_img : array Z) (threshold_adjustment : Z)
  : Z :=
  let thresh_otsu := inject_Z (otsu roi_img) in
  let thresh_triangle := inject_Z (triangle roi_img) in
  let thresh :=
    py_int ((1 - triangle_weight) * thresh_otsu
            + triangle_weight * thresh_triangle)%Q in
  let thresh := thresh + threshold_adjustment in
  Z.max 1 (Z.min thresh 255).

(** [contour += (roi[0], roi[1])]. *)
Definition translate (x y : nat) (contour : polygon) : polygon :=
  map (fun p => (px p + Z.of_nat x, py p + Z.of_nat y)) contour.

(** [_find_spots_in_rect]: the returned pair and the processor afterwards.
    [median_val] and [median_loc] only feed the [print] and are left out. *)
Definition _find_spots_in_rect `{Cv2} (s : VsaProcessor) (roi : rect)
  (threshold_adjustment min_range min_dist_from_median : Z)
  : result ((list polygon * option (array Z)) * VsaProcessor) :=
  let s := set_roi s roi None [] in
  let x := rx roi in
  let y := ry roi in
  let w := rw roi in
  let h := rh roi in
  match img_extended s with
  | None => Raise TypeError
  | Some ext =>
      let roi_img := slice2 ext y (y + h) x (x + w) in
      let tmp_list := np_sort (flatten roi_img) in
      match tmp_list with
      | [] => Raise IndexError
      | min_val :: _ =>
          let max_val := last tmp_list min_val in
          let roi_range := max_val - min_val in
          let thresh := roi_threshold roi_img threshold_adjustment in
          let roi_mask := threshold_binary roi_img thresh in
          if negb (np_any roi_mask) then Ok (([], None), s)
          else if Qltb (inject_Z thresh) (img_median s) then Ok (([], None), s)
          else if roi_range <? min_range then Ok (([], None), s)
          else if Qltb (inject_Z thresh - img_median s)
                       (inject_Z min_dist_from_median)
          then Ok (([], None), s)
          else
            let s := set_roi s roi (Some roi_mask) [] in
            let polygons :=
              map (fun contour => contour_to_polygon (translate x y contour))
                  (findContours roi_mask) in
            Ok ((polygons, Some roi_mask), s)
      end
  end.

Definition segment_spots_in_roi `{Cv2} (s : VsaProcessor) (roi : rect)
  (threshold_adjustment min_range min_dist_from_median : Z)
  : result VsaProcessor :=
  if negb (have_img s) then Ok s
  else
    r <- _find_spots_in_rect s roi threshold_adjustment min_range
                             min_dist_from_median ;;
    let '((polygons, _), s) := r in
    Ok (set_roi_polygons s polygons).

(** *** Whole-image segmentation *)

(** [math.ceil(a / b)] for non-negative integers, [b] not zero. *)
Definition ceil_div (a b : nat) : nat :=
  (a / b + (if a mod b =? 0 then 0 else 1))%nat.

(** The tile list [[x1, y1, x2, y2]] built by the two nested loops. *)
Definition make_tiles (h w win : nat) : list (nat * nat * nat * nat) :=
  let x_count := ceil_div w win in
  let y_count := ceil_div h win in
  flat_map
    (fun y_idx =>
       map (fun x_idx =>
              let x1 := (x_idx * win)%nat in
              let y1 := (y_idx * win)%nat in
              let x2 := Nat.min (x1 + win) w in
              let y2 := Nat.min (y1 + win) h in
              (x1, y1, x2, y2))
           (seq 0 x_count))
    (seq 0 y_count).

(** [spot_mask[y1:y2, x1:x2] = roi_mask] on the float array.  [None] is
    broadcast as NaN; an array has to have the shape of the slice (the
    broadcasting of a differently shaped array is not modelled and counts as
    the [ValueError] numpy raises for shapes that do not fit). *)
Definition assign_rect (m : array fcell) (y1 y2 x1 x2 : nat)
  (v : option (array Z)) : result (array fcell) :=
  match v with
  | None =>
      Ok (imap2 (fun y x c => if in_rect y1 y2 x1 x2 y x then FNaN else c) m)
  | Some src =>
      if same_shape src (slice2 m y1 y2 x1 x2)
      then
        Ok (imap2 (fun y x c =>
                     if in_rect y1 y2 x1 x2 y x
                     then match get src (y - y1) (x - x1) with
                          | Some z => FNum z
                          | None => c
                          end
                     else c) m)
      else Raise ValueError
  end.

Fixpoint tile_loop `{Cv2} (s : VsaProcessor) (spot_mask : array fcell)
  (tiles : list (nat * nat * nat * nat))
  (threshold_adjustment min_range min_dist_from_median : Z)
  : result (array fcell * VsaProcessor) :=
  match tiles with
  | [] => Ok (spot_mask, s)
  | (x1, y1, x2, y2) :: rest =>
      let roi := Rect x1 y1 (x2 - x1) (y2 - y1) in
      r <- _find_spots_in_rect s roi threshold_adjustment min_range
                               min_dist_from_median ;;
      let '((_, roi_mask), s) := r in
      spot_mask <- assign_rect spot_mask y1 y2 x1 x2 roi_mask ;;
      tile_loop s spot_mask rest threshold_adjustment min_range
                min_dist_from_median
  end.

(** [astype(np.uint8)] of one float cell. *)
Definition astype_uint8 `{NumpyCast} (c : fcell) : Z :=
  match c with
  | FNum z => z mod 256
  | FNaN => nan_as_uint8
  end.

(** [np.where(paper_mask == 0, 0, spot_mask)]; with [paper_mask] still [None]
    the condition is the scalar [False]. *)
Definition where_paper (paper : option (array Z)) (m : array Z)
  : result (array Z) :=
  match paper with
  | None => Ok m
  | Some pm =>
      if same_shape pm m
      then
        Ok (imap2 (fun y x v =>
                     match get pm y x with
                     | Some p => if p =? 0 then 0 else v
                     | None => v
                     end) m)
      else Raise ValueError
  end.

Definition segment_spots `{Cv2} `{NumpyCast} (s : VsaProcessor)
  (threshold_adjustment min_range min_dist_from_median : Z)
  : result VsaProcessor :=
  let win := win_size s in
  let s := set_spot_polygons_field (set_roi_polygons s []) [] in
  if negb (have_img s) then Ok s
  else
    match img s with
    | None => Ok s
    | Some im =>
        let h := height im in
        let w := width im in
        if (win =? 0)%nat then Raise ZeroDivisionError
        else
          let tiles := make_tiles h w win in
          r <- tile_loop s (tabulate h w (fun _ _ => FNum 0)) tiles
                         threshold_adjustment min_range min_dist_from_median ;;
          let '(fmask, s) := r in
          let mask := imap2 (fun _ _ c => astype_uint8 c) fmask in
          mask <- where_paper (paper_mask s) mask ;;
          _vectorize_spots (set_spot_mask s (Some mask))
    end.

(** *** Editing the spot mask *)

(** The length of [l[i:j]] for a list of length [n]. *)
Definition slice_len (n i j : nat) : nat := Nat.min (j - i) (n - i).

(** numpy's broadcasting of an operand of shape [(bh, bw)] against a slice
    of shape [(sh, sw)] that the result is assigned back to: in each
    dimension the operand has the length of the slice or the length 1. *)
Definition broadcastable (bh bw sh sw : nat) : bool :=
  ((bh =? sh) || (bh =? 1))%nat && ((bw =? sw) || (bw =? 1))%nat.

(** The cell [(i, j)] of the broadcast operand: a dimension of length 1 is
    repeated along the slice. *)
Definition broadcast_get (b : array Z) (i j : nat) : option Z :=
  get b (if (height b =? 1)%nat then 0%nat else i)
        (if (width b =? 1)%nat then 0%nat else j).

(** [save_roi_spots].  The shape of the slice is computed from the shape of
    the spot mask (an array without rows counts as one of width 0); an ROI
    mask that does not broadcast to it is numpy's [ValueError]. *)
Definition save_roi_spots `{Cv2} (s : VsaProcessor) : result VsaProcessor :=
  if (length (roi_polygons s) =? 0)%nat then Ok s
  else
    let x := rx (roi s) in
    let y := ry (roi s) in
    let w := rw (roi s) in
    let h := rh (roi s) in
    match spot_mask s, roi_mask s with
    | Some sm, Some rm =>
        if broadcastable (height rm) (width rm)
                         (slice_len (height sm) y (y + h))
                         (slice_len (width sm) x (x + w))
        then
          let merged :=
            imap2 (fun yy xx v =>
                     if in_rect y (y + h) x (x + w) yy xx
                     then match broadcast_get rm (yy - y) (xx - x) with
                          | Some r => Z.lor v r
                          | None => v
                          end
                     else v) sm in
          _vectorize_spots (set_spot_mask s (Some merged))
        else Raise ValueError
    | _, _ => Raise TypeError
    end.

Definition clear_poly_selection `{Cv2} (s : VsaProcessor) (pg : polygon)
  : result VsaProcessor :=
  match img s with
  | None => Ok s
  | Some _ =>
      let contour := polygon_to_contour pg in
      match spot_mask s with
      | None => Raise TypeError
      | Some m =>
          _vectorize_spots (set_spot_mask s (Some (drawContours m [contour] 0)))
      end
  end.

Definition fill_poly_selection `{Cv2} (s : VsaProcessor) (pg : polygon)
  : result VsaProcessor :=
  match img s with
  | None => Ok s
  | Some _ =>
      let contour := polygon_to_contour pg in
      match spot_mask s with
      | None => Raise TypeError
      | Some m =>
          _vectorize_spots
            (set_spot_mask s (Some (drawContours m [contour] 255)))
      end
  end.

Definition set_spot_polygons `{Cv2} (s : VsaProcessor)
  (polygons : list polygon) : VsaProcessor :=
  match img s with
  | None => s
  | Some im =>
      let s := set_spot_polygons_field s polygons in
      let contours := map polygon_to_contour polygons in
      let zeros := tabulate (height im) (width im) (fun _ _ => 0) in
      set_spot_mask s (Some (drawContours zeros contours 255))
  end.

(** *** Measurement *)

(** numpy's [a / b] on integer scalars: no exception on a zero divisor. *)
Definition np_divide (a b : Z) : npfloat :=
  if b =? 0 then (if a =? 0 then NaN else Inf)
  else Fin (inject_Z a / inject_Z b).

(** A numpy float64 divided by a Python float. *)
Definition npfloat_div (v : npfloat) (d : Q) : npfloat :=
  match v with
  | Fin q =>
      if Qeq_bool d 0 then (if Qeq_bool q 0 then NaN else Inf)
      else Fin (q / d)
  | Inf => Inf
  | NaN => NaN
  end.

(** [np.sum(spot_mask == 255)]. *)
Definition count_255 (m : array Z) : Z :=
  fold_left (fun n v => if v =? 255 then n + 1 else n) (flatten m) 0.

(** [np.where(spot_mask > 0, dist_map, 0)]. *)
Definition where_mask (m dist : array Z) : result (array Z) :=
  if same_shape m dist
  then
    Ok (imap2 (fun y x d =>
                 match get m y x with
                 | Some v => if 0 <? v then d else 0
                 | None => 0
                 end) dist)
  else Raise ValueError.

Definition np_sum (a : array Z) : Z := fold_left Z.add (flatten a) 0.

(** Lines 180-185 of [measure_spots]: the mean of the distance map over the
    pixels of the filled polygon. *)
Definition ave_dist_to_edge `{Cv2} (s : VsaProcessor) (pg : polygon)
  : result npfloat :=
  match paper_mask s with
  | None => Raise TypeError
  | Some pm =>
      let zeros := tabulate (height pm) (width pm) (fun _ _ => 0) in
      let spot_mask := drawContours zeros [polygon_to_contour pg] 255 in
      let count := count_255 spot_mask in
      match dist_map s with
      | None => Raise TypeError
      | Some dm =>
          masked_dist_map <- where_mask spot_mask dm ;;
          let sum := np_sum masked_dist_map in
          Ok (np_divide sum count)
      end
  end.

Definition classify (volume_ul : Q) (size_thresh_list : list Q)
  : option size_class :=
  if (length size_thresh_list =? 3)%nat
  then
    if Qltb volume_ul (nth 0 size_thresh_list 0%Q) then Some junk
    else if Qltb volume_ul (nth 1 size_thresh_list 0%Q) then Some nano
    else if Qltb volume_ul (nth 2 size_thresh_list 0%Q) then Some micro
    else Some primary
  else None.

(** The body of the loop over [self.spot_polygons]. *)
Definition measure_polygon `{Cv2} `{PolygonToolsExt} (s : VsaProcessor)
  (volume_mapper : AreaVolumeMap.model) (pix_per_cm : Q)
  (size_thresh_list : list Q) (pg : polygon) : result poly_props :=
  mbr <- polygon_mbr pg ;;
  let '(x, y, w, h) := mbr in
  perimeter_pix <- polygon_perimeter pg ;;
  _ <- AreaVolumeMap.fdiv 1 pix_per_cm ;;
  let perimeter_cm := (perimeter_pix / Q2R pix_per_cm)%R in
  let area_pix2 := polygon_area pg in
  area_cm2 <- AreaVolumeMap.fdiv area_pix2 (pix_per_cm ^ 2) ;;
  let volume_ul := AreaVolumeMap.map_area volume_mapper area_cm2 in
  let cls := classify volume_ul size_thresh_list in
  ecc <- eccentricity pg ;;
  ave <- ave_dist_to_edge s pg ;;
  Ok {| img_x := x; img_y := y; img_w := w; img_h := h;
        perimeter_pix := perimeter_pix; perimeter_cm := perimeter_cm;
        area_pix2 := area_pix2; area_cm2 := area_cm2;
        volume_ul := volume_ul; class := cls; prop_eccentricity := ecc;
        ave_dist_to_edge_pix := ave;
        ave_dist_to_edge_cm := npfloat_div ave pix_per_cm;
        points := pg |}.

Fixpoint measure_loop `{Cv2} `{PolygonToolsExt} (s : VsaProcessor)
  (volume_mapper : AreaVolumeMap.model) (pix_per_cm : Q)
  (size_thresh_list : list Q) (polygons : list polygon)
  (props : list poly_props) : result (list poly_props) :=
  match polygons with
  | [] => Ok props
  | pg :: rest =>
      p <- measure_polygon s volume_mapper pix_per_cm size_thresh_list pg ;;
      measure_loop s volume_mapper pix_per_cm size_thresh_list rest
                   (props ++ [p])
  end.

(** [sorted(..., key=volume_ul, reverse=True)]: descending and stable. *)
Fixpoint insert_desc (p : poly_props) (l : list poly_props)
  : list poly_props :=
  match l with
  | [] => [p]
  | q :: t =>
      if Qle_bool (volume_ul q) (volume_ul p) then p :: l
      else q :: insert_desc p t
  end.

Definition sorted_desc (l : list poly_props) : list poly_props :=
  fold_right insert_desc [] l.

(** The aggregation loop: [prop['class']] raises [KeyError] on a record
    without that key. *)
Fixpoint sum_area (area_pix : Q) (props : list poly_props) : result Q :=
  match props with
  | [] => Ok area_pix
  | prop :: rest =>
      match class prop with
      | None => Raise KeyError
      | Some junk => Ok area_pix
      | Some _ => sum_area (area_pix + area_pix2 prop) rest
      end
  end.

Definition measure_spots `{Cv2} `{PolygonToolsExt} (s : VsaProcessor)
  (volume_mapper : AreaVolumeMap.model) (pix_per_cm : Q)
  (size_thresh_list : list Q) : result (Q * VsaProcessor) :=
  props <- measure_loop s volume_mapper pix_per_cm size_thresh_list
                        (spot_polygons s) [] ;;
  let props := sorted_desc props in
  let s := set_properties s props in
  area_pix <- sum_area 0 props ;;
  Ok (area_pix, s).

End Vsa.

(** ** polygon_tools.py, the remaining functions *)

Module PolygonToolsRest.

Import PolygonTools.

(** Python's [sum] of a list of integers. *)
Definition py_sum (l : list Z) : Z := fold_left Z.add l 0.

(** [polygon_center]: [None] on an empty list, else the mean of the
    vertices. *)
Definition polygon_center (pt_list : polygon) : option (Q * Q) :=
  match pt_list with
  | [] => None
  | _ :: _ =>
      let n := inject_Z (Z.of_nat (length pt_list)) in
      let x := (inject_Z (py_sum (map px pt_list)) / n)%Q in
      let y := (inject_Z (py_sum (map py pt_list)) / n)%Q in
      Some (x, y)
  end.

Definition point_in_polygon_mbr (pt : point) (pg : polygon) : result bool :=
  mbr <- polygon_mbr pg ;;
  let '(x, y, w, h) := mbr in
  if (px pt <? x) || (x + w <? px pt) then Ok false
  else if (py pt <? y) || (y + h <? py pt) then Ok false
  else Ok true.

(** The loop of [largest_polygon], entered at index [idx]. *)
Fixpoint largest_loop (polygons : list polygon) (idx : Z) (max_area : Q)
  (max_idx : Z) : Z :=
  match polygons with
  | [] => max_idx
  | pg :: rest =>
      let area := polygon_area pg in
      if Qlt_le_dec max_area area
      then largest_loop rest (idx + 1) area idx
      else largest_loop rest (idx + 1) max_area max_idx
  end.

(** [largest_polygon]; the argument [None] is Python's [None]. *)
Definition largest_polygon (polygons : option (list polygon)) : Z :=
  match polygons with
  | None => -1
  | Some l =>
      if (length l <=? 0)%nat then -1 else largest_loop l 0 0%Q 0
  end.

Definition largest_contour (contours : option (list polygon)) : Z :=
  match contours with
  | None => -1
  | Some cs => largest_polygon (Some (map Vsa.contour_to_polygon cs))
  end.

(** One coordinate of a smoothed vertex, [int((a + b + c)/3)]: the float
    quotient truncated towards zero. *)
Definition smooth_coord (a b c : Z) : Z := Z.quot (a + b + c) 3.

(** The loop of [smooth_polygon] from the vertex after [prev] on: [prev] is
    [polygon[idx-1]] as the loop has left it, the vertex after the current
    one is still the original. *)
Fixpoint smooth_loop (prev : point) (pg : polygon) : polygon :=
  match pg with
  | cur :: ((next :: _) as rest) =>
      let new := (smooth_coord (px prev) (px cur) (px next),
                  smooth_coord (py prev) (py cur) (py next)) in
      new :: smooth_loop new rest
  | _ => pg
  end.

(** [smooth_polygon]: the list the caller's polygon has become.  At index 0
    [polygon[idx-1]] is the last vertex. *)
Definition smooth_polygon (pg : polygon) : polygon :=
  if (length pg <? 5)%nat then pg
  else
    match pg with
    | [] => pg
    | first :: _ => smooth_loop (last pg first) pg
    end.

End PolygonToolsRest.

(** ** vsa.py, the remaining functions *)

Module VsaRest.

Import PolygonTools PolygonToolsRest Vsa.

(** [open_image], given what [cv2.imread] returned: the boolean and the
    processor afterwards.  [img_extended], [img_median] and [win_size] are
    not among the fields it resets. *)
Definition open_image (s : VsaProcessor) (imread : option (array Z))
  : bool * VsaProcessor :=
  let reset (im : option (array Z)) (m : option (array Z)) :=
    {| img := im; img_extended := img_extended s;
       img_median := img_median s; paper_mask := None; dist_map := None;
       spot_mask := m; spot_polygons := []; spot_polygon_properties := [];
       roi := Rect 0 0 0 0; roi_mask := None; roi_polygons := [];
       win_size := win_size s |} in
  match imread with
  | None => (false, reset None None)
  | Some im =>
      if (height im =? 0)%nat then (false, reset None None)
      else
        (true,
         reset (Some im) (Some (tabulate (height im) (width im) (fun _ _ => 0))))
  end.

Definition get_img_dim (s : VsaProcessor) : nat * nat :=
  if have_img s
  then match img s with
       | Some im => (height im, width im)
       | None => (0%nat, 0%nat)
       end
  else (0%nat, 0%nat).

Definition get_default_paper_threshold `{Cv2} (s : VsaProcessor) : Z :=
  if negb (have_img s) then -1
  else
    match img s with
    | None => -1
    | Some im =>
        let triangle_weight := (3 # 4)%Q in
        let thresh_otsu := inject_Z (otsu im) in
        let thresh_triangle := inject_Z (triangle im) in
        let thresh :=
          py_int ((1 - triangle_weight) * thresh_otsu
                  + triangle_weight * thresh_triangle)%Q in
        let thresh := Z.max thresh 0 in
        let thresh := Z.min thresh 255 in
        thresh
    end.

(** [np.median] of a list of integers: NaN on the empty list. *)
Definition np_median (l : list Z) : npfloat :=
  let sorted := np_sort l in
  let n := length sorted in
  match sorted with
  | [] => NaN
  | _ :: _ =>
      if Nat.even n
      then Fin ((inject_Z (nth (n / 2 - 1) sorted 0%Z)
                 + inject_Z (nth (n / 2) sorted 0%Z)) / 2)%Q
      else Fin (inject_Z (nth (n / 2) sorted 0))
  end.

(** [np.where(paper_mask > 0, img, other)], for arrays of one shape (numpy
    raises [ValueError] on shapes that do not fit). *)
Definition where_under_paper (paper image : array Z) (other : Z)
  : result (array Z) :=
  if same_shape paper image
  then
    Ok (imap2 (fun y x v =>
                 match get paper y x with
                 | Some p => if 0 <? p then v else other
                 | None => other
                 end) image)
  else Raise ValueError.

Definition set_extended (s : VsaProcessor) (ext : array Z) (median : Q)
  : VsaProcessor :=
  {| img := img s; img_extended := Some ext; img_median := median;
     paper_mask := paper_mask s; dist_map := dist_map s;
     spot_mask := spot_mask s; spot_polygons := spot_polygons s;
     spot_polygon_properties := spot_polygon_properties s;
     roi := roi s; roi_mask := roi_mask s; roi_polygons := roi_polygons s;
     win_size := win_size s |}.

(** [extend_image] without the file it writes.  The cast back to the pixel
    type truncates the median.  When no pixel under the mask is positive the
    median is NaN, which the rational [img_median] of this embedding cannot
    hold: the model stops there with [Ok None]. *)
Definition extend_image (s : VsaProcessor) : result (option VsaProcessor) :=
  match paper_mask s, img s with
  | Some paper, Some im =>
      masked <- where_under_paper paper im 0 ;;
      let tmp_list := filter (fun x => 0 <? x) (flatten masked) in
      let median := np_median tmp_list in
      match get im 0 0 with
      | None => Raise IndexError
      | Some _ =>
          match median with
          | Fin med =>
              ext <- where_under_paper paper im (py_int med) ;;
              Ok (Some (set_extended s ext med))
          | _ => Ok None
          end
      end
  | _, _ => Raise TypeError
  end.

(** The OpenCV primitives of [segment_paper]. *)
Class Cv2Morphology : Type := {
  (** [cv2.erode] and [cv2.dilate] with the 3 by 3 kernel, one iteration *)
  erode : array Z -> array Z;
  dilate : array Z -> array Z;
  (** [cv2.distanceTransform(mask, cv2.DIST_L2, 3).astype(np.uint16)] *)
  distanceTransform : array Z -> array Z
}.

(** [l[idx]] for a Python index, negative ones counted from the end. *)
Definition py_index {A : Type} (l : list A) (idx : Z) : result A :=
  let i := if idx <? 0 then idx + Z.of_nat (length l) else idx in
  if i <? 0 then Raise IndexError
  else match nth_error l (Z.to_nat i) with
       | Some a => Ok a
       | None => Raise IndexError
       end.

Definition set_paper (s : VsaProcessor) (paper : array Z) : VsaProcessor :=
  {| img := img s; img_extended := img_extended s;
     img_median := img_median s; paper_mask := Some paper;
     dist_map := dist_map s; spot_mask := spot_mask s;
     spot_polygons := spot_polygons s;
     spot_polygon_properties := spot_polygon_properties s;
     roi := roi s; roi_mask := roi_mask s; roi_polygons := roi_polygons s;
     win_size := win_size s |}.

Definition set_dist_map (s : VsaProcessor) (dist : array Z) : VsaProcessor :=
  {| img := img s; img_extended := img_extended s;
     img_median := img_median s; paper_mask := paper_mask s;
     dist_map := Some dist; spot_mask := spot_mask s;
     spot_polygons := spot_polygons s;
     spot_polygon_properties := spot_polygon_properties s;
     roi := roi s; roi_mask := roi_mask s; roi_polygons := roi_polygons s;
     win_size := win_size s |}.

(** [segment_paper] without the files it writes.  [paper_polygon] is the
    value of [self.paper_polygon] on entry; the result is the returned
    boolean, [self.paper_polygon] and the processor afterwards, or [None]
    where [extend_image] meets a NaN median. *)
Definition segment_paper `{Cv2} `{Cv2Morphology} (s : VsaProcessor)
  (paper_polygon : polygon) (threshold : Z)
  : result (option (bool * polygon * VsaProcessor)) :=
  if negb (have_img s) then Ok (Some (false, paper_polygon, s))
  else
    match img s with
    | None => Ok (Some (false, paper_polygon, s))
    | Some im =>
        let paper_mask := threshold_binary im threshold in
        if negb (np_any paper_mask) then Ok (Some (false, paper_polygon, s))
        else
          let paper_mask := erode paper_mask in
          let paper_mask := dilate paper_mask in
          let paper_contours := findContours paper_mask in
          let idx_of_largest_contour :=
            largest_contour (Some paper_contours) in
          let zeros :=
            tabulate (height paper_mask) (width paper_mask) (fun _ _ => 0) in
          contour <- py_index paper_contours idx_of_largest_contour ;;
          let s := set_paper s (drawContours zeros [contour] 255) in
          let paper_polygon := contour_to_polygon contour in
          extended <- extend_image s ;;
          match extended with
          | None => Ok None
          | Some s =>
              let s :=
                match Vsa.paper_mask s with
                | Some pm => set_dist_map s (distanceTransform pm)
                | None => s
                end in
              Ok (Some (true, paper_polygon, s))
          end
    end.

End VsaRest.

(** ** Vocabulary of the specification *)

Import PolygonTools.

(** The polygon with the same vertices, starting [k] vertices later. *)
Definition rotate (k : nat) (pt_list : polygon) : polygon :=
  skipn k pt_list ++ firstn k pt_list.

(** The shoelace sum over all edges of the closed polygon. *)
Definition cyclic_sum (pt_list : polygon) : Z :=
  match pt_list with
  | [] => 0
  | first :: _ =>
      shoelace_loop 0 pt_list + shoelace_term (last pt_list first) first
  end.

(** The axis-aligned square of side [s] with corner [(x, y)], by its four
    corners in the order of the repository's test. *)
Definition square (x y s : Z) : polygon :=
  [(x, y); (x + s, y); (x + s, y + s); (x, y + s)].

(** The sums of [A^2] and of [A*V] over a list of calibration points [(A, V)]. *)
Definition sum_AA (points : list (Q * Q)) : Q :=
  fold_right (fun p acc => fst p * fst p + acc)%Q 0%Q points.

Definition sum_AV (points : list (Q * Q)) : Q :=
  fold_right (fun p acc => fst p * snd p + acc)%Q 0%Q points.

(** A fit failure of a type of its own: an exception other than the
    arithmetic error of the division. *)
Definition fit_failure (r : result bool) : Prop :=
  exists e : exn, r = Raise e /\ e <> ZeroDivisionError.

(** Four calibration points of equal area. *)
Definition equal_area_points : list (Q * Q) :=
  [(1, 1); (1, 2); (1, 3); (1, 4)]%Q.

(** Exact operations: the arithmetic of module [AreaVolumeMap]. *)
Definition exact_arith : AreaVolumeMapFloat.FloatArith :=
  {| AreaVolumeMapFloat.fadd := Qplus;
     AreaVolumeMapFloat.fsub := Qminus;
     AreaVolumeMapFloat.fmul := Qmult;
     AreaVolumeMapFloat.fpow := fun x n => Qpower x (Zpos n);
     AreaVolumeMapFloat.fquot := Qdiv |}.

(** The integer nearest to [q], a tie going to the even one. *)
Definition round_half_even (q : Q) : Z :=
  let f := Qfloor q in
  match (q - inject_Z f ?= 1 # 2)%Q with
  | Lt => f
  | Gt => f + 1
  | Eq => if Z.even f then f else f + 1
  end.

(** Rounding to the nearest number with a significand of 53 bits, ties to
    even: binary64 without the limits of its exponent.  [e] is the exponent
    that puts the significand between [2^52] and [2^53]. *)
Definition binary64_round (q : Q) : Q :=
  if Qeq_bool q 0 then 0%Q
  else
    let a := Qabs q in
    let e0 := Z.log2 (Qnum a) - Z.log2 (Zpos (Qden a)) - 52 in
    let e := if Qle_bool (2 ^ 52) (a / 2 ^ e0) then e0 else e0 - 1 in
    let r := Qred (inject_Z (round_half_even (a / 2 ^ e)) * 2 ^ e) in
    if Qle_bool 0 q then r else Qred (- r).

(** Correctly rounded binary64 operations. *)
Definition binary64 : AreaVolumeMapFloat.FloatArith :=
  {| AreaVolumeMapFloat.fadd := fun a b => binary64_round (a + b);
     AreaVolumeMapFloat.fsub := fun a b => binary64_round (a - b);
     AreaVolumeMapFloat.fmul := fun a b => binary64_round (a * b);
     AreaVolumeMapFloat.fpow := fun x n => binary64_round (Qpower x (Zpos n));
     AreaVolumeMapFloat.fquot := fun a b => binary64_round (a / b) |}.

(** Four calibration points whose area is the float [0.3]. *)
Definition float_03 : Q := binary64_round (3 # 10).

Definition equal_area_points_03 : list (Q * Q) :=
  [(float_03, 1); (float_03, 2); (float_03, 3); (float_03, 4)]%Q.

Import Vsa.

(** [a] is a full [h] by [w] array. *)
Definition has_shape {A : Type} (a : array A) (h w : nat) : Prop :=
  length a = h /\ Forall (fun row => length row = w) a.

(** The region [roi] of a raster, and the list of its pixels. *)
Definition region_img (raster : array Z) (roi : rect) : array Z :=
  slice2 raster (ry roi) (ry roi + rh roi) (rx roi) (rx roi + rw roi).

Definition region (raster : array Z) (roi : rect) : list Z :=
  flatten (region_img raster roi).

(** Maximum minus minimum of a list of intensities. *)
Definition intensity_range (l : list Z) : Z :=
  match l with
  | [] => 0
  | a :: t => fold_left Z.max t a - fold_left Z.min t a
  end.

(** The value of pixel [(y, x)] of a raster. *)
Definition pixel (a : array Z) (y x : nat) : Z :=
  match get a y x with
  | Some v => v
  | None => 0
  end.

(** The window of the grid of side [win] that holds pixel [(y, x)] of an
    [h] by [w] image, clipped to the image. *)
Definition tile_of (h w win y x : nat) : rect :=
  let x1 := (x / win * win)%nat in
  let y1 := (y / win * win)%nat in
  Rect x1 y1 (Nat.min (x1 + win) w - x1) (Nat.min (y1 + win) h - y1).

(** What a call returns, without the processor it leaves. *)
Definition outcome {X : Type} (r : result (X * VsaProcessor)) : result X :=
  match r with
  | Ok (x, _) => Ok x
  | Raise e => Raise e
  end.

(** The mask the per-region procedure returns for [roi]: [None] on a
    rejection. *)
Definition tile_mask `{Cv2} (s : VsaProcessor) (roi : rect)
  (adj min_range min_dist : Z) : option (array Z) :=
  match _find_spots_in_rect s roi adj min_range min_dist with
  | Ok ((_, m), _) => m
  | Raise _ => None
  end.

(** Every foreground pixel of [m] is a foreground pixel of [paper]. *)
Definition subset_of (m paper : array Z) : Prop :=
  forall y x v, get m y x = Some v -> v <> 0 -> pixel paper y x <> 0.

(** A tile that lies inside an [h] by [w] image and holds a pixel. *)
Definition tile_in (h w : nat) (t : nat * nat * nat * nat) : Prop :=
  let '(x1, y1, x2, y2) := t in
  (x1 < x2 <= w)%nat /\ (y1 < y2 <= h)%nat.

Definition roi_of_tile (t : nat * nat * nat * nat) : rect :=
  let '(x1, y1, x2, y2) := t in Rect x1 y1 (x2 - x1) (y2 - y1).

(** What [spot_mask[y1:y2, x1:x2] = roi_mask] stores in cell [(y, x)]. *)
Definition assigned (v : option (array Z)) (y1 y2 x1 x2 y x : nat)
  (c : fcell) : fcell :=
  if in_rect y1 y2 x1 x2 y x
  then match v with
       | None => FNaN
       | Some src => match get src (y - y1) (x - x1) with
                     | Some z => FNum z
                     | None => c
                     end
       end
  else c.

(** The fields a run of the tile loop leaves alone. *)
Definition same_frame (s s' : VsaProcessor) : Prop :=
  img s' = img s /\ img_extended s' = img_extended s /\
  img_median s' = img_median s /\ paper_mask s' = paper_mask s /\
  dist_map s' = dist_map s /\ win_size s' = win_size s /\
  spot_polygon_properties s' = spot_polygon_properties s.

(** What tile [t] does to cell [(y, x)] of the float array. *)
Definition tile_paint `{Cv2} (s : VsaProcessor) (adj min_range min_dist : Z)
  (y x : nat) (c : fcell) (t : nat * nat * nat * nat) : fcell :=
  let '(x1, y1, x2, y2) := t in
  assigned (tile_mask s (roi_of_tile t) adj min_range min_dist)
           y1 y2 x1 x2 y x c.

(** The tile of the grid that holds pixel [(y, x)]. *)
Definition tile_for (h w win y x : nat) : nat * nat * nat * nat :=
  ((x / win * win)%nat, (y / win * win)%nat,
   Nat.min (x / win * win + win) w, Nat.min (y / win * win + win) h).

(** The float cell the tile loop leaves for a pixel whose window has the
    mask [tm] (or none) and the threshold [thresh]. *)
Definition window_cell (tm : option (array Z)) (thresh v : Z) : fcell :=
  match tm with
  | Some _ => FNum (if thresh <? v then 255 else 0)
  | None => FNaN
  end.

(** *** A worked example

    A 5 by 5 scan: dark background, a 3 by 3 sheet of paper of intensity 200
    in the middle, and one stained pixel of intensity 250 at its centre.
    [example_processor] is the processor after [open_image] and
    [segment_paper] at a threshold between 20 and 200: the 3 by 3 block
    survives the 3 by 3 opening and is the paper mask, the median inside it
    is 200, and the distance map is 2 at the centre and 1 around it. *)

Definition example_img : array Z :=
  [[20; 20; 20; 20; 20];
   [20; 200; 200; 200; 20];
   [20; 200; 250; 200; 20];
   [20; 200; 200; 200; 20];
   [20; 20; 20; 20; 20]].

Definition example_paper : array Z :=
  [[0; 0; 0; 0; 0];
   [0; 255; 255; 255; 0];
   [0; 255; 255; 255; 0];
   [0; 255; 255; 255; 0];
   [0; 0; 0; 0; 0]].

Definition example_extended : array Z :=
  [[200; 200; 200; 200; 200];
   [200; 200; 200; 200; 200];
   [200; 200; 250; 200; 200];
   [200; 200; 200; 200; 200];
   [200; 200; 200; 200; 200]].

Definition example_dist : array Z :=
  [[0; 0; 0; 0; 0];
   [0; 1; 1; 1; 0];
   [0; 1; 2; 1; 0];
   [0; 1; 1; 1; 0];
   [0; 0; 0; 0; 0]].

Definition example_processor : VsaProcessor :=
  {| img := Some example_img; img_extended := Some example_extended;
     img_median := 200; paper_mask := Some example_paper;
     dist_map := Some example_dist;
     spot_mask := Some (tabulate 5 5 (fun _ _ => 0));
     spot_polygons := []; spot_polygon_properties := [];
     roi := Rect 0 0 0 0; roi_mask := None; roi_polygons := [];
     win_size := 100 |}.

(** The pixels of the inclusive bounding boxes of the contours: what
    [cv2.drawContours] with [thickness=FILLED] paints for one contour that is
    an axis-aligned rectangle given by its four corners, or a single point. *)
Definition box_painted (contours : list polygon) (y x : nat) : bool :=
  existsb
    (fun pg =>
       match polygon_mbr pg with
       | Ok (bx, by_, bw, bh) =>
           (bx <=? Z.of_nat x) && (Z.of_nat x <? bx + bw)
           && (by_ <=? Z.of_nat y) && (Z.of_nat y <? by_ + bh)
       | Raise _ => false
       end)
    contours.

(** OpenCV for the examples: they only draw rectangles and points; the Otsu
    threshold of a region is taken to be 225 and the traced contours are not
    looked at. *)
Definition example_cv2 : Cv2 :=
  {| otsu := fun _ => 225;
     triangle := fun _ => 225;
     findContours := fun _ => [];
     painted := box_painted |}.

Definition example_cast : NumpyCast := {| nan_as_uint8 := 0 |}.

(** The example after the stained pixel has been segmented. *)
Definition example_spot_mask : array Z :=
  [[0; 0; 0; 0; 0];
   [0; 0; 0; 0; 0];
   [0; 0; 255; 0; 0];
   [0; 0; 0; 0; 0];
   [0; 0; 0; 0; 0]].

Definition example_spotted : VsaProcessor :=
  set_spot_mask example_processor (Some example_spot_mask).

(** A polygon of a session saved on a larger scan: it lies outside the 5 by 5
    image. *)
Definition outside_polygon : polygon := [(7, 7); (9, 7); (9, 9); (7, 9)].

Definition example_outside : VsaProcessor :=
  @set_spot_polygons example_cv2 example_processor [outside_polygon].

(** An eccentricity for the examples. *)
Definition example_ext : PolygonToolsExt := {| eccentricity := fun _ => Ok 0%Q |}.

(** A rectangular selection over the paper, as the viewer hands it over, and
    one over the top left corner of the scan. *)
Definition paper_selection : polygon := [(1, 1); (3, 1); (3, 3); (1, 3)].
Definition corner_selection : polygon := [(0, 0); (1, 0); (1, 1); (0, 1)].

(** *** Vocabulary of the further properties *)

Import PolygonToolsRest VsaRest.

(** The polygon moved by [(dx, dy)]. *)
Definition shift (dx dy : Z) (pg : polygon) : polygon :=
  map (fun p => (px p + dx, py p + dy)) pg.

(** A path walked to its end and back: the vertices of [path], then the same
    vertices in reverse order without repeating the turning point. *)
Definition out_and_back (path : polygon) : polygon := path ++ tl (rev path).



(** The sum of the squared residuals of the line [V = k * A]. *)
Definition squared_error (k : Q) (points : list (Q * Q)) : Q :=
  fold_right (fun p acc => (snd p - k * fst p) * (snd p - k * fst p) + acc)%Q
             0%Q points.

(** The example processor with a spot, after a probe of the 2 by 2 ROI at
    [(1, 1)] that found one candidate at the corner of the ROI. *)
Definition example_probed : VsaProcessor :=
  set_roi example_spotted (Rect 1 1 2 2) (Some [[255; 0]; [0; 0]])
          [[(1, 1)]].


(** The size classes in the order of their thresholds. *)
Definition class_rank (c : size_class) : nat :=
  match c with
  | junk => 0
  | nano => 1
  | micro => 2
  | primary => 3
  end.

(** The summed pixel area of the records whose class is not junk. *)
Definition is_junk (p : poly_props) : bool :=
  match class p with
  | Some junk => true
  | _ => false
  end.

Definition counted_area (props : list poly_props) : Q :=
  fold_right (fun p acc => if is_junk p then acc else area_pix2 p + acc)%Q
             0%Q props.

(** Records in descending order of volume. *)
Definition volume_desc (props : list poly_props) : Prop :=
  StronglySorted (fun a b => (volume_ul b <= volume_ul a)%Q) props.

(** The outcome of a ROI probe that can be observed afterwards. *)
Definition probe_view (r : result VsaProcessor)
  : result (rect * option (array Z) * list polygon) :=
  match r with
  | Ok s => Ok (roi s, roi_mask s, roi_polygons s)
  | Raise e => Raise e
  end.

(** ** Properties of polygon_tools.py *)

Section PolygonArea.

Lemma shoelace_loop_acc (l : polygon) :
  forall acc, shoelace_loop acc l = acc + shoelace_loop 0 l.
Proof.
  induction l as [|p l IH]; intros acc; simpl.
  - lia.
  - destruct l as [|q t]; [lia|].
    rewrite (IH (acc + shoelace_term p q)), (IH (shoelace_term p q)). lia.
Qed.

Lemma shoelace_loop_cons (p q : point) (t : polygon) :
  shoelace_loop 0 (p :: q :: t) = shoelace_term p q + shoelace_loop 0 (q :: t).
Proof.
  change (shoelace_loop 0 (p :: q :: t))
    with (shoelace_loop (0 + shoelace_term p q) (q :: t)).
  rewrite shoelace_loop_acc. lia.
Qed.

Lemma shoelace_term_swap (p q : point) :
  shoelace_term q p = - shoelace_term p q.
Proof. unfold shoelace_term. lia. Qed.

Lemma shoelace_term_same (p q : point) :
  px p = px q -> py p = py q -> shoelace_term p q = 0.
Proof. unfold shoelace_term. intros -> ->. lia. Qed.

Lemma shoelace_loop_snoc (t : polygon) (a d : point) :
  t <> [] ->
  shoelace_loop 0 (t ++ [a]) = shoelace_loop 0 t + shoelace_term (last t d) a.
Proof.
  induction t as [|p t IH]; intros Hne; [congruence|].
  destruct t as [|q t].
  - simpl. lia.
  - change ((p :: q :: t) ++ [a]) with (p :: q :: (t ++ [a])).
    rewrite !shoelace_loop_cons.
    change (q :: t ++ [a]) with ((q :: t) ++ [a]).
    rewrite IH by discriminate.
    change (last (p :: q :: t) d) with (last (q :: t) d). lia.
Qed.

Lemma last_snoc (t : polygon) (a d : point) : last (t ++ [a]) d = a.
Proof. apply last_last. Qed.

Lemma cyclic_sum_cons (b : point) (r : polygon) :
  cyclic_sum (b :: r) =
  shoelace_loop 0 (b :: r) + shoelace_term (last (b :: r) b) b.
Proof. reflexivity. Qed.

Lemma cyclic_sum_rotate1 (a : point) (t : polygon) :
  cyclic_sum (t ++ [a]) = cyclic_sum (a :: t).
Proof.
  destruct t as [|b t].
  - reflexivity.
  - change ((b :: t) ++ [a]) with (b :: (t ++ [a])).
    rewrite !cyclic_sum_cons.
    change (b :: t ++ [a]) with ((b :: t) ++ [a]).
    rewrite last_snoc, (shoelace_loop_snoc (b :: t) a a) by discriminate.
    rewrite shoelace_loop_cons.
    change (last (a :: b :: t) a) with (last (b :: t) a). lia.
Qed.

Lemma rotate_step (k : nat) (a : point) (t : polygon) :
  (k <= length t)%nat -> rotate (S k) (a :: t) = rotate k (t ++ [a]).
Proof.
  intros Hk. unfold rotate. simpl.
  rewrite skipn_app, firstn_app.
  replace (k - length t)%nat with 0%nat by lia.
  simpl. rewrite app_nil_r, <- app_assoc. reflexivity.
Qed.

Lemma rotate_all (k : nat) (l : polygon) :
  (length l <= k)%nat -> rotate k l = l.
Proof.
  intros Hk. unfold rotate.
  rewrite skipn_all2, firstn_all2 by lia. reflexivity.
Qed.

Lemma cyclic_sum_rotate (k : nat) :
  forall l, cyclic_sum (rotate k l) = cyclic_sum l.
Proof.
  induction k as [|k IH]; intros l.
  - unfold rotate. simpl. rewrite app_nil_r. reflexivity.
  - destruct l as [|a t]; [reflexivity|].
    destruct (Nat.le_gt_cases k (length t)) as [Hk|Hk].
    + rewrite rotate_step, IH by exact Hk. apply cyclic_sum_rotate1.
    + rewrite rotate_all by (simpl; lia). reflexivity.
Qed.

Lemma shoelace_loop_rev (l : polygon) :
  shoelace_loop 0 (rev l) = - shoelace_loop 0 l.
Proof.
  induction l as [|a t IH]; [reflexivity|].
  destruct t as [|b t]; [reflexivity|].
  change (rev (a :: b :: t)) with (rev (b :: t) ++ [a]).
  rewrite (shoelace_loop_snoc _ a a).
  - rewrite IH, shoelace_loop_cons.
    change (rev (b :: t)) with (rev t ++ [b]).
    rewrite last_snoc, (shoelace_term_swap a b). lia.
  - simpl. intros E. apply app_eq_nil in E. destruct E; discriminate.
Qed.

Lemma last_rev (a d : point) (t : polygon) : last (rev (a :: t)) d = a.
Proof. simpl. apply last_last. Qed.

Lemma hd_rev (a : point) (t : polygon) :
  exists r, rev (a :: t) = last (a :: t) a :: r.
Proof.
  destruct (rev (a :: t)) as [|c r] eqn:E.
  - apply (f_equal (@length point)) in E. rewrite length_rev in E. discriminate.
  - exists r. f_equal.
    assert (H : a :: t = rev (c :: r)) by (rewrite <- E, rev_involutive; reflexivity).
    rewrite H. simpl. rewrite last_last. reflexivity.
Qed.

Lemma cyclic_sum_rev (l : polygon) : cyclic_sum (rev l) = - cyclic_sum l.
Proof.
  destruct l as [|a t]; [reflexivity|].
  destruct (hd_rev a t) as [r Hr].
  rewrite Hr, cyclic_sum_cons, <- Hr.
  rewrite shoelace_loop_rev, last_rev, cyclic_sum_cons.
  rewrite (shoelace_term_swap (last (a :: t) a) a). lia.
Qed.

Lemma cyclic_sum_short (l : polygon) :
  (length l < 3)%nat -> cyclic_sum l = 0.
Proof.
  destruct l as [|a [|b [|c t]]]; simpl; intros H; try lia;
    unfold shoelace_term; lia.
Qed.

(** The code's closing-edge test changes nothing: the term it skips is 0. *)
Lemma polygon_signed_area_cyclic (l : polygon) :
  polygon_signed_area l == inject_Z (cyclic_sum l) / 2.
Proof.
  unfold polygon_signed_area.
  destruct (length l <? 3)%nat eqn:Hlen.
  - apply Nat.ltb_lt in Hlen. rewrite cyclic_sum_short by exact Hlen. reflexivity.
  - destruct l as [|first t]; [reflexivity|].
    unfold cyclic_sum.
    destruct (negb (px first =? px (last (first :: t) first))
              || negb (py first =? py (last (first :: t) first))) eqn:Hc.
    + reflexivity.
    + apply orb_false_elim in Hc. destruct Hc as [Hx Hy].
      apply negb_false_iff, Z.eqb_eq in Hx.
      apply negb_false_iff, Z.eqb_eq in Hy.
      rewrite (shoelace_term_same (last (first :: t) first) first)
        by (symmetry; assumption).
      rewrite Z.add_0_r. reflexivity.
Qed.

Lemma polygon_area_abs (l : polygon) :
  polygon_area l == Qabs (polygon_signed_area l).
Proof.
  unfold polygon_area.
  destruct (Qlt_le_dec (polygon_signed_area l) 0) as [Hneg|Hpos].
  - rewrite Qabs_neg by (apply Qlt_le_weak; exact Hneg). ring.
  - rewrite Qabs_pos by exact Hpos. reflexivity.
Qed.

Lemma polygon_area_cyclic (l : polygon) :
  polygon_area l == Qabs (inject_Z (cyclic_sum l) / 2).
Proof.
  rewrite polygon_area_abs, polygon_signed_area_cyclic. reflexivity.
Qed.

Lemma polygon_area_rotate (k : nat) (l : polygon) :
  polygon_area (rotate k l) == polygon_area l.
Proof. rewrite !polygon_area_cyclic, cyclic_sum_rotate. reflexivity. Qed.

Lemma polygon_area_rev (l : polygon) : polygon_area (rev l) == polygon_area l.
Proof.
  rewrite !polygon_area_cyclic, cyclic_sum_rev, inject_Z_opp.
  setoid_replace (- inject_Z (cyclic_sum l) / 2)%Q
    with (- (inject_Z (cyclic_sum l) / 2))%Q by field.
  apply Qabs_opp.
Qed.

(** C9: the unsigned area does not depend on the vertex the traversal starts
    from, nor on the direction of the traversal. *)
Theorem polygon_area_rotate_rev (pt_list : polygon) (k : nat) :
  polygon_area (rotate k pt_list) == polygon_area pt_list /\
  polygon_area (rev pt_list) == polygon_area pt_list.
Proof.
  split; [apply polygon_area_rotate | apply polygon_area_rev].
Qed.

End PolygonArea.

Section Circularity.

Lemma edge_length_of_square (p q : point) (s : Z) :
  0 <= s ->
  (px q - px p) * (px q - px p) + (py q - py p) * (py q - py p) = s * s ->
  edge_length p q = IZR s.
Proof.
  intros Hs Hsq. unfold edge_length. cbv zeta.
  rewrite Hsq, mult_IZR. apply sqrt_square. apply IZR_le. exact Hs.
Qed.

Lemma Q2R_inject_Z (z : Z) : Q2R (inject_Z z) = IZR z.
Proof. unfold Q2R. simpl. field. Qed.

Lemma four_edges_perimeter (a b c d : point) (s : Z) :
  0 <= s ->
  edge_length a b = IZR s -> edge_length b c = IZR s ->
  edge_length c d = IZR s -> edge_length d a = IZR s ->
  polygon_perimeter [a; b; c; d] = Ok (4 * IZR s)%R.
Proof.
  intros Hs Hab Hbc Hcd Hda. unfold polygon_perimeter. f_equal.
  cbn [perimeter_loop last]. rewrite Hab, Hbc, Hcd, Hda. ring.
Qed.

Ltac square_edges s :=
  apply (four_edges_perimeter _ _ _ _ s); [assumption| | | |];
  apply edge_length_of_square;
  try assumption; unfold px, py; cbn [fst snd]; ring.

Lemma square_perimeter (x y s : Z) (k : nat) :
  0 <= s -> polygon_perimeter (rotate k (square x y s)) = Ok (4 * IZR s)%R.
Proof.
  intros Hs. destruct k as [|[|[|[|k]]]];
    [| | | |rewrite rotate_all by (simpl; lia)];
    unfold rotate, square; cbn [skipn firstn app]; square_edges s.
Qed.

Lemma rev_square_perimeter (x y s : Z) (k : nat) :
  0 <= s ->
  polygon_perimeter (rotate k (rev (square x y s))) = Ok (4 * IZR s)%R.
Proof.
  intros Hs. destruct k as [|[|[|[|k]]]];
    [| | | |rewrite rotate_all by (simpl; lia)];
    unfold rotate, square; cbn [rev skipn firstn app]; square_edges s.
Qed.

Lemma square_cyclic_sum (x y s : Z) : cyclic_sum (square x y s) = - (2 * (s * s)).
Proof.
  unfold cyclic_sum, square. cbn [shoelace_loop last].
  unfold shoelace_term, px, py. cbn [fst snd]. ring.
Qed.

Lemma square_area (x y s : Z) : polygon_area (square x y s) == inject_Z (s * s).
Proof.
  rewrite polygon_area_cyclic, square_cyclic_sum.
  rewrite inject_Z_opp, inject_Z_mult.
  setoid_replace (- (inject_Z 2 * inject_Z (s * s)) / 2)%Q
    with (- inject_Z (s * s))%Q by (change (inject_Z 2) with 2%Q; field).
  rewrite Qabs_opp. apply Qabs_pos.
  rewrite <- (Zle_Qle 0). nia.
Qed.

Lemma circularity_of_square_like (pg : polygon) (s : Z) :
  0 < s ->
  polygon_perimeter pg = Ok (4 * IZR s)%R ->
  polygon_area pg == inject_Z (s * s) ->
  circularity pg = Ok (PI / 4)%R.
Proof.
  intros Hs HL HA. unfold circularity. rewrite HL. simpl.
  assert (Hpos : (0 < IZR s)%R) by (apply IZR_lt; exact Hs).
  destruct (Rle_dec (4 * IZR s) 0) as [Hle|_]; [lra|].
  f_equal. rewrite (Qeq_eqR _ _ HA), Q2R_inject_Z, mult_IZR.
  field. lra.
Qed.

(** C7: the circularity is 0 for a perimeter that is not positive and
    [4*pi*Area/Perimeter^2] otherwise; on an axis-aligned square of side
    [s > 0], from whichever corner and in whichever direction its boundary
    is traversed, it is [pi/4] whatever [s]. *)
Theorem circularity_formula_square (pg : polygon) (x y s : Z) (k : nat) :
  pg <> [] ->
  0 < s ->
  (exists L : R,
     polygon_perimeter pg = Ok L /\
     ((L <= 0)%R -> circularity pg = Ok 0%R) /\
     ((0 < L)%R ->
      circularity pg = Ok (4 * PI * Q2R (polygon_area pg) / (L * L))%R)) /\
  circularity (square x y s) = Ok (PI / 4)%R /\
  circularity (rotate k (square x y s)) = Ok (PI / 4)%R /\
  circularity (rotate k (rev (square x y s))) = Ok (PI / 4)%R.
Proof.
  intros Hne Hs. split; [|split; [|split]].
  - destruct pg as [|first rest]; [congruence|].
    eexists. split; [reflexivity|].
    unfold circularity, polygon_perimeter. cbn [bind].
    split; intros HL.
    + destruct (Rle_dec _ 0) as [_|Hn]; [reflexivity|].
      exfalso. apply Hn. exact HL.
    + destruct (Rle_dec _ 0) as [Hle|_]; [lra|reflexivity].
  - apply (circularity_of_square_like _ s Hs).
    + apply (square_perimeter x y s 0). lia.
    + apply square_area.
  - apply (circularity_of_square_like _ s Hs).
    + apply square_perimeter. lia.
    + rewrite polygon_area_rotate. apply square_area.
  - apply (circularity_of_square_like _ s Hs).
    + apply rev_square_perimeter. lia.
    + rewrite polygon_area_rotate, polygon_area_rev. apply square_area.
Qed.

End Circularity.

(** The square of the repository's test [circularity_001]. *)
Lemma circularity_formula_square_witness :
  square 0 0 100 <> [] /\ 0 < 100 /\
  circularity (square 0 0 100) = Ok (PI / 4)%R.
Proof.
  assert (Hne : square 0 0 100 <> []) by discriminate.
  assert (Hs : 0 < 100) by lia.
  split; [exact Hne|]. split; [exact Hs|].
  exact (proj1 (proj2
           (circularity_formula_square (square 0 0 100) 0 0 100 0 Hne Hs))).
Defined.

(** ** Properties of area_volume_map.py *)

Section Calibration.

Import AreaVolumeMap.

Lemma linear_fold (points : list (Q * Q)) :
  forall acc,
    fst (fold_left linear_step points acc) == fst acc + sum_AA points /\
    snd (fold_left linear_step points acc) == snd acc + sum_AV points.
Proof.
  induction points as [|p t IH]; intros acc; simpl.
  - split; ring.
  - destruct (IH (linear_step acc p)) as [Hx Hy].
    rewrite Hx, Hy. unfold linear_step. simpl. split; ring.
Qed.

Lemma compute_model_not_false (points : list (Q * Q)) (m : model) :
  points <> [] -> fst (compute_model points m) <> Ok false.
Proof.
  intros Hne. destruct points as [|p t]; [congruence|].
  unfold compute_model.
  replace (length (p :: t) <=? 0)%nat with false by reflexivity.
  destruct (if (length (p :: t) <=? 3)%nat
            then _compute_linear_model (p :: t) (Model 0 0)
            else _compute_second_order_model (p :: t) (Model 0 0))
    as [[u|e] m']; simpl; discriminate.
Qed.

Lemma compute_model_linear (points : list (Q * Q)) (m : model) :
  points <> [] ->
  (length points <= 3)%nat ->
  ~ sum_AA points == 0 ->
  fst (compute_model points m) = Ok true /\
  c2 (snd (compute_model points m)) == 0 /\
  c1 (snd (compute_model points m)) == sum_AV points / sum_AA points.
Proof.
  intros Hne Hlen Hxx. destruct points as [|p t]; [congruence|].
  unfold compute_model.
  replace (length (p :: t) <=? 0)%nat with false by reflexivity.
  apply Nat.leb_le in Hlen. rewrite Hlen.
  unfold _compute_linear_model.
  destruct (linear_fold (p :: t) (0%Q, 0%Q)) as [Hx Hy].
  destruct (fold_left linear_step (p :: t) (0%Q, 0%Q)) as [sum_xx sum_xy].
  simpl fst in Hx. simpl snd in Hy. rewrite Qplus_0_l in Hx, Hy.
  unfold fdiv.
  destruct (Qeq_bool sum_xx 0) eqn:Hz.
  - apply Qeq_bool_eq in Hz. exfalso. apply Hxx. rewrite <- Hx. exact Hz.
  - simpl. split; [reflexivity|]. split; [reflexivity|].
    rewrite Hx, Hy. reflexivity.
Qed.

(** C6, as amended: [compute_model] returns [False] exactly on the empty
    list, and then holds [c1 = c2 = 0]; on one to three points whose areas
    are not all zero it returns [True] with [c2 = 0] and
    [c1 = sum(A*V) / sum(A^2)]; on [[(1, 2)]] it gives [c1 = 2], [c2 = 0]. *)
Theorem compute_model_linear_fit (points : list (Q * Q)) (m : model) :
  (fst (compute_model points m) = Ok false <-> points = []) /\
  (points = [] ->
   c1 (snd (compute_model points m)) = 0%Q /\
   c2 (snd (compute_model points m)) = 0%Q) /\
  (points <> [] ->
   (length points <= 3)%nat ->
   ~ sum_AA points == 0 ->
   fst (compute_model points m) = Ok true /\
   c2 (snd (compute_model points m)) == 0 /\
   c1 (snd (compute_model points m)) == sum_AV points / sum_AA points) /\
  (fst (compute_model [(1, 2)%Q] m) = Ok true /\
   c1 (snd (compute_model [(1, 2)%Q] m)) == 2 /\
   c2 (snd (compute_model [(1, 2)%Q] m)) == 0).
Proof.
  split; [|split; [|split]].
  - split.
    + intros Hf. destruct points as [|p t]; [reflexivity|].
      exfalso. apply (compute_model_not_false (p :: t) m); [discriminate|exact Hf].
    + intros ->. reflexivity.
  - intros ->. split; reflexivity.
  - apply compute_model_linear.
  - split; [reflexivity|]. split; reflexivity.
Qed.

Lemma compute_model_linear_fit_witness :
  fst (compute_model [(2, 3); (4, 5)]%Q (Model 7 7)) = Ok true /\
  c2 (snd (compute_model [(2, 3); (4, 5)]%Q (Model 7 7))) == 0 /\
  c1 (snd (compute_model [(2, 3); (4, 5)]%Q (Model 7 7)))
  == sum_AV [(2, 3); (4, 5)]%Q / sum_AA [(2, 3); (4, 5)]%Q.
Proof.
  apply (proj1 (proj2 (proj2
           (compute_model_linear_fit [(2, 3); (4, 5)]%Q (Model 7 7))))).
  - discriminate.
  - simpl. lia.
  - vm_compute. discriminate.
Defined.

(** C6 as stated fails on a single point of area 0: the division by
    [sum_xx = 0] raises instead of returning success. *)
Lemma compute_model_zero_area_raises :
  [(0, 1)%Q] <> [] /\
  (length [(0, 1)%Q] <= 3)%nat /\
  fst (compute_model [(0, 1)%Q] (Model 0 0)) = Raise ZeroDivisionError /\
  fst (compute_model [(0, 1)%Q] (Model 0 0)) <> Ok true.
Proof.
  split; [discriminate|]. split; [simpl; lia|].
  split; [reflexivity|]. vm_compute. discriminate.
Qed.

Lemma second_order_singular (points : list (Q * Q)) (m : model) :
  determinant points == 0 ->
  _compute_second_order_model points m = (Raise ZeroDivisionError, m).
Proof.
  intros Hdet. unfold _compute_second_order_model, fdiv.
  unfold determinant in Hdet. cbv zeta in Hdet.
  apply Qeq_bool_iff in Hdet. rewrite Hdet. reflexivity.
Qed.

(** With exact operations the rounded model is module [AreaVolumeMap]. *)
Lemma exact_arith_compute_model (points : list (Q * Q)) (m : model) :
  @AreaVolumeMapFloat.compute_model exact_arith points m
  = compute_model points m.
Proof. reflexivity. Qed.

Lemma exact_arith_determinant (points : list (Q * Q)) :
  @AreaVolumeMapFloat.determinant exact_arith points = determinant points.
Proof. reflexivity. Qed.

(** C4, as amended: on four or more points the quadratic fit tests nothing
    and raises no fit failure of its own, whatever the arithmetic rounds
    to.  It divides by [a1*b2 - a2*b1] as computed: when that value is zero
    the division raises Python's [ZeroDivisionError] and the coefficients
    stay at the [0] they were reset to; when it is not zero, be it the
    rounding residue of a singular system, [compute_model] returns [True]. *)
Theorem singular_fit_unguarded (fa : AreaVolumeMapFloat.FloatArith)
  (points : list (Q * Q)) (m : model) :
  (4 <= length points)%nat ->
  (AreaVolumeMapFloat.determinant points == 0 ->
   AreaVolumeMapFloat.compute_model points m
   = (Raise ZeroDivisionError, Model 0 0)) /\
  (~ AreaVolumeMapFloat.determinant points == 0 ->
   fst (AreaVolumeMapFloat.compute_model points m) = Ok true) /\
  ~ fit_failure (fst (AreaVolumeMapFloat.compute_model points m)).
Proof.
  intros Hlen. unfold AreaVolumeMapFloat.compute_model.
  replace (length points <=? 0)%nat with false
    by (symmetry; apply Nat.leb_gt; lia).
  replace (length points <=? 3)%nat with false
    by (symmetry; apply Nat.leb_gt; lia).
  unfold AreaVolumeMapFloat._compute_second_order_model,
         AreaVolumeMapFloat.fdiv, AreaVolumeMapFloat.determinant.
  cbv zeta.
  set (s := AreaVolumeMapFloat.second_order_sums points).
  set (det := AreaVolumeMapFloat.fsub
                (AreaVolumeMapFloat.fmul (a1 s) (b2 s))
                (AreaVolumeMapFloat.fmul (a2 s) (b1 s))).
  destruct (Qeq_bool det 0) eqn:Hdet.
  - split; [intros _; reflexivity|]. split.
    + intros Hne. apply Qeq_bool_iff in Hdet. contradiction.
    + cbn [fst]. intros [e [He Hne]]. congruence.
  - split; [|split].
    + intros Hz. apply Qeq_bool_iff in Hz. congruence.
    + intros _. reflexivity.
    + cbn [fst]. intros [e [He _]]. discriminate.
Qed.

(** In binary64 the four points of area 0.3, whose system is singular, leave
    a determinant of [-2^-59] and the fit returns [True]; the four points of
    area 1 leave 0 and the fit raises. *)
Lemma singular_fit_unguarded_witness :
  (determinant equal_area_points_03 == 0 /\
   fst (@AreaVolumeMapFloat.compute_model binary64 equal_area_points_03
          (Model 1 1)) = Ok true) /\
  (determinant equal_area_points == 0 /\
   @AreaVolumeMapFloat.compute_model binary64 equal_area_points (Model 1 1)
   = (Raise ZeroDivisionError, Model 0 0)).
Proof.
  assert (Hlen3 : (4 <= length equal_area_points_03)%nat) by (simpl; lia).
  assert (Hlen1 : (4 <= length equal_area_points)%nat) by (simpl; lia).
  split; split.
  - vm_compute. reflexivity.
  - apply (proj1 (proj2 (singular_fit_unguarded binary64
                           equal_area_points_03 (Model 1 1) Hlen3))).
    intros H. vm_compute in H. discriminate H.
  - reflexivity.
  - apply (proj1 (singular_fit_unguarded binary64 equal_area_points
                    (Model 1 1) Hlen1)).
    vm_compute. reflexivity.
Defined.

(** C4 as stated fails on four points of equal area: the determinant is 0
    and what is raised is the division's own error, no fit failure. *)
Lemma singular_fit_not_detected :
  (4 <= length equal_area_points)%nat /\
  determinant equal_area_points == 0 /\
  fst (compute_model equal_area_points (Model 0 0)) = Raise ZeroDivisionError /\
  ~ fit_failure (fst (compute_model equal_area_points (Model 0 0))).
Proof.
  split; [simpl; lia|]. split; [reflexivity|]. split; [reflexivity|].
  intros [e [He Hne]]. apply Hne.
  change (fst (compute_model equal_area_points (Model 0 0)))
    with (@Raise bool ZeroDivisionError) in He.
  congruence.
Qed.

End Calibration.

(** ** Arrays *)

Lemma nth_error_imap_from {A B : Type} (f : nat -> A -> B) (l : list A) :
  forall i n,
    nth_error (imap_from i f l) n = option_map (f (i + n)%nat) (nth_error l n).
Proof.
  induction l as [|a t IH]; intros i n.
  - destruct n; reflexivity.
  - destruct n as [|n]; simpl.
    + rewrite Nat.add_0_r. reflexivity.
    + rewrite IH. replace (S i + n)%nat with (i + S n)%nat by lia. reflexivity.
Qed.

Lemma nth_error_imap {A B : Type} (f : nat -> A -> B) (l : list A) (n : nat) :
  nth_error (imap f l) n = option_map (f n) (nth_error l n).
Proof. unfold imap. rewrite nth_error_imap_from. reflexivity. Qed.

Lemma length_imap_from {A B : Type} (f : nat -> A -> B) (l : list A) :
  forall i, length (imap_from i f l) = length l.
Proof. induction l as [|a t IH]; intros i; simpl; [|rewrite IH]; reflexivity. Qed.

Lemma length_imap {A B : Type} (f : nat -> A -> B) (l : list A) :
  length (imap f l) = length l.
Proof. apply length_imap_from. Qed.

Lemma get_imap2 {A B : Type} (f : nat -> nat -> A -> B) (a : array A) (y x : nat) :
  get (imap2 f a) y x = option_map (f y x) (get a y x).
Proof.
  unfold get, imap2. rewrite nth_error_imap.
  destruct (nth_error a y) as [row|]; simpl; [|reflexivity].
  apply nth_error_imap.
Qed.

Lemma has_shape_imap2 {A B : Type} (f : nat -> nat -> A -> B) (a : array A) (h w : nat) :
  has_shape a h w -> has_shape (imap2 f a) h w.
Proof.
  intros [Hh Hw]. split.
  - unfold imap2. rewrite length_imap. exact Hh.
  - apply Forall_forall. intros row Hin.
    apply (In_nth_error _ _) in Hin. destruct Hin as [n Hn].
    unfold imap2 in Hn. rewrite nth_error_imap in Hn.
    destruct (nth_error a n) as [r|] eqn:Hr; [|discriminate].
    simpl in Hn. injection Hn as <-. rewrite length_imap.
    rewrite Forall_forall in Hw. apply Hw. eapply nth_error_In. exact Hr.
Qed.

Lemma get_tabulate {A : Type} (h w : nat) (f : nat -> nat -> A) (y x : nat) :
  get (tabulate h w f) y x =
  if (y <? h)%nat && (x <? w)%nat then Some (f y x) else None.
Proof.
  unfold get, tabulate.
  destruct (y <? h)%nat eqn:Hy.
  - apply Nat.ltb_lt in Hy.
    rewrite nth_error_map, nth_error_seq.
    replace (y <? h)%nat with true by (symmetry; apply Nat.ltb_lt; exact Hy).
    simpl. rewrite nth_error_map, nth_error_seq.
    destruct (x <? w)%nat; reflexivity.
  - apply Nat.ltb_ge in Hy. simpl.
    rewrite nth_error_map, nth_error_seq.
    replace (y <? h)%nat with false by (symmetry; apply Nat.ltb_ge; exact Hy).
    reflexivity.
Qed.

Lemma has_shape_tabulate {A : Type} (h w : nat) (f : nat -> nat -> A) :
  has_shape (tabulate h w f) h w.
Proof.
  split.
  - unfold tabulate. rewrite length_map, length_seq. reflexivity.
  - apply Forall_forall. intros row Hin. unfold tabulate in Hin.
    apply in_map_iff in Hin. destruct Hin as [y [<- _]].
    rewrite length_map, length_seq. reflexivity.
Qed.

Lemma nth_error_slice {A : Type} (l : list A) (i j n : nat) :
  nth_error (slice l i j) n =
  if (n <? j - i)%nat then nth_error l (i + n) else None.
Proof.
  unfold slice. destruct (n <? j - i)%nat eqn:Hn.
  - apply Nat.ltb_lt in Hn.
    rewrite nth_error_firstn.
    replace (n <? j - i)%nat with true by (symmetry; apply Nat.ltb_lt; exact Hn).
    apply nth_error_skipn.
  - apply Nat.ltb_ge in Hn. rewrite nth_error_firstn.
    replace (n <? j - i)%nat with false by (symmetry; apply Nat.ltb_ge; exact Hn).
    reflexivity.
Qed.

Lemma get_slice2 {A : Type} (a : array A) (y1 y2 x1 x2 r c : nat) :
  get (slice2 a y1 y2 x1 x2) r c =
  if (r <? y2 - y1)%nat && (c <? x2 - x1)%nat
  then get a (y1 + r) (x1 + c) else None.
Proof.
  unfold get, slice2. rewrite nth_error_map, nth_error_slice.
  destruct (r <? y2 - y1)%nat; simpl; [|reflexivity].
  destruct (nth_error a (y1 + r)) as [row|]; simpl.
  - rewrite nth_error_slice. reflexivity.
  - destruct (c <? x2 - x1)%nat; reflexivity.
Qed.

Lemma length_slice {A : Type} (l : list A) (i j : nat) :
  length (slice l i j) = Nat.min (j - i) (length l - i).
Proof. unfold slice. rewrite length_firstn, length_skipn. reflexivity. Qed.

Lemma has_shape_slice2 {A : Type} (a : array A) (h w y1 y2 x1 x2 : nat) :
  has_shape a h w ->
  (y2 <= h)%nat -> (x2 <= w)%nat ->
  has_shape (slice2 a y1 y2 x1 x2) (y2 - y1) (x2 - x1).
Proof.
  intros [Hh Hw] Hy Hx. split.
  - unfold slice2. rewrite length_map, length_slice. lia.
  - apply Forall_forall. intros row Hin. unfold slice2 in Hin.
    apply in_map_iff in Hin. destruct Hin as [r [<- Hr]].
    rewrite length_slice.
    assert (Hlen : length r = w).
    { rewrite Forall_forall in Hw. apply Hw.
      apply In_nth_error in Hr. destruct Hr as [n Hn].
      rewrite nth_error_slice in Hn.
      destruct (n <? y2 - y1)%nat; [|discriminate].
      eapply nth_error_In. exact Hn. }
    lia.
Qed.

Lemma has_shape_get {A : Type} (a : array A) (h w y x : nat) :
  has_shape a h w -> (y < h)%nat -> (x < w)%nat ->
  exists v, get a y x = Some v.
Proof.
  intros [Hh Hw] Hy Hx. unfold get.
  destruct (nth_error a y) as [row|] eqn:Hr.
  - assert (Hlen : length row = w).
    { rewrite Forall_forall in Hw. apply Hw. eapply nth_error_In. exact Hr. }
    destruct (nth_error row x) as [v|] eqn:Hv; [exists v; reflexivity|].
    apply nth_error_None in Hv. lia.
  - apply nth_error_None in Hr. lia.
Qed.

Lemma has_shape_map_length {A : Type} (a : array A) (h w : nat) :
  has_shape a h w -> map (@length A) a = repeat w h.
Proof.
  intros [Hh Hw]. subst h. induction a as [|row t IH]; [reflexivity|].
  inversion Hw as [|r l Hr Ht]; subst. simpl. rewrite IH by exact Ht.
  reflexivity.
Qed.

(** ** Sorting the pixels of a region *)

Section SortedPixels.

Lemma insert_sorted_perm (v : Z) (l : list Z) :
  Permutation (insert_sorted v l) (v :: l).
Proof.
  induction l as [|a t IH]; simpl.
  - apply Permutation_refl.
  - destruct (v <=? a).
    + apply Permutation_refl.
    + eapply perm_trans; [apply perm_skip, IH | apply perm_swap].
Qed.

Lemma insert_sorted_sorted (v : Z) (l : list Z) :
  StronglySorted Z.le l -> StronglySorted Z.le (insert_sorted v l).
Proof.
  induction 1 as [|a t Ht IH Ha]; simpl.
  - constructor; constructor.
  - destruct (v <=? a) eqn:Hva.
    + apply Z.leb_le in Hva. constructor.
      * constructor; assumption.
      * constructor; [exact Hva|].
        eapply Forall_impl; [|exact Ha]. intros z Hz. simpl in Hz. lia.
    + apply Z.leb_gt in Hva. constructor; [exact IH|].
      eapply Permutation_Forall.
      * apply Permutation_sym, insert_sorted_perm.
      * constructor; [lia|exact Ha].
Qed.

Lemma np_sort_perm (l : list Z) : Permutation (np_sort l) l.
Proof.
  induction l as [|a t IH]; simpl.
  - apply Permutation_refl.
  - eapply perm_trans; [apply insert_sorted_perm|]. apply perm_skip, IH.
Qed.

Lemma np_sort_sorted (l : list Z) : StronglySorted Z.le (np_sort l).
Proof.
  induction l as [|a t IH]; simpl.
  - constructor.
  - apply insert_sorted_sorted, IH.
Qed.

Lemma fold_min_spec (t : list Z) :
  forall a,
    In (fold_left Z.min t a) (a :: t) /\
    Forall (fun z => fold_left Z.min t a <= z) (a :: t).
Proof.
  induction t as [|b t IH]; intros a; simpl.
  - split; [left; reflexivity|]. constructor; [lia|constructor].
  - destruct (IH (Z.min a b)) as [Hin Hall]. split.
    + destruct Hin as [Hm|Hin]; [|right; right; exact Hin].
      rewrite <- Hm. destruct (Z.min_spec a b) as [[_ ->]|[_ ->]]; auto.
    + inversion Hall as [|m l Hm Ht]; subst.
      constructor; [lia|]. constructor; [lia|exact Ht].
Qed.

Lemma fold_max_spec (t : list Z) :
  forall a,
    In (fold_left Z.max t a) (a :: t) /\
    Forall (fun z => z <= fold_left Z.max t a) (a :: t).
Proof.
  induction t as [|b t IH]; intros a; simpl.
  - split; [left; reflexivity|]. constructor; [lia|constructor].
  - destruct (IH (Z.max a b)) as [Hin Hall]. split.
    + destruct Hin as [Hm|Hin]; [|right; right; exact Hin].
      rewrite <- Hm. destruct (Z.max_spec a b) as [[_ ->]|[_ ->]]; auto.
    + inversion Hall as [|m l Hm Ht]; subst.
      constructor; [lia|]. constructor; [lia|exact Ht].
Qed.

Lemma last_in (l : list Z) (a d : Z) : In (last (a :: l) d) (a :: l).
Proof.
  revert a. induction l as [|b t IH]; intros a.
  - left. reflexivity.
  - right. apply (IH b).
Qed.

Lemma sorted_last_max (l : list Z) (d : Z) :
  StronglySorted Z.le l -> Forall (fun z => z <= last l d) l.
Proof.
  induction 1 as [|a t Ht IH Ha]; [constructor|].
  destruct t as [|b t].
  - constructor; [simpl; lia|constructor].
  - change (last (a :: b :: t) d) with (last (b :: t) d).
    constructor; [|exact IH].
    rewrite Forall_forall in Ha. apply Ha. apply last_in.
Qed.

(** The first and the last element of the sorted pixel list are the minimum
    and the maximum of the region. *)
Lemma np_sort_min_max (a : Z) (t : list Z) :
  exists m r,
    np_sort (a :: t) = m :: r /\
    m = fold_left Z.min t a /\
    last (m :: r) m = fold_left Z.max t a.
Proof.
  pose proof (np_sort_perm (a :: t)) as Hp.
  pose proof (np_sort_sorted (a :: t)) as Hs.
  destruct (np_sort (a :: t)) as [|m r] eqn:E.
  - apply Permutation_length in Hp. discriminate.
  - exists m, r. split; [reflexivity|].
    destruct (fold_min_spec t a) as [Hmin_in Hmin_le].
    destruct (fold_max_spec t a) as [Hmax_in Hmax_le].
    rewrite Forall_forall in Hmin_le, Hmax_le.
    split.
    + assert (H1 : fold_left Z.min t a <= m).
      { apply Hmin_le. eapply Permutation_in; [exact Hp|]. left. reflexivity. }
      assert (H2 : m <= fold_left Z.min t a).
      { apply (Permutation_in _ (Permutation_sym Hp)) in Hmin_in.
        destruct Hmin_in as [->|Hin]; [lia|].
        inversion Hs as [|x l Hl Hx]; subst.
        rewrite Forall_forall in Hx. apply Hx. exact Hin. }
      lia.
    + assert (H1 : last (m :: r) m <= fold_left Z.max t a).
      { apply Hmax_le. eapply Permutation_in; [exact Hp|]. apply last_in. }
      assert (H2 : fold_left Z.max t a <= last (m :: r) m).
      { pose proof (sorted_last_max (m :: r) m Hs) as Hl.
        rewrite Forall_forall in Hl. apply Hl.
        apply (Permutation_in _ (Permutation_sym Hp)). exact Hmax_in. }
      lia.
Qed.

End SortedPixels.

(** ** Per-region thresholding *)

Section FindSpots.

Context `{cv : Cv2}.

(** The two outcomes of [_find_spots_in_rect] on a region with pixels: a
    rejection, or the thresholded region together with its contours. *)
Lemma find_spots_cases (s : VsaProcessor) (roi : rect)
  (adj min_range min_dist : Z) (ext : array Z) :
  img_extended s = Some ext ->
  region ext roi <> [] ->
  let thresh := roi_threshold (region_img ext roi) adj in
  let mask := threshold_binary (region_img ext roi) thresh in
  _find_spots_in_rect s roi adj min_range min_dist
  = Ok (([], None), set_roi s roi None []) \/
  (_find_spots_in_rect s roi adj min_range min_dist
   = Ok ((map (fun contour =>
                 contour_to_polygon (translate (rx roi) (ry roi) contour))
              (findContours mask), Some mask),
         set_roi s roi (Some mask) []) /\
   Qltb (inject_Z thresh) (img_median s) = false /\
   (intensity_range (region ext roi) <? min_range) = false).
Proof.
  intros Hext Hne thresh mask.
  unfold _find_spots_in_rect. cbv zeta.
  change (img_extended (set_roi s roi None [])) with (img_extended s).
  change (img_median (set_roi s roi None [])) with (img_median s).
  rewrite Hext.
  change (flatten (slice2 ext (ry roi) (ry roi + rh roi) (rx roi)
                          (rx roi + rw roi)))
    with (region ext roi).
  change (slice2 ext (ry roi) (ry roi + rh roi) (rx roi) (rx roi + rw roi))
    with (region_img ext roi).
  fold thresh. fold mask.
  destruct (region ext roi) as [|a t] eqn:Hreg; [congruence|].
  destruct (np_sort_min_max a t) as [m [r [Hsort [Hmin Hmax]]]].
  rewrite Hsort, Hmax, Hmin.
  change (fold_left Z.max t a - fold_left Z.min t a)
    with (intensity_range (a :: t)).
  destruct (negb (np_any mask)); [left; reflexivity|].
  destruct (Qltb (inject_Z thresh) (img_median s)); [left; reflexivity|].
  destruct (intensity_range (a :: t) <? min_range); [left; reflexivity|].
  destruct (Qltb (inject_Z thresh - img_median s) (inject_Z min_dist));
    [left; reflexivity|].
  right. split; [reflexivity|]. split; reflexivity.
Qed.

(** C8: a region whose intensity range is strictly below [min_range] is
    rejected, whatever the Otsu threshold and the threshold adjustment: no
    polygon and no mask are returned, and none is left in the processor. *)
Theorem narrow_range_rejected (s : VsaProcessor) (roi : rect)
  (adj min_range min_dist : Z) (ext : array Z) :
  img_extended s = Some ext ->
  region ext roi <> [] ->
  intensity_range (region ext roi) < min_range ->
  _find_spots_in_rect s roi adj min_range min_dist
  = Ok (([], None), set_roi s roi None []).
Proof.
  intros Hext Hne Hrange.
  destruct (find_spots_cases s roi adj min_range min_dist ext Hext Hne)
    as [Hrej|[_ [_ Hacc]]]; [exact Hrej|].
  apply Z.ltb_ge in Hacc. lia.
Qed.

End FindSpots.

(** ** The grid of tiles *)

Section Tiles.

Lemma ceil_div_lt (a win i : nat) :
  (0 < win)%nat -> (i < ceil_div a win)%nat <-> (i * win < a)%nat.
Proof.
  intros Hwin. unfold ceil_div.
  pose proof (Nat.div_mod_eq a win) as Hdm.
  pose proof (Nat.mod_upper_bound a win ltac:(lia)) as Hmod.
  destruct (a mod win =? 0)%nat eqn:Hz.
  - apply Nat.eqb_eq in Hz. split; intros Hi; nia.
  - apply Nat.eqb_neq in Hz. split; intros Hi; nia.
Qed.

Lemma in_make_tiles (h w win : nat) (t : nat * nat * nat * nat) :
  (0 < win)%nat ->
  In t (make_tiles h w win) <->
  exists y_idx x_idx,
    (x_idx * win < w)%nat /\ (y_idx * win < h)%nat /\
    t = ((x_idx * win)%nat, (y_idx * win)%nat,
         Nat.min (x_idx * win + win) w, Nat.min (y_idx * win + win) h).
Proof.
  intros Hwin. unfold make_tiles. cbv zeta. rewrite in_flat_map. split.
  - intros [y_idx [Hy Ht]]. apply in_map_iff in Ht.
    destruct Ht as [x_idx [Ht Hx]].
    apply in_seq in Hy. apply in_seq in Hx.
    exists y_idx, x_idx. split; [|split].
    + apply ceil_div_lt; [exact Hwin|lia].
    + apply ceil_div_lt; [exact Hwin|lia].
    + symmetry. exact Ht.
  - intros [y_idx [x_idx [Hx [Hy Ht]]]].
    exists y_idx. split.
    + apply in_seq. apply (ceil_div_lt h win y_idx Hwin) in Hy. lia.
    + apply in_map_iff. exists x_idx. split; [symmetry; exact Ht|].
      apply in_seq. apply (ceil_div_lt w win x_idx Hwin) in Hx. lia.
Qed.

Lemma window_index (win i a : nat) :
  (0 < win)%nat -> (i * win <= a < i * win + win)%nat -> i = (a / win)%nat.
Proof.
  intros Hwin Ha. apply (Nat.div_unique a win i (a - i * win)); lia.
Qed.

Lemma window_holds (win a : nat) :
  (0 < win)%nat -> (a / win * win <= a < a / win * win + win)%nat.
Proof.
  intros Hwin.
  pose proof (Nat.div_mod_eq a win) as Hdm.
  pose proof (Nat.mod_upper_bound a win ltac:(lia)) as Hmod. nia.
Qed.

End Tiles.

(** ** Whole-image segmentation *)

Section Segmentation.

Context `{cv : Cv2} `{nc : NumpyCast}.

Lemma nat_list_eqb_refl (l : list nat) : nat_list_eqb l l = true.
Proof.
  induction l as [|a t IH]; simpl; [reflexivity|].
  rewrite Nat.eqb_refl, IH. reflexivity.
Qed.

Lemma same_shape_has_shape {A B : Type} (a : array A) (b : array B)
  (h w : nat) :
  has_shape a h w -> has_shape b h w -> same_shape a b = true.
Proof.
  intros Ha Hb. unfold same_shape.
  rewrite (has_shape_map_length a h w Ha), (has_shape_map_length b h w Hb).
  apply nat_list_eqb_refl.
Qed.

Lemma get_threshold_binary (a : array Z) (t : Z) (y x : nat) :
  get (threshold_binary a t) y x =
  option_map (fun v => if t <? v then 255 else 0) (get a y x).
Proof.
  unfold get, threshold_binary. rewrite nth_error_map.
  destruct (nth_error a y) as [row|]; simpl; [|reflexivity].
  apply nth_error_map.
Qed.

Lemma has_shape_threshold_binary (a : array Z) (t : Z) (h w : nat) :
  has_shape a h w -> has_shape (threshold_binary a t) h w.
Proof.
  intros [Hh Hw]. split.
  - unfold threshold_binary. rewrite length_map. exact Hh.
  - apply Forall_forall. intros row Hin. unfold threshold_binary in Hin.
    apply in_map_iff in Hin. destruct Hin as [r [<- Hr]].
    rewrite length_map. rewrite Forall_forall in Hw. apply Hw. exact Hr.
Qed.

Lemma flatten_nonempty {A : Type} (a : array A) (h w : nat) :
  has_shape a h w -> (0 < h)%nat -> (0 < w)%nat -> flatten a <> [].
Proof.
  intros [Hh Hw] Hhp Hwp. destruct a as [|row t]; [simpl in Hh; lia|].
  inversion Hw as [|r l Hr Ht]; subst.
  destruct row as [|v row]; [simpl in Hwp; lia|]. discriminate.
Qed.

Lemma region_img_shape (ext : array Z) (h w x1 y1 x2 y2 : nat) :
  has_shape ext h w ->
  tile_in h w (x1, y1, x2, y2) ->
  has_shape (region_img ext (roi_of_tile (x1, y1, x2, y2)))
            (y2 - y1) (x2 - x1).
Proof.
  intros Hext [Hx Hy]. unfold region_img, roi_of_tile. simpl.
  replace (y2 - y1)%nat with (y1 + (y2 - y1) - y1)%nat at 2 by lia.
  replace (x2 - x1)%nat with (x1 + (x2 - x1) - x1)%nat at 2 by lia.
  apply (has_shape_slice2 ext h w); [exact Hext|lia|lia].
Qed.

Lemma region_nonempty (ext : array Z) (h w x1 y1 x2 y2 : nat) :
  has_shape ext h w ->
  tile_in h w (x1, y1, x2, y2) ->
  region ext (roi_of_tile (x1, y1, x2, y2)) <> [].
Proof.
  intros Hext Ht. unfold region.
  apply (flatten_nonempty _ (y2 - y1) (x2 - x1)).
  - apply (region_img_shape ext h w); assumption.
  - destruct Ht as [_ Hy]. lia.
  - destruct Ht as [Hx _]. lia.
Qed.

Lemma assign_rect_spec (m : array fcell) (h w y1 y2 x1 x2 : nat)
  (v : option (array Z)) :
  has_shape m h w ->
  tile_in h w (x1, y1, x2, y2) ->
  (forall src, v = Some src -> has_shape src (y2 - y1) (x2 - x1)) ->
  exists m',
    assign_rect m y1 y2 x1 x2 v = Ok m' /\
    has_shape m' h w /\
    forall y x,
      get m' y x = option_map (assigned v y1 y2 x1 x2 y x) (get m y x).
Proof.
  intros Hm [Hx Hy] Hv. unfold assign_rect. destruct v as [src|].
  - rewrite (same_shape_has_shape src (slice2 m y1 y2 x1 x2)
               (y2 - y1) (x2 - x1)).
    + eexists. split; [reflexivity|]. split.
      * apply has_shape_imap2. exact Hm.
      * intros y x. rewrite get_imap2. unfold assigned.
        destruct (get m y x) as [c|]; simpl; [|reflexivity].
        destruct (in_rect y1 y2 x1 x2 y x); reflexivity.
    + apply Hv. reflexivity.
    + apply (has_shape_slice2 m h w); [exact Hm|lia|lia].
  - eexists. split; [reflexivity|]. split.
    + apply has_shape_imap2. exact Hm.
    + intros y x. rewrite get_imap2. unfold assigned.
      destruct (get m y x) as [c|]; simpl; [|reflexivity].
      destruct (in_rect y1 y2 x1 x2 y x); reflexivity.
Qed.

(** The per-region procedure reads the processor only through the extended
    image and its median. *)
Lemma find_spots_outcome_frame (s1 s2 : VsaProcessor) (roi : rect)
  (adj min_range min_dist : Z) :
  img_extended s1 = img_extended s2 ->
  img_median s1 = img_median s2 ->
  outcome (_find_spots_in_rect s1 roi adj min_range min_dist)
  = outcome (_find_spots_in_rect s2 roi adj min_range min_dist).
Proof.
  intros Hext Hmed. unfold _find_spots_in_rect. cbv zeta.
  change (img_extended (set_roi s1 roi None [])) with (img_extended s1).
  change (img_extended (set_roi s2 roi None [])) with (img_extended s2).
  change (img_median (set_roi s1 roi None [])) with (img_median s1).
  change (img_median (set_roi s2 roi None [])) with (img_median s2).
  rewrite Hext, Hmed.
  destruct (img_extended s2) as [ext|]; [|reflexivity].
  destruct (np_sort _) as [|m r]; [reflexivity|].
  repeat match goal with
         | |- context [if ?b then _ else _] => destruct b
         end; reflexivity.
Qed.

Lemma tile_mask_frame (s1 s2 : VsaProcessor) (roi : rect)
  (adj min_range min_dist : Z) :
  img_extended s1 = img_extended s2 ->
  img_median s1 = img_median s2 ->
  tile_mask s1 roi adj min_range min_dist
  = tile_mask s2 roi adj min_range min_dist.
Proof.
  intros Hext Hmed.
  pose proof (find_spots_outcome_frame s1 s2 roi adj min_range min_dist
                Hext Hmed) as H.
  unfold tile_mask, outcome in *.
  destruct (_find_spots_in_rect s1 roi adj min_range min_dist)
    as [[[p1 m1] t1]|e1];
    destruct (_find_spots_in_rect s2 roi adj min_range min_dist)
      as [[[p2 m2] t2]|e2]; congruence.
Qed.

(** On a tile inside the image the procedure returns normally; its mask, if
    any, is the thresholded tile; the processor keeps everything but the ROI
    fields. *)
Lemma find_spots_on_tile (s : VsaProcessor) (ext : array Z) (h w : nat)
  (t : nat * nat * nat * nat) (adj min_range min_dist : Z) :
  img_extended s = Some ext ->
  has_shape ext h w ->
  tile_in h w t ->
  exists polys m s',
    _find_spots_in_rect s (roi_of_tile t) adj min_range min_dist
    = Ok ((polys, m), s') /\
    s' = set_roi s (roi_of_tile t) m [] /\
    (m = None \/
     m = Some (threshold_binary (region_img ext (roi_of_tile t))
                 (roi_threshold (region_img ext (roi_of_tile t)) adj))).
Proof.
  intros Hext Hshape Ht. destruct t as [[[x1 y1] x2] y2].
  destruct (find_spots_cases s (roi_of_tile (x1, y1, x2, y2)) adj min_range
              min_dist ext Hext
              (region_nonempty ext h w x1 y1 x2 y2 Hshape Ht))
    as [Hrej|[Hacc _]].
  - do 3 eexists. split; [exact Hrej|]. split; [reflexivity|]. left. reflexivity.
  - do 3 eexists. split; [exact Hacc|]. split; [reflexivity|]. right. reflexivity.
Qed.

Lemma same_frame_refl (s : VsaProcessor) : same_frame s s.
Proof. repeat split. Qed.

Lemma same_frame_trans (s1 s2 s3 : VsaProcessor) :
  same_frame s1 s2 -> same_frame s2 s3 -> same_frame s1 s3.
Proof.
  unfold same_frame. intros H1 H2.
  destruct H1 as (?&?&?&?&?&?&?), H2 as (?&?&?&?&?&?&?).
  repeat split; congruence.
Qed.

Lemma same_frame_set_roi (s : VsaProcessor) (r : rect)
  (m : option (array Z)) (l : list polygon) :
  same_frame s (set_roi s r m l).
Proof. repeat split. Qed.

Lemma fold_left_ext {X Y : Type} (f g : X -> Y -> X) (l : list Y) :
  (forall c t, f c t = g c t) ->
  forall c, fold_left f l c = fold_left g l c.
Proof.
  intros Hfg. induction l as [|t l IH]; intros c; simpl; [reflexivity|].
  rewrite Hfg. apply IH.
Qed.

Lemma tile_paint_frame (s1 s2 : VsaProcessor) (adj min_range min_dist : Z)
  (y x : nat) (c : fcell) (t : nat * nat * nat * nat) :
  same_frame s1 s2 ->
  tile_paint s2 adj min_range min_dist y x c t
  = tile_paint s1 adj min_range min_dist y x c t.
Proof.
  intros (_ & Hext & Hmed & _). unfold tile_paint.
  destruct t as [[[x1 y1] x2] y2].
  rewrite (tile_mask_frame s2 s1) by assumption. reflexivity.
Qed.

Lemma tile_loop_spec (ext : array Z) (h w : nat) (adj min_range min_dist : Z)
  (tiles : list (nat * nat * nat * nat)) :
  has_shape ext h w ->
  Forall (tile_in h w) tiles ->
  forall (s : VsaProcessor) (fm : array fcell),
    img_extended s = Some ext ->
    has_shape fm h w ->
    exists fm' s',
      tile_loop s fm tiles adj min_range min_dist = Ok (fm', s') /\
      has_shape fm' h w /\
      same_frame s s' /\
      forall y x,
        get fm' y x =
        option_map
          (fun c => fold_left (tile_paint s adj min_range min_dist y x) tiles c)
          (get fm y x).
Proof.
  intros Hext Htiles. induction Htiles as [|t rest Ht Hrest IH];
    intros s fm Hs Hfm.
  - exists fm, s. split; [reflexivity|]. split; [exact Hfm|].
    split; [apply same_frame_refl|].
    intros y x. simpl. destruct (get fm y x); reflexivity.
  - destruct (find_spots_on_tile s ext h w t adj min_range min_dist Hs Hext Ht)
      as (polys & m & s1 & Hfind & Hs1 & Hm).
    destruct t as [[[x1 y1] x2] y2].
    destruct (assign_rect_spec fm h w y1 y2 x1 x2 m Hfm Ht) as (fm1 & Hasg & Hfm1 & Hget1).
    { intros src Hsrc. destruct Hm as [Hm|Hm]; [congruence|].
      rewrite Hm in Hsrc. injection Hsrc as <-.
      apply has_shape_threshold_binary.
      apply (region_img_shape ext h w); assumption. }
    assert (Hframe1 : same_frame s s1)
      by (rewrite Hs1; apply same_frame_set_roi).
    destruct (IH s1 fm1) as (fm' & s' & Hloop & Hfm' & Hframe' & Hget').
    { destruct Hframe1 as (_ & He & _). rewrite He. exact Hs. }
    { exact Hfm1. }
    exists fm', s'. split; [|split; [exact Hfm'|split]].
    + cbn [tile_loop]. change (Rect x1 y1 (x2 - x1) (y2 - y1))
        with (roi_of_tile (x1, y1, x2, y2)).
      rewrite Hfind. cbn [bind]. rewrite Hasg. cbn [bind]. exact Hloop.
    + eapply same_frame_trans; eassumption.
    + intros y x. rewrite Hget', Hget1.
      destruct (get fm y x) as [c|]; [|reflexivity]. cbn [option_map fold_left].
      f_equal.
      rewrite (fold_left_ext _ (tile_paint s adj min_range min_dist y x))
        by (intros c0 t0; apply tile_paint_frame; exact Hframe1).
      f_equal. unfold tile_paint, tile_mask. rewrite Hfind. reflexivity.
Qed.

Lemma fold_paint_fixed {X Y : Type} (P : X -> Y -> X) (t0 : Y) (l : list Y) :
  (forall t, In t l -> t = t0 \/ forall c, P c t = c) ->
  (forall c, P (P c t0) t0 = P c t0) ->
  forall c, fold_left P l (P c t0) = P c t0.
Proof.
  intros Hl Hidem. induction l as [|t l IH]; intros c; [reflexivity|].
  simpl. destruct (Hl t (or_introl eq_refl)) as [->|Hid].
  - rewrite Hidem. apply IH. intros t' Ht'. apply Hl. right. exact Ht'.
  - rewrite Hid. apply IH. intros t' Ht'. apply Hl. right. exact Ht'.
Qed.

Lemma fold_paint_unique {X Y : Type} (P : X -> Y -> X) (t0 : Y) (l : list Y) :
  (forall t, In t l -> t = t0 \/ forall c, P c t = c) ->
  (forall c, P (P c t0) t0 = P c t0) ->
  In t0 l ->
  forall c, fold_left P l c = P c t0.
Proof.
  intros Hl Hidem. induction l as [|t l IH]; intros Hin c; [destruct Hin|].
  assert (Hl' : forall t', In t' l -> t' = t0 \/ forall c, P c t' = c)
    by (intros t' Ht'; apply Hl; right; exact Ht').
  simpl. destruct Hin as [->|Hin].
  - apply fold_paint_fixed; assumption.
  - destruct (Hl t (or_introl eq_refl)) as [->|Hid].
    + apply fold_paint_fixed; assumption.
    + rewrite Hid. apply IH; assumption.
Qed.

Lemma roi_of_tile_for (h w win y x : nat) :
  roi_of_tile (tile_for h w win y x) = tile_of h w win y x.
Proof. reflexivity. Qed.

Lemma make_tiles_in (h w win : nat) :
  (0 < win)%nat -> Forall (tile_in h w) (make_tiles h w win).
Proof.
  intros Hwin. apply Forall_forall. intros t Ht.
  apply in_make_tiles in Ht; [|exact Hwin].
  destruct Ht as (yi & xi & Hx & Hy & ->). unfold tile_in. lia.
Qed.

Lemma tile_for_in_rect (h w win y x : nat) :
  (0 < win)%nat -> (y < h)%nat -> (x < w)%nat ->
  in_rect (y / win * win) (Nat.min (y / win * win + win) h)
          (x / win * win) (Nat.min (x / win * win + win) w) y x = true.
Proof.
  intros Hwin Hy Hx. unfold in_rect.
  pose proof (window_holds win y Hwin). pose proof (window_holds win x Hwin).
  rewrite !andb_true_iff.
  repeat split; (apply Nat.leb_le || apply Nat.ltb_lt); lia.
Qed.

Lemma grid_paint (s : VsaProcessor) (adj min_range min_dist : Z)
  (h w win y x : nat) (c : fcell) :
  (0 < win)%nat -> (y < h)%nat -> (x < w)%nat ->
  fold_left (tile_paint s adj min_range min_dist y x) (make_tiles h w win) c
  = tile_paint s adj min_range min_dist y x c (tile_for h w win y x).
Proof.
  intros Hwin Hy Hx. apply fold_paint_unique.
  - intros t Ht. apply in_make_tiles in Ht; [|exact Hwin].
    destruct Ht as (yi & xi & Hxi & Hyi & ->).
    destruct (in_rect (yi * win) (Nat.min (yi * win + win) h)
                      (xi * win) (Nat.min (xi * win + win) w) y x) eqn:Hin.
    + left. unfold in_rect in Hin. rewrite !andb_true_iff in Hin.
      destruct Hin as [[[Hy1 Hy2] Hx1] Hx2].
      apply Nat.leb_le in Hy1, Hx1. apply Nat.ltb_lt in Hy2, Hx2.
      assert (Hxe : xi = (x / win)%nat) by (apply window_index; lia).
      assert (Hye : yi = (y / win)%nat) by (apply window_index; lia).
      subst xi yi. reflexivity.
    + right. intros c0. unfold tile_paint, assigned. rewrite Hin. reflexivity.
  - intros c0. unfold tile_paint, tile_for, assigned.
    destruct (in_rect _ _ _ _ y x); [|reflexivity].
    destruct (tile_mask _ _ _ _ _) as [src|]; [|reflexivity].
    destruct (get src _ _); reflexivity.
  - apply in_make_tiles; [exact Hwin|].
    exists (y / win)%nat, (x / win)%nat.
    pose proof (window_holds win y Hwin). pose proof (window_holds win x Hwin).
    split; [lia|]. split; [lia|]. reflexivity.
Qed.

Lemma has_shape_width {A : Type} (a : array A) (h w : nat) :
  has_shape a h w -> (0 < h)%nat -> width a = w.
Proof.
  intros [Hh Hw] Hp. destruct a as [|row t]; [simpl in Hh; lia|].
  inversion Hw; subst. reflexivity.
Qed.

Lemma pixel_get (a : array Z) (h w y x : nat) :
  has_shape a h w -> (y < h)%nat -> (x < w)%nat ->
  get a y x = Some (pixel a y x).
Proof.
  intros Ha Hy Hx. unfold pixel.
  destruct (has_shape_get a h w y x Ha Hy Hx) as [v ->]. reflexivity.
Qed.

(** The float cell the tile loop leaves at pixel [(y, x)]. *)
Lemma tile_cell (s : VsaProcessor) (ext : array Z) (h w win y x : nat)
  (adj min_range min_dist : Z) (c : fcell) :
  img_extended s = Some ext ->
  has_shape ext h w ->
  (0 < win)%nat -> (y < h)%nat -> (x < w)%nat ->
  let roi := tile_of h w win y x in
  tile_paint s adj min_range min_dist y x c (tile_for h w win y x)
  = match tile_mask s roi adj min_range min_dist with
    | Some _ =>
        FNum (if roi_threshold (region_img ext roi) adj <? pixel ext y x
              then 255 else 0)
    | None => FNaN
    end.
Proof.
  intros Hs Hext Hwin Hy Hx roi.
  assert (Htin : tile_in h w (tile_for h w win y x)).
  { pose proof (make_tiles_in h w win Hwin) as Hall.
    rewrite Forall_forall in Hall. apply Hall.
    apply in_make_tiles; [exact Hwin|].
    exists (y / win)%nat, (x / win)%nat.
    pose proof (window_holds win y Hwin). pose proof (window_holds win x Hwin).
    split; [lia|]. split; [lia|]. reflexivity. }
  destruct (find_spots_on_tile s ext h w (tile_for h w win y x) adj min_range
              min_dist Hs Hext Htin) as (polys & m & s1 & Hfind & _ & Hm).
  unfold tile_paint, tile_for, assigned.
  rewrite (tile_for_in_rect h w win y x Hwin Hy Hx).
  fold (tile_for h w win y x). rewrite roi_of_tile_for. fold roi.
  rewrite roi_of_tile_for in Hfind, Hm. fold roi in Hfind, Hm.
  unfold tile_mask. rewrite Hfind.
  destruct Hm as [->| ->]; [reflexivity|].
  rewrite get_threshold_binary.
  assert (Hg : get (region_img ext roi) (y - y / win * win) (x - x / win * win)
               = Some (pixel ext y x)).
  { unfold region_img. rewrite get_slice2. unfold roi, tile_of.
    cbn [rx ry rw rh].
    pose proof (window_holds win y Hwin). pose proof (window_holds win x Hwin).
    replace (y - y / win * win <?
             y / win * win + (Nat.min (y / win * win + win) h - y / win * win)
             - y / win * win)%nat with true
      by (symmetry; apply Nat.ltb_lt; lia).
    replace (x - x / win * win <?
             x / win * win + (Nat.min (x / win * win + win) w - x / win * win)
             - x / win * win)%nat with true
      by (symmetry; apply Nat.ltb_lt; lia).
    cbn [andb].
    replace (y / win * win + (y - y / win * win))%nat with y by lia.
    replace (x / win * win + (x - x / win * win))%nat with x by lia.
    apply (pixel_get ext h w y x Hext Hy Hx). }
  rewrite Hg. reflexivity.
Qed.

Lemma vectorize_spots_ok (s : VsaProcessor) (m : array Z) :
  spot_mask s = Some m ->
  _vectorize_spots s = Ok (set_spot_polygons_field s (findContours m)).
Proof.
  intros Hm. unfold _vectorize_spots. rewrite Hm.
  unfold contour_to_polygon. rewrite map_id. reflexivity.
Qed.

Lemma where_paper_spec (paper m : array Z) (h w : nat) :
  has_shape paper h w -> has_shape m h w ->
  exists m',
    where_paper (Some paper) m = Ok m' /\
    has_shape m' h w /\
    forall y x, (y < h)%nat -> (x < w)%nat ->
      get m' y x =
      option_map (fun v => if pixel paper y x =? 0 then 0 else v) (get m y x).
Proof.
  intros Hp Hm. unfold where_paper.
  rewrite (same_shape_has_shape paper m h w Hp Hm).
  eexists. split; [reflexivity|]. split; [apply has_shape_imap2; exact Hm|].
  intros y x Hy Hx. rewrite get_imap2.
  rewrite (pixel_get paper h w y x Hp Hy Hx). reflexivity.
Qed.

(** [segment_spots] on a loaded image with its paper mask, for any window
    side. *)
Lemma segment_spots_pixels (s : VsaProcessor) (adj min_range min_dist : Z)
  (im ext paper : array Z) (h w : nat) :
  img s = Some im ->
  img_extended s = Some ext ->
  paper_mask s = Some paper ->
  has_shape im h w -> has_shape ext h w -> has_shape paper h w ->
  (0 < h)%nat -> (0 < w)%nat ->
  (0 < win_size s)%nat ->
  exists s' m,
    segment_spots s adj min_range min_dist = Ok s' /\
    spot_mask s' = Some m /\
    has_shape m h w /\
    spot_polygons s' = findContours m /\
    paper_mask s' = Some paper /\
    forall y x, (y < h)%nat -> (x < w)%nat ->
      let roi := tile_of h w (win_size s) y x in
      get m y x =
      Some (if pixel paper y x =? 0 then 0
            else astype_uint8
                   (window_cell (tile_mask s roi adj min_range min_dist)
                      (roi_threshold (region_img ext roi) adj)
                      (pixel ext y x))).
Proof.
  intros Him Hext Hpaper Hsim Hsext Hspaper Hh Hw Hwin.
  set (s0 := set_spot_polygons_field (set_roi_polygons s []) []).
  assert (Hhave : have_img s0 = true).
  { unfold have_img. change (img s0) with (img s). rewrite Him.
    destruct Hsim as [Hlen _]. unfold height. rewrite Hlen.
    destruct h; [lia|reflexivity]. }
  destruct (tile_loop_spec ext h w adj min_range min_dist
              (make_tiles h w (win_size s)) Hsext
              (make_tiles_in h w (win_size s) Hwin) s0
              (tabulate h w (fun _ _ => FNum 0)) Hext
              (has_shape_tabulate h w _))
    as (fm & s1 & Hloop & Hfm & Hframe & Hget).
  destruct (where_paper_spec paper (imap2 (fun _ _ c => astype_uint8 c) fm)
              h w Hspaper (has_shape_imap2 _ fm h w Hfm))
    as (m & Hwhere & Hm & Hgetm).
  exists (set_spot_polygons_field (set_spot_mask s1 (Some m)) (findContours m)), m.
  split; [|split; [reflexivity|split; [exact Hm|split; [reflexivity|split]]]].
  - unfold segment_spots. cbv zeta. fold s0. rewrite Hhave. cbn [negb].
    change (img s0) with (img s). rewrite Him.
    replace (win_size s =? 0)%nat with false
      by (symmetry; apply Nat.eqb_neq; lia).
    destruct Hsim as [Hlen Hrows]. unfold height. rewrite Hlen.
    rewrite (has_shape_width im h w (conj Hlen Hrows) Hh).
    rewrite Hloop. cbn [bind].
    destruct Hframe as (_ & _ & _ & Hpm & _).
    rewrite Hpm. change (paper_mask s0) with (paper_mask s).
    rewrite Hpaper, Hwhere. cbn [bind].
    apply vectorize_spots_ok. reflexivity.
  - destruct Hframe as (_ & _ & _ & Hpm & _).
    cbn [paper_mask set_spot_polygons_field set_spot_mask]. rewrite Hpm.
    exact Hpaper.
  - intros y x Hy Hx roi.
    rewrite (Hgetm y x Hy Hx), get_imap2, Hget, get_tabulate.
    replace (y <? h)%nat with true by (symmetry; apply Nat.ltb_lt; exact Hy).
    replace (x <? w)%nat with true by (symmetry; apply Nat.ltb_lt; exact Hx).
    cbn [andb option_map].
    rewrite grid_paint by assumption.
    rewrite (tile_cell s0 ext h w (win_size s) y x adj min_range min_dist
               (FNum 0) Hext Hsext Hwin Hy Hx).
    fold roi.
    rewrite (tile_mask_frame s0 s roi adj min_range min_dist eq_refl eq_refl).
    reflexivity.
Qed.

(** C1: on a loaded image with its paper mask, [segment_spots] succeeds and
    leaves a full-size spot mask, revectorized, in which pixel [(y, x)] is
    decided by the window of side 100 that holds it (clipped to the image)
    alone: background outside the paper mask and in a window the per-region
    procedure rejects, and otherwise the window's own threshold applied to
    the pixel. *)
Theorem segment_spots_tiles (s : VsaProcessor) (adj min_range min_dist : Z)
  (im ext paper : array Z) (h w : nat) :
  img s = Some im ->
  img_extended s = Some ext ->
  paper_mask s = Some paper ->
  has_shape im h w -> has_shape ext h w -> has_shape paper h w ->
  (0 < h)%nat -> (0 < w)%nat ->
  win_size s = 100%nat ->
  nan_as_uint8 = 0 ->
  exists s' m,
    segment_spots s adj min_range min_dist = Ok s' /\
    spot_mask s' = Some m /\
    has_shape m h w /\
    spot_polygons s' = findContours m /\
    forall y x, (y < h)%nat -> (x < w)%nat ->
      let roi := tile_of h w 100 y x in
      (rx roi = x / 100 * 100 /\ ry roi = y / 100 * 100)%nat /\
      (rw roi = Nat.min 100 (w - rx roi) /\
       rh roi = Nat.min 100 (h - ry roi))%nat /\
      (rx roi <= x < rx roi + rw roi)%nat /\
      (ry roi <= y < ry roi + rh roi)%nat /\
      get m y x =
      Some (if pixel paper y x =? 0 then 0
            else match tile_mask s roi adj min_range min_dist with
                 | Some _ =>
                     if roi_threshold (region_img ext roi) adj <? pixel ext y x
                     then 255 else 0
                 | None => 0
                 end).
Proof.
  intros Him Hext Hpaper Hsim Hsext Hspaper Hh Hw Hwin Hnan.
  destruct (segment_spots_pixels s adj min_range min_dist im ext paper h w
              Him Hext Hpaper Hsim Hsext Hspaper Hh Hw ltac:(lia))
    as (s' & m & Hrun & Hmask & Hm & Hpoly & _ & Hget).
  exists s', m. repeat (split; [assumption|]).
  intros y x Hy Hx roi.
  pose proof (window_holds 100 y ltac:(lia)) as Hwy.
  pose proof (window_holds 100 x ltac:(lia)) as Hwx.
  split; [split; reflexivity|].
  split; [unfold roi, tile_of; cbn [rx ry rw rh]; lia|].
  split; [unfold roi, tile_of; cbn [rx ry rw rh]; lia|].
  split; [unfold roi, tile_of; cbn [rx ry rw rh]; lia|].
  rewrite (Hget y x Hy Hx), Hwin. fold roi.
  f_equal. destruct (pixel paper y x =? 0); [reflexivity|].
  unfold window_cell, astype_uint8.
  destruct (tile_mask s roi adj min_range min_dist) as [rm|]; [|exact Hnan].
  destruct (roi_threshold (region_img ext roi) adj <? pixel ext y x);
    reflexivity.
Qed.

End Segmentation.

Lemma narrow_range_rejected_witness :
  @_find_spots_in_rect example_cv2 example_processor (Rect 0 0 2 2) 0 40 10
  = Ok (([], None), set_roi example_processor (Rect 0 0 2 2) None []).
Proof.
  apply (@narrow_range_rejected example_cv2 example_processor (Rect 0 0 2 2)
           0 40 10 example_extended).
  - reflexivity.
  - vm_compute. discriminate.
  - vm_compute. reflexivity.
Defined.

Lemma segment_spots_tiles_witness :
  exists s' m,
    @segment_spots example_cv2 example_cast example_processor 0 40 10 = Ok s' /\
    spot_mask s' = Some m /\
    get m 2 2 = Some 255 /\ get m 1 1 = Some 0 /\ get m 0 0 = Some 0.
Proof.
  destruct (@segment_spots_tiles example_cv2 example_cast example_processor
              0 40 10 example_img example_extended example_paper 5 5)
    as (s' & m & Hrun & Hmask & _ & _ & Hget);
    try reflexivity;
    try (split; [reflexivity|repeat constructor]);
    try lia.
  exists s', m. split; [exact Hrun|]. split; [exact Hmask|].
  split; [|split].
  - destruct (Hget 2%nat 2%nat) as (_ & _ & _ & _ & H); [lia|lia|].
    rewrite H. reflexivity.
  - destruct (Hget 1%nat 1%nat) as (_ & _ & _ & _ & H); [lia|lia|].
    rewrite H. reflexivity.
  - destruct (Hget 0%nat 0%nat) as (_ & _ & _ & _ & H); [lia|lia|].
    rewrite H. reflexivity.
Defined.

(** ** Editing the spot mask *)

Section MaskEdits.

Context `{cv : Cv2}.

Lemma get_drawContours (m : array Z) (cs : list polygon) (color : Z)
  (y x : nat) :
  get (drawContours m cs color) y x =
  option_map (fun v => if painted cs y x then color else v) (get m y x).
Proof. unfold drawContours. apply get_imap2. Qed.

Lemma fill_poly_selection_ok (s : VsaProcessor) (pg : polygon)
  (im m : array Z) :
  img s = Some im ->
  spot_mask s = Some m ->
  fill_poly_selection s pg
  = Ok (set_spot_polygons_field
          (set_spot_mask s (Some (drawContours m [pg] 255)))
          (findContours (drawContours m [pg] 255))).
Proof.
  intros Him Hm. unfold fill_poly_selection. rewrite Him, Hm.
  apply vectorize_spots_ok. reflexivity.
Qed.

Lemma clear_poly_selection_ok (s : VsaProcessor) (pg : polygon)
  (im m : array Z) :
  img s = Some im ->
  spot_mask s = Some m ->
  clear_poly_selection s pg
  = Ok (set_spot_polygons_field
          (set_spot_mask s (Some (drawContours m [pg] 0)))
          (findContours (drawContours m [pg] 0))).
Proof.
  intros Him Hm. unfold clear_poly_selection. rewrite Him, Hm.
  apply vectorize_spots_ok. reflexivity.
Qed.

(** C3, as amended: a fill followed by a clear of the same polygon leaves
    background on every pixel the polygon covers and every other pixel as it
    was; a covered pixel is back to its value from before the fill exactly
    when that value was background. *)
Theorem fill_then_clear (s : VsaProcessor) (pg : polygon) (im m : array Z) :
  img s = Some im ->
  spot_mask s = Some m ->
  exists s1 s2 m2,
    fill_poly_selection s pg = Ok s1 /\
    clear_poly_selection s1 pg = Ok s2 /\
    spot_mask s2 = Some m2 /\
    spot_polygons s2 = findContours m2 /\
    (forall y x,
       get m2 y x =
       option_map (fun v => if painted [pg] y x then 0 else v) (get m y x)) /\
    (forall y x v,
       get m y x = Some v -> painted [pg] y x = true ->
       (get m2 y x = get m y x <-> v = 0)).
Proof.
  intros Him Hm.
  assert (Hget : forall y x,
             get (drawContours (drawContours m [pg] 255) [pg] 0) y x =
             option_map (fun v => if painted [pg] y x then 0 else v)
                        (get m y x)).
  { intros y x. rewrite !get_drawContours.
    destruct (get m y x) as [v|]; [|reflexivity]. simpl.
    destruct (painted [pg] y x); reflexivity. }
  do 3 eexists. split; [apply (fill_poly_selection_ok s pg im m Him Hm)|].
  split; [apply (clear_poly_selection_ok _ pg im); [exact Him|reflexivity]|].
  split; [reflexivity|]. split; [reflexivity|]. split; [exact Hget|].
  intros y x v Hv Hp. rewrite Hget, Hv. simpl. rewrite Hp.
  split; [intros H; injection H as <-; reflexivity|intros ->; reflexivity].
Qed.

End MaskEdits.

Lemma fill_then_clear_witness :
  exists s1 s2 m2,
    @fill_poly_selection example_cv2 example_spotted paper_selection = Ok s1 /\
    @clear_poly_selection example_cv2 s1 paper_selection = Ok s2 /\
    spot_mask s2 = Some m2 /\
    get m2 1 1 = Some 0 /\ get m2 2 2 = Some 0.
Proof.
  destruct (@fill_then_clear example_cv2 example_spotted paper_selection
              example_img example_spot_mask eq_refl eq_refl)
    as (s1 & s2 & m2 & H1 & H2 & H3 & _ & Hget & _).
  exists s1, s2, m2. repeat (split; [assumption|]).
  split; rewrite Hget; reflexivity.
Defined.

(** C3 as stated fails where the mask had a spot: the stained pixel under
    the selection is foreground before the fill and background after the
    clear. *)
Lemma fill_then_clear_loses_spot :
  exists s1 s2 m2,
    @fill_poly_selection example_cv2 example_spotted paper_selection = Ok s1 /\
    @clear_poly_selection example_cv2 s1 paper_selection = Ok s2 /\
    spot_mask s2 = Some m2 /\
    @painted example_cv2 [paper_selection] 2 2 = true /\
    get example_spot_mask 2 2 = Some 255 /\
    get m2 2 2 = Some 0 /\
    get m2 2 2 <> get example_spot_mask 2 2.
Proof.
  do 3 eexists. split; [reflexivity|]. split; [reflexivity|].
  split; [reflexivity|]. split; [reflexivity|]. split; [reflexivity|].
  split; [reflexivity|]. vm_compute. discriminate.
Qed.

(** ** The spot mask and the paper mask *)

Section PaperInvariant.

Context `{cv : Cv2} `{nc : NumpyCast}.

Lemma find_spots_empty (s : VsaProcessor) (roi : rect)
  (adj min_range min_dist : Z) (ext : array Z) :
  img_extended s = Some ext ->
  region ext roi = [] ->
  _find_spots_in_rect s roi adj min_range min_dist = Raise IndexError.
Proof.
  intros Hext Hreg. unfold _find_spots_in_rect. cbv zeta.
  change (img_extended (set_roi s roi None [])) with (img_extended s).
  rewrite Hext.
  change (flatten (slice2 ext (ry roi) (ry roi + rh roi) (rx roi)
                          (rx roi + rw roi)))
    with (region ext roi).
  rewrite Hreg. reflexivity.
Qed.

Lemma clear_subset (m paper : array Z) (cs : list polygon) :
  subset_of m paper -> subset_of (drawContours m cs 0) paper.
Proof.
  intros Hsub y x v Hg Hv. rewrite get_drawContours in Hg.
  destruct (get m y x) as [v0|] eqn:Hm; [|discriminate].
  simpl in Hg. injection Hg as <-.
  destruct (painted cs y x); [congruence|].
  apply (Hsub y x v0 Hm Hv).
Qed.

Lemma fill_subset_iff (m paper : array Z) (cs : list polygon) (h w : nat) :
  has_shape m h w ->
  subset_of m paper ->
  subset_of (drawContours m cs 255) paper <->
  (forall y x, (y < h)%nat -> (x < w)%nat ->
               painted cs y x = true -> pixel paper y x <> 0).
Proof.
  intros Hm Hsub. split.
  - intros Hfill y x Hy Hx Hp.
    destruct (has_shape_get m h w y x Hm Hy Hx) as [v Hv].
    apply (Hfill y x 255); [|discriminate].
    rewrite get_drawContours, Hv. simpl. rewrite Hp. reflexivity.
  - intros Hin y x v Hg Hv. rewrite get_drawContours in Hg.
    destruct (get m y x) as [v0|] eqn:Hm0; [|discriminate].
    simpl in Hg. injection Hg as <-.
    destruct (painted cs y x) eqn:Hp.
    + assert (Hy : (y < h)%nat).
      { destruct Hm as [Hlen _]. unfold get in Hm0.
        destruct (nth_error m y) as [row|] eqn:Hr; [|discriminate].
        rewrite <- Hlen. apply nth_error_Some. congruence. }
      assert (Hx : (x < w)%nat).
      { destruct Hm as [_ Hrows]. unfold get in Hm0.
        destruct (nth_error m y) as [row|] eqn:Hr; [|discriminate].
        rewrite Forall_forall in Hrows.
        rewrite <- (Hrows row (nth_error_In _ _ Hr)).
        apply nth_error_Some. congruence. }
      apply (Hin y x Hy Hx Hp).
    + apply (Hsub y x v0 Hm0 Hv).
Qed.

Lemma have_img_shape (s : VsaProcessor) (im : array Z) (h w : nat) :
  img s = Some im -> has_shape im h w -> (0 < h)%nat -> have_img s = true.
Proof.
  intros Him [Hlen _] Hh. unfold have_img. rewrite Him.
  unfold height. rewrite Hlen. destruct h; [lia|reflexivity].
Qed.

Lemma get_in_bounds {A : Type} (a : array A) (h w y x : nat) (v : A) :
  has_shape a h w -> get a y x = Some v -> (y < h)%nat /\ (x < w)%nat.
Proof.
  intros [Hlen Hrows] Hg. unfold get in Hg.
  destruct (nth_error a y) as [row|] eqn:Hr; [|discriminate]. split.
  - rewrite <- Hlen. apply nth_error_Some. congruence.
  - rewrite Forall_forall in Hrows.
    rewrite <- (Hrows row (nth_error_In _ _ Hr)).
    apply nth_error_Some. congruence.
Qed.

Lemma has_shape_slice2_clip {A : Type} (a : array A)
  (h w y1 y2 x1 x2 : nat) :
  has_shape a h w ->
  has_shape (slice2 a y1 y2 x1 x2) (slice_len h y1 y2) (slice_len w x1 x2).
Proof.
  intros [Hh Hw]. unfold slice_len. split.
  - unfold slice2. rewrite length_map, length_slice, Hh. reflexivity.
  - apply Forall_forall. intros row Hin. unfold slice2 in Hin.
    apply in_map_iff in Hin. destruct Hin as [r [<- Hr]].
    rewrite length_slice.
    assert (Hlen : length r = w).
    { rewrite Forall_forall in Hw. apply Hw.
      apply In_nth_error in Hr. destruct Hr as [n Hn].
      rewrite nth_error_slice in Hn.
      destruct (n <? y2 - y1)%nat; [|discriminate].
      eapply nth_error_In. exact Hn. }
    rewrite Hlen. reflexivity.
Qed.

(** Inside its own shape a broadcast operand is read as it is. *)
Lemma broadcast_get_same (b : array Z) (bh bw i j : nat) :
  has_shape b bh bw -> (i < bh)%nat -> (j < bw)%nat ->
  broadcast_get b i j = get b i j.
Proof.
  intros Hb Hi Hj. unfold broadcast_get.
  rewrite (has_shape_width b bh bw Hb) by lia.
  destruct Hb as [Hlen _]. unfold height. rewrite Hlen.
  destruct (bh =? 1)%nat eqn:E1; destruct (bw =? 1)%nat eqn:E2;
    try apply Nat.eqb_eq in E1; try apply Nat.eqb_eq in E2;
    repeat match goal with
           | |- context [get b 0%nat ?c] =>
               replace i with 0%nat by lia
           end;
    try (replace j with 0%nat by lia); reflexivity.
Qed.

(** Committing a probed ROI keeps the spot mask inside the paper mask: a
    mask is only accepted with a threshold at or above the median, and the
    extended image is at most the median outside the paper. *)
Lemma roi_commit_subset (s s1 s2 : VsaProcessor) (im ext paper m : array Z)
  (h w : nat) (roi : rect) (adj min_range min_dist : Z) :
  img s = Some im -> has_shape im h w -> (0 < h)%nat ->
  has_shape ext h w -> has_shape m h w ->
  img_extended s = Some ext ->
  spot_mask s = Some m ->
  (forall y x, pixel paper y x = 0 ->
               (inject_Z (pixel ext y x) <= img_median s)%Q) ->
  subset_of m paper ->
  segment_spots_in_roi s roi adj min_range min_dist = Ok s1 ->
  save_roi_spots s1 = Ok s2 ->
  exists m', spot_mask s2 = Some m' /\ subset_of m' paper.
Proof.
  intros Him Hsim Hh Hsext Hsm Hext Hm Hcoh Hsub H1 H2.
  unfold segment_spots_in_roi in H1.
  rewrite (have_img_shape s im h w Him Hsim Hh) in H1. cbn [negb] in H1.
  destruct (region ext roi) as [|a t] eqn:Hreg.
  { rewrite (find_spots_empty s roi adj min_range min_dist ext Hext Hreg) in H1.
    discriminate. }
  destruct (find_spots_cases s roi adj min_range min_dist ext Hext)
    as [Hrej|(Hacc & Hmed & _)]; [rewrite Hreg; discriminate| |].
  - rewrite Hrej in H1. cbn [bind] in H1. injection H1 as <-.
    unfold save_roi_spots in H2. cbn in H2. injection H2 as <-.
    exists m. split; [exact Hm|exact Hsub].
  - rewrite Hacc in H1. cbn [bind] in H1. injection H1 as <-.
    set (thresh := roi_threshold (region_img ext roi) adj) in *.
    set (mask := threshold_binary (region_img ext roi) thresh) in *.
    unfold save_roi_spots in H2.
    destruct (length _ =? 0)%nat.
    { injection H2 as <-. exists m. split; [exact Hm|exact Hsub]. }
    cbn [Vsa.roi rx ry rw rh set_roi_polygons set_roi spot_mask roi_mask] in H2.
    rewrite Hm in H2.
    destruct (broadcastable _ _ _ _); [|discriminate].
    erewrite vectorize_spots_ok in H2 by reflexivity. injection H2 as <-.
    eexists. split; [reflexivity|].
    intros yy xx v Hg Hv. rewrite get_imap2 in Hg.
    destruct (get m yy xx) as [v0|] eqn:Hm0; [|discriminate].
    simpl in Hg. injection Hg as Hg.
    destruct (in_rect (ry roi) (ry roi + rh roi) (rx roi) (rx roi + rw roi)
                      yy xx) eqn:Hin;
      [|subst v; apply (Hsub yy xx v0 Hm0 Hv)].
    assert (Hmask : has_shape mask
                      (slice_len h (ry roi) (ry roi + rh roi))
                      (slice_len w (rx roi) (rx roi + rw roi))).
    { unfold mask, region_img. apply has_shape_threshold_binary.
      apply has_shape_slice2_clip. exact Hsext. }
    destruct (get_in_bounds m h w yy xx v0 Hsm Hm0) as [Hyy Hxx].
    rewrite (broadcast_get_same mask _ _ _ _ Hmask) in Hg;
      [| unfold in_rect in Hin; rewrite !andb_true_iff in Hin;
         destruct Hin as [[[Hy1 Hy2] Hx1] Hx2];
         apply Nat.leb_le in Hy1, Hx1; apply Nat.ltb_lt in Hy2, Hx2;
         unfold slice_len; lia
       | unfold in_rect in Hin; rewrite !andb_true_iff in Hin;
         destruct Hin as [[[Hy1 Hy2] Hx1] Hx2];
         apply Nat.leb_le in Hy1, Hx1; apply Nat.ltb_lt in Hy2, Hx2;
         unfold slice_len; lia ].
    destruct (get mask (yy - ry roi) (xx - rx roi)) as [r|] eqn:Hr;
      [|subst v; apply (Hsub yy xx v0 Hm0 Hv)].
    intros Hpaper.
    assert (Hr0 : r = 0).
    { unfold mask in Hr. rewrite get_threshold_binary in Hr.
      unfold region_img in Hr. rewrite get_slice2 in Hr.
      unfold in_rect in Hin. rewrite !andb_true_iff in Hin.
      destruct Hin as [[[Hy1 _] Hx1] _]. apply Nat.leb_le in Hy1, Hx1.
      destruct (_ && _); [|discriminate].
      replace (ry roi + (yy - ry roi))%nat with yy in Hr by lia.
      replace (rx roi + (xx - rx roi))%nat with xx in Hr by lia.
      pose proof (Hcoh yy xx Hpaper) as Hle. unfold pixel in Hle.
      destruct (get ext yy xx) as [p|]; [|discriminate].
      simpl in Hr. injection Hr as <-.
      unfold Qltb in Hmed. apply negb_false_iff, Qle_bool_iff in Hmed.
      fold thresh in Hmed.
      assert (Hpt : (inject_Z p <= inject_Z thresh)%Q)
        by (eapply Qle_trans; eassumption).
      rewrite <- Zle_Qle in Hpt.
      replace (thresh <? p) with false by (symmetry; apply Z.ltb_ge; exact Hpt).
      reflexivity. }
    subst r. rewrite Z.lor_0_r in Hg. subst v.
    exact (Hsub yy xx v0 Hm0 Hv Hpaper).
Qed.

Lemma zeros_subset (h w : nat) (paper : array Z) :
  subset_of (tabulate h w (fun _ _ => 0)) paper.
Proof.
  intros y x v Hg Hv. rewrite get_tabulate in Hg.
  destruct (_ && _); [|discriminate]. congruence.
Qed.

(** C2, as amended: with the spot mask inside the paper mask, it is inside
    it again after a whole-image segmentation, after the commit of a probed
    ROI and after a manual clear; a manual fill and the replacement of the
    polygon set paint without looking at the paper mask, and the spot mask is
    inside it afterwards exactly when every painted pixel of the image is
    paper. *)
Theorem spot_mask_within_paper (s : VsaProcessor)
  (im ext paper m : array Z) (h w : nat) :
  img s = Some im ->
  img_extended s = Some ext ->
  paper_mask s = Some paper ->
  spot_mask s = Some m ->
  has_shape im h w -> has_shape ext h w ->
  has_shape paper h w -> has_shape m h w ->
  (0 < h)%nat -> (0 < w)%nat ->
  (0 < win_size s)%nat ->
  (forall y x, pixel paper y x = 0 ->
               (inject_Z (pixel ext y x) <= img_median s)%Q) ->
  subset_of m paper ->
  (forall adj min_range min_dist,
     exists s' m',
       segment_spots s adj min_range min_dist = Ok s' /\
       paper_mask s' = Some paper /\
       spot_mask s' = Some m' /\ subset_of m' paper) /\
  (forall sel adj min_range min_dist s1 s2,
     segment_spots_in_roi s sel adj min_range min_dist = Ok s1 ->
     save_roi_spots s1 = Ok s2 ->
     exists m', spot_mask s2 = Some m' /\ subset_of m' paper) /\
  (forall pg,
     exists s' m',
       clear_poly_selection s pg = Ok s' /\
       paper_mask s' = Some paper /\
       spot_mask s' = Some m' /\ subset_of m' paper) /\
  (forall pg,
     exists s' m',
       fill_poly_selection s pg = Ok s' /\
       paper_mask s' = Some paper /\
       spot_mask s' = Some m' /\
       (subset_of m' paper <->
        forall y x, (y < h)%nat -> (x < w)%nat ->
                    painted [pg] y x = true -> pixel paper y x <> 0)) /\
  (forall polygons,
     exists m',
       paper_mask (set_spot_polygons s polygons) = Some paper /\
       spot_mask (set_spot_polygons s polygons) = Some m' /\
       (subset_of m' paper <->
        forall y x, (y < h)%nat -> (x < w)%nat ->
                    painted polygons y x = true -> pixel paper y x <> 0)).
Proof.
  intros Him Hext Hpaper Hm Hsim Hsext Hspaper Hsm Hh Hw Hwin Hcoh Hsub.
  split; [|split; [|split; [|split]]].
  - intros adj min_range min_dist.
    destruct (segment_spots_pixels s adj min_range min_dist im ext paper h w
                Him Hext Hpaper Hsim Hsext Hspaper Hh Hw Hwin)
      as (s' & m' & Hrun & Hmask & Hm' & _ & Hpm & Hget).
    exists s', m'. split; [exact Hrun|]. split; [exact Hpm|].
    split; [exact Hmask|].
    intros y x v Hg Hv.
    destruct (get_in_bounds m' h w y x v Hm' Hg) as [Hy Hx].
    rewrite (Hget y x Hy Hx) in Hg. injection Hg as Hg.
    destruct (pixel paper y x =? 0) eqn:Hp; [congruence|].
    apply Z.eqb_neq. exact Hp.
  - intros sel adj min_range min_dist s1 s2 H1 H2.
    exact (roi_commit_subset s s1 s2 im ext paper m h w sel adj min_range
             min_dist Him Hsim Hh Hsext Hsm Hext Hm Hcoh Hsub H1 H2).
  - intros pg. do 2 eexists.
    split; [apply (clear_poly_selection_ok s pg im m Him Hm)|].
    split; [exact Hpaper|]. split; [reflexivity|].
    apply clear_subset. exact Hsub.
  - intros pg. do 2 eexists.
    split; [apply (fill_poly_selection_ok s pg im m Him Hm)|].
    split; [exact Hpaper|]. split; [reflexivity|].
    apply fill_subset_iff; assumption.
  - intros polygons. unfold set_spot_polygons. rewrite Him.
    eexists. split; [exact Hpaper|]. split; [reflexivity|].
    unfold polygon_to_contour. rewrite map_id.
    destruct Hsim as [Hlen Hrows]. unfold height. rewrite Hlen.
    rewrite (has_shape_width im h w (conj Hlen Hrows) Hh).
    apply fill_subset_iff; [apply has_shape_tabulate|apply zeros_subset].
Qed.

End PaperInvariant.

Lemma example_extended_coherent (y x : nat) :
  pixel example_paper y x = 0 ->
  (inject_Z (pixel example_extended y x) <= img_median example_spotted)%Q.
Proof.
  destruct y as [|[|[|[|[|[|y]]]]]]; destruct x as [|[|[|[|[|[|x]]]]]];
    intros H; try (vm_compute in H; discriminate H);
    apply Qle_bool_iff; reflexivity.
Qed.

Lemma example_spot_mask_subset : subset_of example_spot_mask example_paper.
Proof.
  intros y x v.
  destruct y as [|[|[|[|[|[|y]]]]]]; destruct x as [|[|[|[|[|[|x]]]]]];
    intros H1 H2; vm_compute in H1; try discriminate H1;
    try (injection H1 as <-; congruence); vm_compute; discriminate.
Qed.

Lemma example_shape (a : array Z) :
  length a = 5%nat -> Forall (fun row => length row = 5%nat) a ->
  has_shape a 5 5.
Proof. intros H1 H2. split; assumption. Qed.

Lemma spot_mask_within_paper_witness :
  (exists s' m',
     @segment_spots example_cv2 example_cast example_spotted 0 40 10 = Ok s' /\
     paper_mask s' = Some example_paper /\
     spot_mask s' = Some m' /\ subset_of m' example_paper) /\
  (exists s' m',
     @clear_poly_selection example_cv2 example_spotted paper_selection = Ok s' /\
     paper_mask s' = Some example_paper /\
     spot_mask s' = Some m' /\ subset_of m' example_paper).
Proof.
  destruct (@spot_mask_within_paper example_cv2 example_cast example_spotted
              example_img example_extended example_paper example_spot_mask
              5 5)
    as (Hseg & _ & Hclear & _);
    try reflexivity;
    try (apply example_shape; [reflexivity|repeat constructor]);
    try (simpl; lia).
  - exact example_extended_coherent.
  - exact example_spot_mask_subset.
  - split; [apply (Hseg 0 40 10)|apply (Hclear paper_selection)].
Defined.

(** C2 as stated fails on a manual fill: a selection over the corner of the
    scan, outside the paper, puts foreground there. *)
Lemma fill_outside_paper :
  subset_of (tabulate 5 5 (fun _ _ => 0)) example_paper /\
  exists s' m',
    @fill_poly_selection example_cv2 example_processor corner_selection
    = Ok s' /\
    paper_mask s' = Some example_paper /\
    spot_mask s' = Some m' /\
    get m' 0 0 = Some 255 /\
    pixel example_paper 0 0 = 0 /\
    ~ subset_of m' example_paper.
Proof.
  split; [apply zeros_subset|].
  do 2 eexists. split; [reflexivity|]. split; [reflexivity|].
  split; [reflexivity|]. split; [reflexivity|]. split; [reflexivity|].
  intros Hsub. apply (Hsub 0%nat 0%nat 255); [reflexivity|discriminate|].
  reflexivity.
Qed.

(** ** Measurement *)

Section Measurement.

Context `{cv : Cv2} `{pe : PolygonToolsExt}.

Lemma in_flatten_get {A : Type} (a : array A) (v : A) :
  In v (flatten a) <-> exists y x, get a y x = Some v.
Proof.
  unfold flatten, get. rewrite in_concat. split.
  - intros (row & Hrow & Hv).
    apply In_nth_error in Hrow. destruct Hrow as [y Hy].
    apply In_nth_error in Hv. destruct Hv as [x Hx].
    exists y, x. rewrite Hy. exact Hx.
  - intros (y & x & H).
    destruct (nth_error a y) as [row|] eqn:Hy; [|discriminate].
    exists row. split; eapply nth_error_In; eassumption.
Qed.

Lemma count_step_ge (l : list Z) :
  forall n,
    n <= fold_left (fun n v => if v =? 255 then n + 1 else n) l n.
Proof.
  induction l as [|v t IH]; intros n; simpl; [lia|].
  destruct (v =? 255); [specialize (IH (n + 1)); lia|apply IH].
Qed.

Lemma count_zero_no_255 (l : list Z) :
  forall n,
    fold_left (fun n v => if v =? 255 then n + 1 else n) l n = n ->
    Forall (fun v => v <> 255) l.
Proof.
  induction l as [|v t IH]; intros n H; [constructor|].
  simpl in H. destruct (v =? 255) eqn:Hv.
  - pose proof (count_step_ge t (n + 1)). lia.
  - constructor; [apply Z.eqb_neq; exact Hv|apply (IH n H)].
Qed.

Lemma sum_zeros (l : list Z) :
  Forall (fun v => v = 0) l -> forall n, fold_left Z.add l n = n.
Proof.
  induction 1 as [|v t Hv Ht IH]; intros n; simpl; [reflexivity|].
  rewrite Hv, Z.add_0_r. apply IH.
Qed.

Lemma has_shape_zeros_like (a : array Z) (h w : nat) (f : nat -> nat -> Z) :
  has_shape a h w -> has_shape (tabulate (height a) (width a) f) h w.
Proof.
  intros Ha. destruct h as [|h].
  - destruct Ha as [Hlen _]. unfold height. rewrite Hlen. split.
    + reflexivity.
    + constructor.
  - rewrite (has_shape_width a (S h) w Ha) by lia.
    destruct Ha as [Hlen _]. unfold height. rewrite Hlen.
    apply has_shape_tabulate.
Qed.

(** C5, as amended: the mean distance to the edge is the quotient
    [sum/count] with no guard; for a polygon whose filled interior covers no
    pixel of the image the division is performed all the same, gives NaN
    without an exception, and the NaN goes into the record. *)
Theorem zero_coverage_average (s : VsaProcessor) (pg : polygon)
  (paper dist : array Z) (h w : nat) :
  paper_mask s = Some paper ->
  dist_map s = Some dist ->
  has_shape paper h w -> has_shape dist h w ->
  count_255 (drawContours
               (tabulate (height paper) (width paper) (fun _ _ => 0))
               [polygon_to_contour pg] 255) = 0 ->
  ave_dist_to_edge s pg = Ok NaN /\
  forall volume_mapper pix_per_cm size_thresh_list p,
    measure_polygon s volume_mapper pix_per_cm size_thresh_list pg = Ok p ->
    ave_dist_to_edge_pix p = NaN /\ ave_dist_to_edge_cm p = NaN.
Proof.
  intros Hpaper Hdist Hsp Hsd Hcount.
  assert (Have : ave_dist_to_edge s pg = Ok NaN).
  { unfold ave_dist_to_edge. rewrite Hpaper, Hdist.
    set (zeros := tabulate (height paper) (width paper) (fun _ _ => 0)) in *.
    set (mask := drawContours zeros [polygon_to_contour pg] 255) in *.
    assert (Hzeros : has_shape zeros h w)
      by (apply has_shape_zeros_like; exact Hsp).
    assert (Hmask : has_shape mask h w)
      by (apply has_shape_imap2; exact Hzeros).
    unfold where_mask. rewrite (same_shape_has_shape mask dist h w Hmask Hsd).
    cbn [bind]. rewrite Hcount.
    assert (Hno : forall y x v, get mask y x = Some v -> v = 0).
    { intros y x v Hg.
      assert (H255 : v <> 255).
      { apply count_zero_no_255 in Hcount. rewrite Forall_forall in Hcount.
        apply Hcount. apply in_flatten_get. exists y, x. exact Hg. }
      unfold mask in Hg. rewrite get_drawContours in Hg.
      unfold zeros in Hg. rewrite get_tabulate in Hg.
      destruct (_ && _); [|discriminate]. simpl in Hg.
      destruct (painted _ y x); congruence. }
    unfold np_sum. rewrite sum_zeros; [reflexivity|].
    apply Forall_forall. intros v Hv. apply in_flatten_get in Hv.
    destruct Hv as (y & x & Hg). rewrite get_imap2 in Hg.
    destruct (get dist y x) as [d|]; [|discriminate].
    simpl in Hg. injection Hg as <-.
    destruct (get mask y x) as [v|] eqn:Hm; [|reflexivity].
    rewrite (Hno y x v Hm). reflexivity. }
  split; [exact Have|].
  intros volume_mapper pix_per_cm size_thresh_list p Hp.
  unfold measure_polygon in Hp.
  destruct (polygon_mbr pg) as [[[[x y] bw] bh]|e]; [|discriminate].
  cbn [bind] in Hp.
  destruct (polygon_perimeter pg) as [L|e]; [|discriminate].
  cbn [bind] in Hp.
  destruct (AreaVolumeMap.fdiv 1 pix_per_cm) as [u|e]; [|discriminate].
  cbn [bind] in Hp.
  destruct (AreaVolumeMap.fdiv _ (pix_per_cm ^ 2)) as [a|e]; [|discriminate].
  cbn [bind] in Hp.
  destruct (eccentricity pg) as [ecc|e]; [|discriminate].
  cbn [bind] in Hp. rewrite Have in Hp. cbn [bind] in Hp.
  injection Hp as <-. split; reflexivity.
Qed.

Lemma measure_polygon_class (s : VsaProcessor)
  (volume_mapper : AreaVolumeMap.model) (pix_per_cm : Q)
  (size_thresh_list : list Q) (pg : polygon) (p : poly_props) :
  measure_polygon s volume_mapper pix_per_cm size_thresh_list pg = Ok p ->
  class p = classify (volume_ul p) size_thresh_list.
Proof.
  intros Hp. unfold measure_polygon in Hp.
  destruct (polygon_mbr pg) as [[[[x y] bw] bh]|e]; [|discriminate].
  cbn [bind] in Hp.
  destruct (polygon_perimeter pg) as [L|e]; [|discriminate].
  cbn [bind] in Hp.
  destruct (AreaVolumeMap.fdiv 1 pix_per_cm) as [u|e]; [|discriminate].
  cbn [bind] in Hp.
  destruct (AreaVolumeMap.fdiv _ (pix_per_cm ^ 2)) as [a|e]; [|discriminate].
  cbn [bind] in Hp.
  destruct (eccentricity pg) as [ecc|e]; [|discriminate].
  cbn [bind] in Hp.
  destruct (ave_dist_to_edge s pg) as [ave|e]; [|discriminate].
  cbn [bind] in Hp. injection Hp as <-. reflexivity.
Qed.

Lemma classify_none (v : Q) (size_thresh_list : list Q) :
  length size_thresh_list <> 3%nat -> classify v size_thresh_list = None.
Proof.
  intros Hlen. unfold classify.
  replace (length size_thresh_list =? 3)%nat with false
    by (symmetry; apply Nat.eqb_neq; exact Hlen).
  reflexivity.
Qed.

Lemma measure_loop_classless (s : VsaProcessor)
  (volume_mapper : AreaVolumeMap.model) (pix_per_cm : Q)
  (size_thresh_list : list Q) (polygons : list polygon) :
  length size_thresh_list <> 3%nat ->
  forall acc props,
    Forall (fun p => class p = None) acc ->
    measure_loop s volume_mapper pix_per_cm size_thresh_list polygons acc
    = Ok props ->
    Forall (fun p => class p = None) props /\
    length props = (length acc + length polygons)%nat.
Proof.
  intros Hlen. induction polygons as [|pg rest IH]; intros acc props Hacc H.
  - simpl in H. injection H as <-. split; [exact Hacc|simpl; lia].
  - simpl in H.
    destruct (measure_polygon s volume_mapper pix_per_cm size_thresh_list pg)
      as [p|e] eqn:Hp; [|discriminate].
    cbn [bind] in H.
    destruct (IH (acc ++ [p]) props) as [Hall Hcount]; [|exact H|].
    + apply Forall_app. split; [exact Hacc|]. constructor; [|constructor].
      rewrite (measure_polygon_class _ _ _ _ _ _ Hp).
      apply classify_none. exact Hlen.
    + split; [exact Hall|]. rewrite Hcount, length_app. simpl. lia.
Qed.

Lemma insert_desc_forall (P : poly_props -> Prop) (p : poly_props)
  (l : list poly_props) :
  P p -> Forall P l -> Forall P (insert_desc p l).
Proof.
  intros Hp. induction 1 as [|q t Hq Ht IH]; simpl.
  - constructor; [exact Hp|constructor].
  - destruct (Qle_bool (volume_ul q) (volume_ul p)).
    + constructor; [exact Hp|]. constructor; assumption.
    + constructor; assumption.
Qed.

Lemma insert_desc_length (p : poly_props) (l : list poly_props) :
  length (insert_desc p l) = S (length l).
Proof.
  induction l as [|q t IH]; simpl; [reflexivity|].
  destruct (Qle_bool (volume_ul q) (volume_ul p)); simpl; [|rewrite IH];
    reflexivity.
Qed.

Lemma sorted_desc_forall (P : poly_props -> Prop) (l : list poly_props) :
  Forall P l -> Forall P (sorted_desc l).
Proof.
  induction 1 as [|p t Hp Ht IH]; simpl; [constructor|].
  apply insert_desc_forall; assumption.
Qed.

Lemma sorted_desc_length (l : list poly_props) :
  length (sorted_desc l) = length l.
Proof.
  induction l as [|p t IH]; simpl; [reflexivity|].
  rewrite insert_desc_length, IH. reflexivity.
Qed.

Lemma measure_spots_keyerror (s : VsaProcessor)
  (volume_mapper : AreaVolumeMap.model) (pix_per_cm : Q)
  (size_thresh_list : list Q) (props : list poly_props) :
  length size_thresh_list <> 3%nat ->
  spot_polygons s <> [] ->
  measure_loop s volume_mapper pix_per_cm size_thresh_list
               (spot_polygons s) [] = Ok props ->
  measure_spots s volume_mapper pix_per_cm size_thresh_list = Raise KeyError.
Proof.
  intros Hlen Hne Hloop.
  destruct (measure_loop_classless s volume_mapper pix_per_cm size_thresh_list
              (spot_polygons s) Hlen [] props (Forall_nil _) Hloop)
    as [Hall Hcount].
  unfold measure_spots. rewrite Hloop. cbn [bind].
  pose proof (sorted_desc_forall _ props Hall) as Hsorted.
  pose proof (sorted_desc_length props) as Hslen.
  destruct (sorted_desc props) as [|p t].
  - destruct (spot_polygons s); [congruence|].
    simpl in Hcount, Hslen. lia.
  - inversion Hsorted as [|q l Hq Hl]; subst.
    simpl. rewrite Hq. reflexivity.
Qed.

(** C10: with a threshold list that has not exactly three entries and at
    least one spot polygon, [measure_spots] never returns an area total; the
    records it builds, one per polygon, carry no ['class'], and once they are
    all built the aggregation raises [KeyError] where it reads the first of
    them. *)
Theorem measure_spots_classless (s : VsaProcessor)
  (volume_mapper : AreaVolumeMap.model) (pix_per_cm : Q)
  (size_thresh_list : list Q) :
  length size_thresh_list <> 3%nat ->
  spot_polygons s <> [] ->
  (forall r, measure_spots s volume_mapper pix_per_cm size_thresh_list
             <> Ok r) /\
  (forall props,
     measure_loop s volume_mapper pix_per_cm size_thresh_list
                  (spot_polygons s) [] = Ok props ->
     length props = length (spot_polygons s) /\
     Forall (fun p => class p = None) props /\
     measure_spots s volume_mapper pix_per_cm size_thresh_list
     = Raise KeyError).
Proof.
  intros Hlen Hne. split.
  - intros r Hr.
    destruct (measure_loop s volume_mapper pix_per_cm size_thresh_list
                (spot_polygons s) []) as [props|e] eqn:Hloop.
    + rewrite (measure_spots_keyerror s volume_mapper pix_per_cm
                 size_thresh_list props Hlen Hne Hloop) in Hr.
      discriminate.
    + unfold measure_spots in Hr. rewrite Hloop in Hr. discriminate.
  - intros props Hloop.
    destruct (measure_loop_classless s volume_mapper pix_per_cm
                size_thresh_list (spot_polygons s) Hlen [] props
                (Forall_nil _) Hloop) as [Hall Hcount].
    split; [exact Hcount|]. split; [exact Hall|].
    exact (measure_spots_keyerror s volume_mapper pix_per_cm size_thresh_list
             props Hlen Hne Hloop).
Qed.

End Measurement.

(** The selection over the paper of the example as the one spot polygon,
    measured with a list of two thresholds. *)
Lemma measure_spots_classless_witness :
  @measure_spots example_cv2 example_ext
    (set_spot_polygons_field example_processor [paper_selection])
    (AreaVolumeMap.Model 1 0) 1 [1; 2]%Q = Raise KeyError.
Proof.
  assert (Hloop : exists props,
             @measure_loop example_cv2 example_ext
               (set_spot_polygons_field example_processor [paper_selection])
               (AreaVolumeMap.Model 1 0) 1 [1; 2]%Q [paper_selection] []
             = Ok props)
    by (eexists; reflexivity).
  destruct Hloop as [props Hloop].
  assert (Hlen : length [1; 2]%Q <> 3%nat) by (simpl; lia).
  assert (Hne : spot_polygons
                  (set_spot_polygons_field example_processor [paper_selection])
                <> []) by discriminate.
  exact (proj2 (proj2 (proj2
           (@measure_spots_classless example_cv2 example_ext
              (set_spot_polygons_field example_processor [paper_selection])
              (AreaVolumeMap.Model 1 0) 1 [1; 2]%Q Hlen Hne)
           props Hloop))).
Defined.

Lemma zero_coverage_average_witness :
  @ave_dist_to_edge example_cv2 example_outside outside_polygon = Ok NaN.
Proof.
  apply (@zero_coverage_average example_cv2 example_ext example_outside
           outside_polygon example_paper example_dist 5 5).
  - reflexivity.
  - reflexivity.
  - apply example_shape; [reflexivity|repeat constructor].
  - apply example_shape; [reflexivity|repeat constructor].
  - vm_compute. reflexivity.
Defined.

(** C5 as stated fails on a polygon that lies outside the image: no pixel is
    covered, the division [0/0] is performed, and [measure_spots] returns its
    total as usual with the NaN in the record. *)
Lemma zero_coverage_divides :
  count_255 (@drawContours example_cv2
               (tabulate 5 5 (fun _ _ => 0))
               [polygon_to_contour outside_polygon] 255) = 0 /\
  spot_polygons example_outside = [outside_polygon] /\
  @ave_dist_to_edge example_cv2 example_outside outside_polygon = Ok NaN /\
  exists area s' p,
    @measure_spots example_cv2 example_ext example_outside
      (AreaVolumeMap.Model 1 0) 1 [1; 2; 3]%Q = Ok (area, s') /\
    spot_polygon_properties s' = [p] /\
    ave_dist_to_edge_pix p = NaN /\ ave_dist_to_edge_cm p = NaN.
Proof.
  split; [vm_compute; reflexivity|]. split; [reflexivity|].
  split; [vm_compute; reflexivity|].
  do 3 eexists. split; [reflexivity|]. split; [reflexivity|].
  split; reflexivity.
Qed.

(** ** Further properties of polygon_tools.py *)

Section PolygonPerimeter.

Lemma edge_length_sym (p q : point) : edge_length p q = edge_length q p.
Proof.
  unfold edge_length. cbv zeta. f_equal. f_equal. ring.
Qed.

Lemma edge_length_nonneg (p q : point) : (0 <= edge_length p q)%R.
Proof. unfold edge_length. cbv zeta. apply sqrt_pos. Qed.

Lemma edge_length_same (p : point) : edge_length p p = 0%R.
Proof.
  unfold edge_length. cbv zeta.
  replace ((px p - px p) * (px p - px p) + (py p - py p) * (py p - py p))
    with 0 by ring.
  apply sqrt_0.
Qed.

Lemma perimeter_loop_acc (l : polygon) :
  forall acc, perimeter_loop acc l = (acc + perimeter_loop 0 l)%R.
Proof.
  induction l as [|p l IH]; intros acc; simpl.
  - ring.
  - destruct l as [|q t]; [ring|].
    rewrite (IH (acc + edge_length p q)%R), (IH (0 + edge_length p q)%R). ring.
Qed.

Lemma perimeter_loop_cons (p q : point) (t : polygon) :
  perimeter_loop 0 (p :: q :: t)
  = (edge_length p q + perimeter_loop 0 (q :: t))%R.
Proof.
  change (perimeter_loop 0 (p :: q :: t))
    with (perimeter_loop (0 + edge_length p q) (q :: t)).
  rewrite perimeter_loop_acc. ring.
Qed.

Lemma perimeter_loop_nonneg (l : polygon) : (0 <= perimeter_loop 0 l)%R.
Proof.
  induction l as [|p l IH]; [simpl; lra|].
  destruct l as [|q t]; [simpl; lra|].
  rewrite perimeter_loop_cons. pose proof (edge_length_nonneg p q). lra.
Qed.

Lemma perimeter_loop_snoc (t : polygon) (a d : point) :
  t <> [] ->
  perimeter_loop 0 (t ++ [a])
  = (perimeter_loop 0 t + edge_length (last t d) a)%R.
Proof.
  induction t as [|p t IH]; intros Hne; [congruence|].
  destruct t as [|q t].
  - simpl. ring.
  - change ((p :: q :: t) ++ [a]) with (p :: q :: (t ++ [a])).
    rewrite !perimeter_loop_cons.
    change (q :: t ++ [a]) with ((q :: t) ++ [a]).
    rewrite IH by discriminate.
    change (last (p :: q :: t) d) with (last (q :: t) d). ring.
Qed.

Lemma perimeter_cons (b : point) (r : polygon) :
  polygon_perimeter (b :: r)
  = Ok (perimeter_loop 0 (b :: r) + edge_length (last (b :: r) b) b)%R.
Proof. reflexivity. Qed.

Lemma perimeter_rotate1 (a : point) (t : polygon) :
  polygon_perimeter (t ++ [a]) = polygon_perimeter (a :: t).
Proof.
  destruct t as [|b t]; [reflexivity|].
  change ((b :: t) ++ [a]) with (b :: (t ++ [a])).
  rewrite !perimeter_cons. f_equal.
  change (b :: t ++ [a]) with ((b :: t) ++ [a]).
  rewrite last_snoc, (perimeter_loop_snoc (b :: t) a a) by discriminate.
  rewrite perimeter_loop_cons.
  change (last (a :: b :: t) a) with (last (b :: t) a). ring.
Qed.

Lemma perimeter_rotate (k : nat) :
  forall l, polygon_perimeter (rotate k l) = polygon_perimeter l.
Proof.
  induction k as [|k IH]; intros l.
  - unfold rotate. simpl. rewrite app_nil_r. reflexivity.
  - destruct l as [|a t]; [reflexivity|].
    destruct (Nat.le_gt_cases k (length t)) as [Hk|Hk].
    + rewrite rotate_step, IH by exact Hk. apply perimeter_rotate1.
    + rewrite rotate_all by (simpl; lia). reflexivity.
Qed.

Lemma perimeter_loop_rev (l : polygon) :
  perimeter_loop 0 (rev l) = perimeter_loop 0 l.
Proof.
  induction l as [|a t IH]; [reflexivity|].
  destruct t as [|b t]; [reflexivity|].
  change (rev (a :: b :: t)) with (rev (b :: t) ++ [a]).
  rewrite (perimeter_loop_snoc _ a a).
  - rewrite IH, perimeter_loop_cons.
    change (rev (b :: t)) with (rev t ++ [b]).
    rewrite last_snoc, (edge_length_sym a b). ring.
  - simpl. intros E. apply app_eq_nil in E. destruct E; discriminate.
Qed.

Lemma perimeter_rev (l : polygon) :
  polygon_perimeter (rev l) = polygon_perimeter l.
Proof.
  destruct l as [|a t]; [reflexivity|].
  destruct (hd_rev a t) as [r Hr].
  rewrite Hr, perimeter_cons, <- Hr.
  rewrite perimeter_loop_rev, last_rev, perimeter_cons.
  rewrite (edge_length_sym a (last (a :: t) a)). reflexivity.
Qed.

(** X1: the perimeter does not depend on the vertex the traversal starts
    from nor on its direction, and it is never negative; the empty list
    raises [IndexError] in whatever order. *)
Theorem polygon_perimeter_rotate_rev (pt_list : polygon) (k : nat) :
  polygon_perimeter (rotate k pt_list) = polygon_perimeter pt_list /\
  polygon_perimeter (rev pt_list) = polygon_perimeter pt_list /\
  (polygon_perimeter pt_list = Raise IndexError <-> pt_list = []) /\
  (forall L, polygon_perimeter pt_list = Ok L -> (0 <= L)%R).
Proof.
  split; [apply perimeter_rotate|]. split; [apply perimeter_rev|]. split.
  - destruct pt_list as [|a t]; [split; reflexivity|].
    split; [discriminate|discriminate].
  - intros L HL. destruct pt_list as [|a t]; [discriminate|].
    rewrite perimeter_cons in HL.
    assert (HL' : L = (perimeter_loop 0 (a :: t)
                       + edge_length (last (a :: t) a) a)%R) by congruence.
    rewrite HL'.
    apply Rplus_le_le_0_compat;
      [apply perimeter_loop_nonneg|apply edge_length_nonneg].
Qed.

End PolygonPerimeter.

Section PolygonSignedArea.

Lemma polygon_signed_area_rotate (k : nat) (l : polygon) :
  polygon_signed_area (rotate k l) == polygon_signed_area l.
Proof. rewrite !polygon_signed_area_cyclic, cyclic_sum_rotate. reflexivity. Qed.

(** X2: the signed area keeps its value when the traversal starts from
    another vertex and changes sign when the traversal is reversed; twice
    the signed area is the integer shoelace sum over the closed polygon, and
    fewer than three points give 0. *)
Theorem polygon_signed_area_rotate_rev (pt_list : polygon) (k : nat) :
  polygon_signed_area (rotate k pt_list) == polygon_signed_area pt_list /\
  polygon_signed_area (rev pt_list) == - polygon_signed_area pt_list /\
  polygon_signed_area pt_list == inject_Z (cyclic_sum pt_list) / 2 /\
  ((length pt_list < 3)%nat -> polygon_signed_area pt_list = 0%Q).
Proof.
  split; [apply polygon_signed_area_rotate|]. split; [|split].
  - rewrite !polygon_signed_area_cyclic, cyclic_sum_rev, inject_Z_opp. field.
  - apply polygon_signed_area_cyclic.
  - intros Hlen. unfold polygon_signed_area.
    replace (length pt_list <? 3)%nat with true
      by (symmetry; apply Nat.ltb_lt; exact Hlen).
    reflexivity.
Qed.

Lemma shoelace_loop_app (l1 l2 : polygon) (d : point) :
  l1 <> [] ->
  shoelace_loop 0 (l1 ++ l2)
  = shoelace_loop 0 l1 + shoelace_loop 0 (last l1 d :: l2).
Proof.
  induction l1 as [|p l1 IH]; intros Hne; [congruence|].
  destruct l1 as [|q t].
  - simpl. lia.
  - change ((p :: q :: t) ++ l2) with (p :: q :: (t ++ l2)).
    rewrite !shoelace_loop_cons.
    change (q :: t ++ l2) with ((q :: t) ++ l2).
    rewrite IH by discriminate.
    change (last (p :: q :: t) d) with (last (q :: t) d). lia.
Qed.

Lemma last_app_cons (l1 : polygon) (x : point) (l2 : polygon) (d : point) :
  last (l1 ++ x :: l2) d = last (x :: l2) d.
Proof.
  induction l1 as [|p l1 IH]; [reflexivity|].
  change ((p :: l1) ++ x :: l2) with (p :: (l1 ++ x :: l2)).
  destruct (l1 ++ x :: l2) as [|y r] eqn:E.
  - destruct l1; discriminate.
  - change (last (p :: y :: r) d) with (last (y :: r) d). exact IH.
Qed.

Lemma out_and_back_cyclic_sum (path : polygon) :
  cyclic_sum (out_and_back path) = 0.
Proof.
  destruct path as [|a t]; [reflexivity|].
  destruct (hd_rev a t) as [r Hr]. unfold out_and_back. rewrite Hr.
  cbn [tl]. change ((a :: t) ++ r) with (a :: (t ++ r)).
  rewrite cyclic_sum_cons.
  change (a :: t ++ r) with ((a :: t) ++ r).
  rewrite (shoelace_loop_app (a :: t) r a) by discriminate.
  rewrite <- Hr, shoelace_loop_rev.
  assert (Hlast : last ((a :: t) ++ r) a = a).
  { destruct r as [|x r].
    - rewrite app_nil_r.
      assert (Hlen : length (rev (a :: t)) = 1%nat) by (rewrite Hr; reflexivity).
      rewrite length_rev in Hlen. destruct t; [reflexivity|discriminate].
    - rewrite last_app_cons.
      pose proof (last_rev a a t) as Hl. rewrite Hr in Hl.
      change (last (last (a :: t) a :: x :: r) a) with (last (x :: r) a) in Hl.
      exact Hl. }
  rewrite Hlast, (shoelace_term_same a a) by reflexivity. lia.
Qed.

(** X3: a path walked to its end and back along the same vertices encloses
    nothing: its area is 0 and, for a path with at least one vertex, so is
    its circularity (the case of the repository's test [circularity_002]). *)
Theorem out_and_back_circularity (path : polygon) :
  path <> [] ->
  polygon_area (out_and_back path) == 0 /\
  circularity (out_and_back path) = Ok 0%R.
Proof.
  intros Hne.
  assert (Harea : polygon_area (out_and_back path) == 0).
  { rewrite polygon_area_cyclic, out_and_back_cyclic_sum. reflexivity. }
  split; [exact Harea|].
  unfold circularity.
  destruct (polygon_perimeter (out_and_back path)) as [L|e] eqn:HL.
  - cbn [bind]. destruct (Rle_dec L 0) as [_|Hpos]; [reflexivity|].
    f_equal. rewrite (Qeq_eqR _ _ Harea).
    replace (Q2R 0) with 0%R by (unfold Q2R; simpl; lra).
    unfold Rdiv. ring.
  - destruct path as [|a t]; [congruence|]. discriminate.
Qed.

Lemma out_and_back_circularity_witness :
  circularity [(0, 0); (100, 0); (100, 100); (100, 0); (0, 0)] = Ok 0%R.
Proof.
  apply (proj2 (out_and_back_circularity [(0, 0); (100, 0); (100, 100)]
                  ltac:(discriminate))).
Defined.

End PolygonSignedArea.

Section PolygonTranslation.

Variables dx dy : Z.

Let move (p : point) : point := (px p + dx, py p + dy).

Lemma shift_cons (p : point) (l : polygon) :
  shift dx dy (p :: l) = move p :: shift dx dy l.
Proof. reflexivity. Qed.

Lemma last_shift (l : polygon) (d : point) :
  last (shift dx dy l) (move d) = move (last l d).
Proof.
  induction l as [|p l IH]; [reflexivity|].
  destruct l as [|q t]; [reflexivity|].
  rewrite !shift_cons.
  change (last (move p :: move q :: shift dx dy t) (move d))
    with (last (shift dx dy (q :: t)) (move d)).
  rewrite IH. reflexivity.
Qed.

Lemma shoelace_term_move (p q : point) :
  shoelace_term (move p) (move q)
  = shoelace_term p q + dy * (px q - px p) - dx * (py q - py p).
Proof. unfold shoelace_term, move, px, py. cbn [fst snd]. ring. Qed.

Lemma shoelace_loop_shift (l : polygon) (d : point) :
  shoelace_loop 0 (shift dx dy l)
  = shoelace_loop 0 l
    + dy * (px (last l d) - px (hd d l)) - dx * (py (last l d) - py (hd d l)).
Proof.
  induction l as [|p l IH]; [simpl; ring|].
  destruct l as [|q t]; [simpl; ring|].
  rewrite !shift_cons, !shoelace_loop_cons, <- shift_cons, IH.
  rewrite shoelace_term_move.
  change (last (p :: q :: t) d) with (last (q :: t) d).
  cbn [hd]. ring.
Qed.

Lemma cyclic_sum_shift (l : polygon) :
  cyclic_sum (shift dx dy l) = cyclic_sum l.
Proof.
  destruct l as [|a t]; [reflexivity|].
  rewrite shift_cons, cyclic_sum_cons, <- shift_cons.
  rewrite (shoelace_loop_shift (a :: t) a).
  change (move a) with (move a) at 1.
  rewrite (last_shift (a :: t) a), shoelace_term_move, cyclic_sum_cons.
  cbn [hd]. ring.
Qed.

Lemma edge_length_move (p q : point) :
  edge_length (move p) (move q) = edge_length p q.
Proof.
  unfold edge_length, move, px, py. cbv zeta. cbn [fst snd].
  f_equal. f_equal. ring.
Qed.

Lemma perimeter_loop_shift (l : polygon) :
  perimeter_loop 0 (shift dx dy l) = perimeter_loop 0 l.
Proof.
  induction l as [|p l IH]; [reflexivity|].
  destruct l as [|q t]; [reflexivity|].
  rewrite !shift_cons, !perimeter_loop_cons, <- shift_cons, IH.
  rewrite edge_length_move. reflexivity.
Qed.

Lemma perimeter_shift (l : polygon) :
  polygon_perimeter (shift dx dy l) = polygon_perimeter l.
Proof.
  destruct l as [|a t]; [reflexivity|].
  rewrite shift_cons, perimeter_cons, <- shift_cons.
  rewrite perimeter_loop_shift, (last_shift (a :: t) a), edge_length_move.
  reflexivity.
Qed.

Lemma polygon_area_shift (l : polygon) :
  polygon_area (shift dx dy l) == polygon_area l.
Proof. rewrite !polygon_area_cyclic, cyclic_sum_shift. reflexivity. Qed.

Lemma fold_min_shift (t : list Z) :
  forall a,
    fold_left Z.min (map (fun v => v + dx) t) (a + dx)
    = fold_left Z.min t a + dx.
Proof.
  induction t as [|b t IH]; intros a; simpl; [reflexivity|].
  rewrite Z.add_min_distr_r. apply IH.
Qed.

Lemma fold_max_shift (t : list Z) :
  forall a,
    fold_left Z.max (map (fun v => v + dx) t) (a + dx)
    = fold_left Z.max t a + dx.
Proof.
  induction t as [|b t IH]; intros a; simpl; [reflexivity|].
  rewrite Z.add_max_distr_r. apply IH.
Qed.

End PolygonTranslation.

Lemma polygon_mbr_shift (dx dy : Z) (pg : polygon) :
  polygon_mbr (shift dx dy pg)
  = (mbr <- polygon_mbr pg ;;
     let '(x, y, w, h) := mbr in Ok (x + dx, y + dy, w, h)).
Proof.
  destruct pg as [|a t]; [reflexivity|].
  unfold polygon_mbr, shift. cbn [map py_min py_max bind].
  rewrite !map_map. cbn [px py fst snd].
  rewrite <- (map_map px (fun v => v + dx)), <- (map_map py (fun v => v + dy)).
  rewrite fold_min_shift, fold_max_shift, fold_min_shift, fold_max_shift.
  f_equal. f_equal; [f_equal|]; ring.
Qed.

(** X4: moving a polygon by [(dx, dy)] moves its bounding rectangle by as
    much and leaves its size, the signed and unsigned area, the perimeter
    and the circularity as they are. *)
Theorem measurements_shift (dx dy : Z) (pg : polygon) :
  polygon_signed_area (shift dx dy pg) == polygon_signed_area pg /\
  polygon_area (shift dx dy pg) == polygon_area pg /\
  polygon_perimeter (shift dx dy pg) = polygon_perimeter pg /\
  circularity (shift dx dy pg) = circularity pg /\
  polygon_mbr (shift dx dy pg)
  = (mbr <- polygon_mbr pg ;;
     let '(x, y, w, h) := mbr in Ok (x + dx, y + dy, w, h)).
Proof.
  split; [|split; [|split; [|split]]].
  - rewrite !polygon_signed_area_cyclic, cyclic_sum_shift. reflexivity.
  - apply polygon_area_shift.
  - apply perimeter_shift.
  - unfold circularity. rewrite perimeter_shift.
    destruct (polygon_perimeter pg) as [L|e]; [|reflexivity].
    cbn [bind]. destruct (Rle_dec L 0); [reflexivity|].
    rewrite (Qeq_eqR _ _ (polygon_area_shift dx dy pg)). reflexivity.
  - apply polygon_mbr_shift.
Qed.

Section BoundingRectangle.

Lemma polygon_mbr_cons (a : point) (t : polygon) :
  polygon_mbr (a :: t)
  = Ok (fold_left Z.min (map px t) (px a),
        fold_left Z.min (map py t) (py a),
        fold_left Z.max (map px t) (px a) - fold_left Z.min (map px t) (px a) + 1,
        fold_left Z.max (map py t) (py a) - fold_left Z.min (map py t) (py a) + 1).
Proof. reflexivity. Qed.

Lemma polygon_mbr_holds (pg : polygon) (x y w h : Z) :
  polygon_mbr pg = Ok (x, y, w, h) ->
  1 <= w /\ 1 <= h /\
  forall p, In p pg -> x <= px p <= x + w - 1 /\ y <= py p <= y + h - 1.
Proof.
  intros H. destruct pg as [|a t]; [discriminate|].
  rewrite polygon_mbr_cons in H. injection H as Hx Hy Hw Hh.
  destruct (fold_min_spec (map px t) (px a)) as [_ Hxmin].
  destruct (fold_max_spec (map px t) (px a)) as [_ Hxmax].
  destruct (fold_min_spec (map py t) (py a)) as [_ Hymin].
  destruct (fold_max_spec (map py t) (py a)) as [_ Hymax].
  rewrite Hx in *. rewrite Hy in *.
  change (px a :: map px t) with (map px (a :: t)) in *.
  change (py a :: map py t) with (map py (a :: t)) in *.
  rewrite Forall_forall in Hxmin, Hxmax, Hymin, Hymax.
  assert (Hin : forall p, In p (a :: t) ->
                  x <= px p <= x + w - 1 /\ y <= py p <= y + h - 1).
  { intros p Hp.
    pose proof (Hxmin _ (in_map px _ _ Hp)).
    pose proof (Hxmax _ (in_map px _ _ Hp)).
    pose proof (Hymin _ (in_map py _ _ Hp)).
    pose proof (Hymax _ (in_map py _ _ Hp)). lia. }
  destruct (Hin a (or_introl eq_refl)) as [Hax Hay].
  split; [lia|]. split; [lia|]. exact Hin.
Qed.

(** X5: [polygon_mbr] raises [ValueError] exactly on the empty list;
    otherwise the rectangle is at least 1 by 1, every vertex lies within its
    inclusive bounds [x .. x+w-1], [y .. y+h-1], and each of the four bounds
    is the coordinate of some vertex. *)
Theorem polygon_mbr_bounds (pg : polygon) :
  (polygon_mbr pg = Raise ValueError <-> pg = []) /\
  (forall x y w h,
     polygon_mbr pg = Ok (x, y, w, h) ->
     1 <= w /\ 1 <= h /\
     (forall p, In p pg ->
                x <= px p <= x + w - 1 /\ y <= py p <= y + h - 1) /\
     (exists p, In p pg /\ px p = x) /\
     (exists p, In p pg /\ px p = x + w - 1) /\
     (exists p, In p pg /\ py p = y) /\
     (exists p, In p pg /\ py p = y + h - 1)).
Proof.
  split.
  - destruct pg as [|a t]; [split; reflexivity|].
    rewrite polygon_mbr_cons. split; discriminate.
  - intros x y w h H. destruct pg as [|a t]; [discriminate|].
    rewrite polygon_mbr_cons in H. injection H as Hx Hy Hw Hh.
    destruct (fold_min_spec (map px t) (px a)) as [Hxmin_in Hxmin].
    destruct (fold_max_spec (map px t) (px a)) as [Hxmax_in Hxmax].
    destruct (fold_min_spec (map py t) (py a)) as [Hymin_in Hymin].
    destruct (fold_max_spec (map py t) (py a)) as [Hymax_in Hymax].
    rewrite Hx in *. rewrite Hy in *.
    change (px a :: map px t) with (map px (a :: t)) in *.
    change (py a :: map py t) with (map py (a :: t)) in *.
    rewrite Forall_forall in Hxmin, Hxmax, Hymin, Hymax.
    assert (Hin : forall p, In p (a :: t) ->
                    x <= px p <= x + w - 1 /\ y <= py p <= y + h - 1).
    { intros p Hp.
      pose proof (Hxmin _ (in_map px _ _ Hp)).
      pose proof (Hxmax _ (in_map px _ _ Hp)).
      pose proof (Hymin _ (in_map py _ _ Hp)).
      pose proof (Hymax _ (in_map py _ _ Hp)). lia. }
    destruct (Hin a (or_introl eq_refl)) as [Hax Hay].
    split; [lia|]. split; [lia|]. split; [exact Hin|].
    apply in_map_iff in Hxmin_in, Hxmax_in, Hymin_in, Hymax_in.
    destruct Hxmin_in as (p1 & H1 & Hp1), Hxmax_in as (p2 & H2 & Hp2),
             Hymin_in as (p3 & H3 & Hp3), Hymax_in as (p4 & H4 & Hp4).
    split; [exists p1; split; [exact Hp1|exact H1]|].
    split; [exists p2; split; [exact Hp2|lia]|].
    split; [exists p3; split; [exact Hp3|exact H3]|].
    exists p4. split; [exact Hp4|lia].
Qed.

Lemma polygon_mbr_bounds_witness :
  Forall (fun p => 3 <= px p <= 3 + 3 - 1 /\ 2 <= py p <= 2 + 8 - 1)
         [(3, 7); (5, 2); (4, 9)].
Proof.
  apply Forall_forall.
  exact (proj1 (proj2 (proj2
           (proj2 (polygon_mbr_bounds [(3, 7); (5, 2); (4, 9)]) 3 2 3 8
              eq_refl)))).
Defined.

(** X6: [point_in_polygon_mbr] raises [ValueError] on the empty polygon;
    otherwise it answers [True] exactly for the points with
    [x <= pt[0] <= x+w] and [y <= pt[1] <= y+h]: every vertex is accepted,
    and so is the corner [(x+w, y+h)], one pixel beyond the largest
    coordinates of the polygon. *)
Theorem point_in_polygon_mbr_spec (pt : point) (pg : polygon) :
  (point_in_polygon_mbr pt pg = Raise ValueError <-> pg = []) /\
  (forall x y w h,
     polygon_mbr pg = Ok (x, y, w, h) ->
     (point_in_polygon_mbr pt pg = Ok true <->
      x <= px pt <= x + w /\ y <= py pt <= y + h) /\
     (point_in_polygon_mbr pt pg = Ok true \/
      point_in_polygon_mbr pt pg = Ok false) /\
     (forall p, In p pg -> point_in_polygon_mbr p pg = Ok true) /\
     point_in_polygon_mbr (x + w, y + h) pg = Ok true /\
     (forall p, In p pg -> px p < x + w /\ py p < y + h)).
Proof.
  assert (Hspec : forall q x y w h,
             polygon_mbr pg = Ok (x, y, w, h) ->
             point_in_polygon_mbr q pg
             = Ok ((x <=? px q) && (px q <=? x + w)
                   && (y <=? py q) && (py q <=? y + h))).
  { intros q x y w h H. unfold point_in_polygon_mbr. rewrite H. cbn [bind].
    destruct (px q <? x) eqn:H1; destruct (x + w <? px q) eqn:H2;
      destruct (py q <? y) eqn:H3; destruct (y + h <? py q) eqn:H4;
      cbn [orb]; f_equal; symmetry;
      rewrite ?Z.ltb_lt, ?Z.ltb_ge in *;
      repeat rewrite andb_true_iff || rewrite andb_false_iff;
      rewrite ?Z.leb_le, ?Z.leb_gt; lia. }
  split.
  - destruct pg as [|a t]; [split; reflexivity|].
    unfold point_in_polygon_mbr. rewrite polygon_mbr_cons. cbn [bind].
    split; [|discriminate].
    destruct (_ || _); [discriminate|]. destruct (_ || _); discriminate.
  - intros x y w h H.
    destruct (polygon_mbr_holds pg x y w h H) as (Hw & Hh & Hin).
    split; [|split; [|split; [|split]]].
    + rewrite (Hspec pt x y w h H). split.
      * intros E. injection E as E. rewrite !andb_true_iff, !Z.leb_le in E. lia.
      * intros E. f_equal. rewrite !andb_true_iff, !Z.leb_le. lia.
    + rewrite (Hspec pt x y w h H). destruct (_ && _); [left|right]; reflexivity.
    + intros p Hp. rewrite (Hspec p x y w h H). f_equal.
      destruct (Hin p Hp). rewrite !andb_true_iff, !Z.leb_le. lia.
    + rewrite (Hspec _ x y w h H). f_equal. unfold px, py. cbn [fst snd].
      rewrite !andb_true_iff, !Z.leb_le. lia.
    + intros p Hp. destruct (Hin p Hp). lia.
Qed.

Lemma point_in_polygon_mbr_spec_witness :
  point_in_polygon_mbr (6, 10) [(3, 7); (5, 2); (4, 9)] = Ok true.
Proof.
  exact (proj1 (proj2 (proj2 (proj2
           (proj2 (point_in_polygon_mbr_spec (0, 0) [(3, 7); (5, 2); (4, 9)])
              3 2 3 8 eq_refl))))).
Defined.

End BoundingRectangle.

Section PolygonCenter.

Lemma py_sum_acc (l : list Z) :
  forall acc, fold_left Z.add l acc = acc + py_sum l.
Proof.
  unfold py_sum. induction l as [|v t IH]; intros acc; simpl; [lia|].
  rewrite (IH (acc + v)), (IH v). lia.
Qed.

Lemma py_sum_bounds (lo hi : Z) (l : list Z) :
  Forall (fun v => lo <= v <= hi) l ->
  lo * Z.of_nat (length l) <= py_sum l <= hi * Z.of_nat (length l).
Proof.
  induction 1 as [|v t Hv Ht IH].
  - unfold py_sum. simpl. lia.
  - unfold py_sum in *. cbn [fold_left length].
    rewrite py_sum_acc. unfold py_sum. lia.
Qed.

Lemma mean_bounds (lo hi s n : Z) :
  0 < n -> lo * n <= s <= hi * n ->
  (inject_Z lo <= inject_Z s / inject_Z n <= inject_Z hi)%Q.
Proof.
  intros Hn [Hlo Hhi].
  assert (Hnq : (0 < inject_Z n)%Q) by (rewrite <- (Zlt_Qlt 0); exact Hn).
  split.
  - apply Qle_shift_div_l; [exact Hnq|].
    rewrite <- inject_Z_mult, <- Zle_Qle. exact Hlo.
  - apply Qle_shift_div_r; [exact Hnq|].
    rewrite <- inject_Z_mult, <- Zle_Qle. exact Hhi.
Qed.

(** X7: [polygon_center] returns [None] exactly on the empty list; the
    centre of a non-empty polygon lies within the inclusive bounds of its
    bounding rectangle. *)
Theorem polygon_center_in_mbr (pg : polygon) :
  (polygon_center pg = None <-> pg = []) /\
  (forall x y w h,
     polygon_mbr pg = Ok (x, y, w, h) ->
     exists cx cy,
       polygon_center pg = Some (cx, cy) /\
       (inject_Z x <= cx <= inject_Z (x + w - 1))%Q /\
       (inject_Z y <= cy <= inject_Z (y + h - 1))%Q).
Proof.
  split.
  - destruct pg; [split; reflexivity|]. split; discriminate.
  - intros x y w h H.
    destruct (polygon_mbr_holds pg x y w h H) as (_ & _ & Hin).
    destruct pg as [|a t]; [discriminate|].
    do 2 eexists. split; [reflexivity|].
    assert (Hn : 0 < Z.of_nat (length (a :: t))) by (simpl; lia).
    split.
    + apply mean_bounds; [exact Hn|].
      rewrite <- (length_map px (a :: t)). apply py_sum_bounds.
      apply Forall_forall. intros v Hv. apply in_map_iff in Hv.
      destruct Hv as (p & <- & Hp). apply (Hin p Hp).
    + apply mean_bounds; [exact Hn|].
      rewrite <- (length_map py (a :: t)). apply py_sum_bounds.
      apply Forall_forall. intros v Hv. apply in_map_iff in Hv.
      destruct Hv as (p & <- & Hp). apply (Hin p Hp).
Qed.

Lemma polygon_center_in_mbr_witness :
  exists cx cy,
    polygon_center [(3, 7); (5, 2); (4, 9)] = Some (cx, cy) /\
    (inject_Z 3 <= cx <= inject_Z (3 + 3 - 1))%Q /\
    (inject_Z 2 <= cy <= inject_Z (2 + 8 - 1))%Q.
Proof.
  exact (proj2 (polygon_center_in_mbr [(3, 7); (5, 2); (4, 9)]) 3 2 3 8
           eq_refl).
Defined.

End PolygonCenter.

Section LargestPolygon.

Lemma polygon_area_nonneg (pg : polygon) : (0 <= polygon_area pg)%Q.
Proof. rewrite polygon_area_abs. apply Qabs_nonneg. Qed.

Lemma largest_loop_spec (l : list polygon) :
  forall idx m mi,
    (largest_loop l idx m mi = mi /\
     Forall (fun pg => polygon_area pg <= m)%Q l) \/
    (exists j,
       (j < length l)%nat /\
       largest_loop l idx m mi = idx + Z.of_nat j /\
       (m < polygon_area (nth j l []))%Q /\
       Forall (fun pg => polygon_area pg <= polygon_area (nth j l []))%Q l /\
       forall i, (i < j)%nat ->
                 (polygon_area (nth i l []) < polygon_area (nth j l []))%Q).
Proof.
  induction l as [|pg rest IH]; intros idx m mi.
  - left. split; [reflexivity|constructor].
  - cbn [largest_loop]. cbv zeta.
    destruct (Qlt_le_dec m (polygon_area pg)) as [Hlt|Hle].
    + destruct (IH (idx + 1) (polygon_area pg) idx)
        as [[Hr Hall]|(j & Hj & Hr & Hm & Hall & Hfirst)].
      * right. exists 0%nat. split; [simpl; lia|].
        split; [rewrite Hr; simpl; lia|]. split; [exact Hlt|].
        split; [constructor; [apply Qle_refl|exact Hall]|].
        intros i Hi. lia.
      * right. exists (S j). split; [simpl; lia|].
        split; [rewrite Hr; lia|]. cbn [nth].
        split; [eapply Qlt_trans; eassumption|].
        split; [constructor; [apply Qlt_le_weak; exact Hm|exact Hall]|].
        intros i Hi. destruct i as [|i]; [exact Hm|].
        cbn [nth]. apply Hfirst. lia.
    + destruct (IH (idx + 1) m mi)
        as [[Hr Hall]|(j & Hj & Hr & Hm & Hall & Hfirst)].
      * left. split; [exact Hr|]. constructor; assumption.
      * right. exists (S j). split; [simpl; lia|].
        split; [rewrite Hr; lia|]. cbn [nth].
        split; [exact Hm|].
        split; [constructor;
                [apply Qlt_le_weak; eapply Qle_lt_trans; eassumption
                |exact Hall]|].
        intros i Hi. destruct i as [|i];
          [cbn [nth]; eapply Qle_lt_trans; eassumption|].
        cbn [nth]. apply Hfirst. lia.
Qed.

(** X8: [largest_polygon] returns -1 for [None] and for the empty list;
    otherwise it returns the first index at which the largest unsigned area
    of the list is reached ([largest_contour] likewise, on the contours'
    point lists). *)
Theorem largest_polygon_first_max (polygons : list polygon) :
  largest_polygon None = -1 /\
  largest_contour None = -1 /\
  largest_contour (Some polygons) = largest_polygon (Some polygons) /\
  (polygons = [] -> largest_polygon (Some polygons) = -1) /\
  (polygons <> [] ->
   exists j,
     largest_polygon (Some polygons) = Z.of_nat j /\
     (j < length polygons)%nat /\
     (forall pg, In pg polygons ->
                 (polygon_area pg <= polygon_area (nth j polygons []))%Q) /\
     (forall i, (i < j)%nat ->
                (polygon_area (nth i polygons [])
                 < polygon_area (nth j polygons []))%Q)).
Proof.
  split; [reflexivity|]. split; [reflexivity|]. split; [|split].
  - unfold largest_contour, Vsa.contour_to_polygon. rewrite map_id.
    reflexivity.
  - intros ->. reflexivity.
  - intros Hne. destruct polygons as [|pg rest]; [congruence|].
    unfold largest_polygon.
    replace (length (pg :: rest) <=? 0)%nat with false by reflexivity.
    destruct (largest_loop_spec (pg :: rest) 0 0%Q 0)
      as [[Hr Hall]|(j & Hj & Hr & _ & Hall & Hfirst)].
    + exists 0%nat. split; [exact Hr|]. split; [simpl; lia|]. split.
      * intros q Hq. rewrite Forall_forall in Hall.
        eapply Qle_trans; [apply (Hall q Hq)|apply polygon_area_nonneg].
      * intros i Hi. lia.
    + exists j. split; [rewrite Hr; lia|]. split; [exact Hj|].
      split; [rewrite Forall_forall in Hall; exact Hall|exact Hfirst].
Qed.

Lemma largest_polygon_first_max_witness :
  exists j,
    largest_polygon (Some [square 0 0 2; square 5 5 3; square 1 1 3])
    = Z.of_nat j /\ (j < 3)%nat.
Proof.
  destruct (proj2 (proj2 (proj2 (proj2
              (largest_polygon_first_max
                 [square 0 0 2; square 5 5 3; square 1 1 3]))))
              ltac:(discriminate)) as (j & Hj & Hlt & _).
  exists j. split; [exact Hj|exact Hlt].
Defined.

End LargestPolygon.

Section Smoothing.

Lemma last_in_polygon (a d : point) (l : polygon) :
  In (last (a :: l) d) (a :: l).
Proof.
  revert a. induction l as [|b t IH]; intros a.
  - left. reflexivity.
  - right. apply (IH b).
Qed.

Lemma all_equal_lists (l1 l2 : polygon) (d : point) :
  length l1 = length l2 ->
  (forall p, In p l1 -> p = d) ->
  (forall p, In p l2 -> p = d) ->
  l1 = l2.
Proof.
  revert l2. induction l1 as [|a t IH]; intros [|b r] Hlen H1 H2;
    try discriminate; [reflexivity|].
  rewrite (H1 a (or_introl eq_refl)), (H2 b (or_introl eq_refl)).
  f_equal. apply IH.
  - simpl in Hlen. lia.
  - intros p Hp. apply H1. right. exact Hp.
  - intros p Hp. apply H2. right. exact Hp.
Qed.

Lemma smooth_coord_bounds (lo hi a b c : Z) :
  lo <= a <= hi -> lo <= b <= hi -> lo <= c <= hi ->
  lo <= smooth_coord a b c <= hi.
Proof.
  intros Ha Hb Hc. unfold smooth_coord.
  pose proof (Z.quot_rem' (a + b + c) 3) as Hqr.
  destruct (Z.le_gt_cases 0 (a + b + c)) as [Hpos|Hneg].
  - pose proof (Z.rem_bound_pos (a + b + c) 3 Hpos ltac:(lia)). lia.
  - pose proof (Z.rem_bound_abs (a + b + c) 3 ltac:(lia)).
    pose proof (Z.rem_nonpos (a + b + c) 3 ltac:(lia) ltac:(lia)). lia.
Qed.

Lemma smooth_loop_cons (prev cur next : point) (rest : polygon) :
  smooth_loop prev (cur :: next :: rest)
  = (smooth_coord (px prev) (px cur) (px next),
     smooth_coord (py prev) (py cur) (py next))
    :: smooth_loop (smooth_coord (px prev) (px cur) (px next),
                    smooth_coord (py prev) (py cur) (py next))
                   (next :: rest).
Proof. reflexivity. Qed.

Lemma smooth_loop_length (pg : polygon) :
  forall prev, length (smooth_loop prev pg) = length pg.
Proof.
  induction pg as [|cur pg IH]; intros prev; [reflexivity|].
  destruct pg as [|next rest]; [reflexivity|].
  rewrite smooth_loop_cons. cbn [length]. rewrite IH. reflexivity.
Qed.

Lemma smooth_loop_last (pg : polygon) :
  forall prev d, last (smooth_loop prev pg) d = last pg d.
Proof.
  induction pg as [|cur pg IH]; intros prev d; [reflexivity|].
  destruct pg as [|next rest]; [reflexivity|].
  rewrite smooth_loop_cons.
  set (new := (smooth_coord (px prev) (px cur) (px next),
               smooth_coord (py prev) (py cur) (py next))).
  specialize (IH new d).
  destruct (smooth_loop new (next :: rest)) as [|q r] eqn:E.
  - pose proof (smooth_loop_length (next :: rest) new) as Hlen.
    rewrite E in Hlen. discriminate.
  - change (last (new :: q :: r) d) with (last (q :: r) d).
    change (last (cur :: next :: rest) d) with (last (next :: rest) d).
    exact IH.
Qed.

(** A vertex inside the box of the given bounds. *)
Let in_box (xlo xhi ylo yhi : Z) (p : point) : Prop :=
  xlo <= px p <= xhi /\ ylo <= py p <= yhi.

Lemma smooth_loop_box (xlo xhi ylo yhi : Z) (pg : polygon) :
  forall prev,
    in_box xlo xhi ylo yhi prev ->
    Forall (in_box xlo xhi ylo yhi) pg ->
    Forall (in_box xlo xhi ylo yhi) (smooth_loop prev pg).
Proof.
  induction pg as [|cur pg IH]; intros prev Hprev Hall; [constructor|].
  destruct pg as [|next rest]; [exact Hall|].
  rewrite smooth_loop_cons.
  inversion Hall as [|c l Hcur Hrest]; subst.
  inversion Hrest as [|n l Hnext _]; subst.
  assert (Hnew : in_box xlo xhi ylo yhi
                   (smooth_coord (px prev) (px cur) (px next),
                    smooth_coord (py prev) (py cur) (py next))).
  { destruct Hprev, Hcur, Hnext. split; unfold px at 1, py at 1; cbn [fst snd];
      apply smooth_coord_bounds; assumption. }
  constructor; [exact Hnew|]. apply IH; assumption.
Qed.

(** X9: [smooth_polygon] leaves a polygon of fewer than 5 vertices as it
    is; on any polygon it keeps the number of vertices and the last vertex,
    and it moves no vertex out of a box that holds all the vertices: a
    polygon whose vertices all coincide is left unchanged. *)
Theorem smooth_polygon_spec (pg : polygon) (xlo xhi ylo yhi : Z) (d : point) :
  ((length pg < 5)%nat -> smooth_polygon pg = pg) /\
  length (smooth_polygon pg) = length pg /\
  last (smooth_polygon pg) d = last pg d /\
  ((forall p, In p pg -> xlo <= px p <= xhi /\ ylo <= py p <= yhi) ->
   forall p, In p (smooth_polygon pg) ->
             xlo <= px p <= xhi /\ ylo <= py p <= yhi) /\
  ((forall p, In p pg -> p = d) -> smooth_polygon pg = pg).
Proof.
  assert (Hbox : forall a b c e,
             (forall p, In p pg -> a <= px p <= b /\ c <= py p <= e) ->
             forall p, In p (smooth_polygon pg) ->
                       a <= px p <= b /\ c <= py p <= e).
  { intros a b c e Hin. unfold smooth_polygon.
    destruct (length pg <? 5)%nat; [exact Hin|].
    destruct pg as [|first rest]; [exact Hin|].
    assert (Hall : Forall (in_box a b c e) (first :: rest))
      by (apply Forall_forall; exact Hin).
    assert (Hlast : in_box a b c e (last (first :: rest) first))
      by (apply Hin; apply last_in_polygon).
    pose proof (smooth_loop_box a b c e (first :: rest) _ Hlast Hall) as H.
    rewrite Forall_forall in H. exact H. }
  split; [|split; [|split; [|split]]].
  - intros Hlen. unfold smooth_polygon.
    replace (length pg <? 5)%nat with true
      by (symmetry; apply Nat.ltb_lt; exact Hlen).
    reflexivity.
  - unfold smooth_polygon. destruct (length pg <? 5)%nat; [reflexivity|].
    destruct pg; [reflexivity|]. apply smooth_loop_length.
  - unfold smooth_polygon. destruct (length pg <? 5)%nat; [reflexivity|].
    destruct pg; [reflexivity|]. apply smooth_loop_last.
  - apply Hbox.
  - intros Hsame.
    assert (Hpts : forall p, In p (smooth_polygon pg) -> p = d).
    { intros p Hp.
      destruct (Hbox (px d) (px d) (py d) (py d)) with (p := p) as [Hx Hy];
        [intros q Hq; rewrite (Hsame q Hq); lia|exact Hp|].
      destruct p as [x y], d as [x0 y0]. unfold px, py in *.
      cbn [fst snd] in *. f_equal; lia. }
    apply (all_equal_lists _ _ d).
    + unfold smooth_polygon. destruct (length pg <? 5)%nat; [reflexivity|].
      destruct pg; [reflexivity|]. apply smooth_loop_length.
    + exact Hpts.
    + exact Hsame.
Qed.

End Smoothing.

Lemma smooth_polygon_spec_witness :
  Forall (fun p => 0 <= px p <= 4 /\ 0 <= py p <= 6)
         (smooth_polygon [(0, 0); (4, 0); (4, 4); (0, 4); (2, 6)]).
Proof.
  apply Forall_forall.
  apply (proj1 (proj2 (proj2 (proj2
           (smooth_polygon_spec [(0, 0); (4, 0); (4, 4); (0, 4); (2, 6)]
              0 4 0 6 (0, 0)))))).
  intros p Hp. simpl in Hp.
  repeat (destruct Hp as [<-|Hp]; [unfold px, py; simpl; lia|]).
  destruct Hp.
Defined.

(** ** Further properties of area_volume_map.py *)

Section QuadraticFit.

Import AreaVolumeMap.







End QuadraticFit.


Section ExactFits.

Import AreaVolumeMap.



Lemma squared_error_expand (k : Q) (points : list (Q * Q)) :
  squared_error k points
  == squared_error 0 points - 2 * k * sum_AV points
     + k * k * sum_AA points.
Proof.
  induction points as [|p t IH]; [simpl; ring|].
  cbn [squared_error sum_AV sum_AA fold_right].
  fold (squared_error k t). fold (squared_error 0 t).
  fold (sum_AV t). fold (sum_AA t). rewrite IH. ring.
Qed.

Lemma sum_AA_nonneg (points : list (Q * Q)) : (0 <= sum_AA points)%Q.
Proof.
  induction points as [|p t IH]; [apply Qle_refl|].
  cbn [sum_AA fold_right]. fold (sum_AA t).
  setoid_replace (0)%Q
      with (0 + 0)%Q by ring.
  apply Qplus_le_compat; [|exact IH].
  destruct (Qlt_le_dec (fst p) 0) as [Hneg|Hpos].
  - setoid_replace (fst p * fst p)%Q
      with ((- fst p) * (- fst p))%Q by ring.
    apply Qmult_le_0_compat; apply (Qopp_le_compat (fst p) 0), Qlt_le_weak;
      exact Hneg.
  - apply Qmult_le_0_compat; exact Hpos.
Qed.

(** X12: on one to three points whose areas are not all zero, the [c1] that
    [compute_model] returns is the least-squares slope of the line
    [V = c1*A] through the origin: no other slope has a smaller sum of
    squared residuals over the calibration points. *)
Theorem linear_fit_least_squares (points : list (Q * Q)) (m : model) (k : Q) :
  points <> [] ->
  (length points <= 3)%nat ->
  ~ sum_AA points == 0 ->
  fst (compute_model points m) = Ok true /\
  (squared_error (c1 (snd (compute_model points m))) points
   <= squared_error k points)%Q.
Proof.
  intros Hne Hlen Hxx.
  destruct (compute_model_linear points m Hne Hlen Hxx) as (Hok & _ & Hc1).
  split; [exact Hok|].
  set (c := c1 (snd (compute_model points m))) in *.
  assert (Hxy : sum_AV points == c * sum_AA points)
    by (rewrite Hc1; field; exact Hxx).
  rewrite (squared_error_expand k), (squared_error_expand c), Hxy.
  setoid_replace (squared_error 0 points - 2 * k * (c * sum_AA points)
                  + k * k * sum_AA points)%Q
      with (squared_error 0 points - 2 * c * (c * sum_AA points)
          + c * c * sum_AA points + (k - c) * (k - c) * sum_AA points)%Q by ring.
  setoid_replace (squared_error 0 points - 2 * c * (c * sum_AA points)
                  + c * c * sum_AA points)%Q
      with (squared_error 0 points - 2 * c * (c * sum_AA points)
          + c * c * sum_AA points + 0)%Q at 1 by ring.
  apply Qplus_le_compat; [apply Qle_refl|].
  apply Qmult_le_0_compat; [|apply sum_AA_nonneg].
  destruct (Qlt_le_dec (k - c) 0) as [Hneg|Hpos].
  - setoid_replace ((k - c) * (k - c))%Q
      with ((- (k - c)) * (- (k - c)))%Q by ring.
    apply Qmult_le_0_compat; apply (Qopp_le_compat (k - c) 0), Qlt_le_weak;
      exact Hneg.
  - apply Qmult_le_0_compat; exact Hpos.
Qed.

End ExactFits.


Lemma linear_fit_least_squares_witness :
  (squared_error
     (AreaVolumeMap.c1 (snd (AreaVolumeMap.compute_model [(1, 2); (2, 3)]
                               (AreaVolumeMap.Model 0 0))))
     [(1, 2); (2, 3)]
   <= squared_error 2 [(1, 2); (2, 3)])%Q.
Proof.
  apply (linear_fit_least_squares [(1, 2); (2, 3)]%Q
           (AreaVolumeMap.Model 0 0) 2).
  - discriminate.
  - simpl. lia.
  - vm_compute. discriminate.
Defined.

(** ** Further properties of vsa.py *)

Section ExtendedImage.

Lemma py_int_le (q : Q) : (0 <= q)%Q -> (inject_Z (py_int q) <= q)%Q.
Proof.
  intros Hq. unfold py_int.
  assert (Hnum : 0 <= Qnum q).
  { unfold Qle in Hq. simpl in Hq. lia. }
  rewrite Z.quot_div_nonneg by lia.
  destruct q as [n d]. simpl in *. apply (Qfloor_le (n # d)).
Qed.

Lemma np_median_positive (l : list Z) :
  l <> [] ->
  Forall (fun v => 0 < v) l ->
  exists med, np_median l = Fin med /\ (0 < med)%Q.
Proof.
  intros Hne Hpos. unfold np_median. cbv zeta.
  pose proof (np_sort_perm l) as Hperm.
  assert (Hsorted : Forall (fun v => 0 < v) (np_sort l))
    by (eapply Permutation_Forall; [apply Permutation_sym, Hperm|exact Hpos]).
  assert (Hlen : length (np_sort l) <> 0%nat).
  { rewrite (Permutation_length Hperm). destruct l; [congruence|discriminate]. }
  assert (Hnth : forall i, (i < length (np_sort l))%nat ->
                           0 < nth i (np_sort l) 0).
  { intros i Hi. rewrite Forall_forall in Hsorted. apply Hsorted.
    apply nth_In. exact Hi. }
  destruct (np_sort l) as [|a t] eqn:E; [simpl in Hlen; congruence|].
  set (n := length (a :: t)) in *.
  assert (Hhalf : (n / 2 < n)%nat) by (apply Nat.div_lt; lia).
  destruct (Nat.even n).
  - eexists. split; [reflexivity|].
    pose proof (Hnth (n / 2 - 1)%nat ltac:(lia)) as H1.
    pose proof (Hnth (n / 2)%nat Hhalf) as H2.
    apply Qlt_shift_div_l; [reflexivity|].
    rewrite <- inject_Z_plus. ring_simplify. rewrite <- (Zlt_Qlt 0). lia.
  - eexists. split; [reflexivity|].
    rewrite <- (Zlt_Qlt 0). apply Hnth. exact Hhalf.
Qed.

Lemma where_under_paper_spec (paper image : array Z) (other : Z) (h w : nat) :
  has_shape paper h w -> has_shape image h w ->
  exists out,
    where_under_paper paper image other = Ok out /\
    has_shape out h w /\
    forall y x, (y < h)%nat -> (x < w)%nat ->
      get out y x
      = Some (if 0 <? pixel paper y x then pixel image y x else other).
Proof.
  intros Hp Hi. unfold where_under_paper.
  rewrite (same_shape_has_shape paper image h w Hp Hi).
  eexists. split; [reflexivity|]. split; [apply has_shape_imap2; exact Hi|].
  intros y x Hy Hx. rewrite get_imap2.
  rewrite (pixel_get image h w y x Hi Hy Hx),
          (pixel_get paper h w y x Hp Hy Hx).
  reflexivity.
Qed.

Lemma pixel_positive_in_bounds (a : array Z) (h w y x : nat) :
  has_shape a h w -> 0 < pixel a y x -> (y < h)%nat /\ (x < w)%nat.
Proof.
  intros Ha Hpos. unfold pixel in Hpos.
  destruct (get a y x) as [v|] eqn:Hg; [|lia].
  apply (get_in_bounds a h w y x v Ha Hg).
Qed.

(** X13: on a processor with an image and a paper mask of its shape, with at
    least one positive pixel under the mask, [extend_image] stores a
    positive median and an extended image of the same shape that equals the
    image under the mask and is the truncated median, hence at most the
    median, everywhere else; the masks and polygons are left alone. *)
Theorem extend_image_spec (s : VsaProcessor) (paper im : array Z)
  (h w : nat) :
  paper_mask s = Some paper ->
  img s = Some im ->
  has_shape paper h w -> has_shape im h w ->
  (exists y x, 0 < pixel paper y x /\ 0 < pixel im y x) ->
  exists s' ext,
    extend_image s = Ok (Some s') /\
    img_extended s' = Some ext /\
    has_shape ext h w /\
    (0 < img_median s')%Q /\
    (forall y x, 0 < pixel paper y x -> pixel ext y x = pixel im y x) /\
    (forall y x, pixel paper y x <= 0 ->
                 pixel ext y x = (if (y <? h)%nat && (x <? w)%nat
                                  then py_int (img_median s') else 0)) /\
    (forall y x, pixel paper y x <= 0 ->
                 (inject_Z (pixel ext y x) <= img_median s')%Q) /\
    img s' = img s /\ paper_mask s' = paper_mask s /\
    spot_mask s' = spot_mask s /\ spot_polygons s' = spot_polygons s.
Proof.
  intros Hpaper Him Hsp Hsi (y0 & x0 & Hp0 & Hi0).
  destruct (pixel_positive_in_bounds paper h w y0 x0 Hsp Hp0) as [Hy0 Hx0].
  destruct (where_under_paper_spec paper im 0 h w Hsp Hsi)
    as (masked & Hmasked & Hsm & Hgm).
  set (tmp_list := filter (fun v => 0 <? v) (flatten masked)).
  assert (Hne : tmp_list <> []).
  { assert (Hin : In (pixel im y0 x0) tmp_list).
    { apply filter_In. split; [|apply Z.ltb_lt; exact Hi0].
      apply in_flatten_get. exists y0, x0. rewrite (Hgm y0 x0 Hy0 Hx0).
      replace (0 <? pixel paper y0 x0) with true
        by (symmetry; apply Z.ltb_lt; exact Hp0).
      reflexivity. }
    intros E. rewrite E in Hin. destruct Hin. }
  assert (Hpos : Forall (fun v => 0 < v) tmp_list).
  { apply Forall_forall. intros v Hv. apply filter_In in Hv.
    apply Z.ltb_lt. apply Hv. }
  destruct (np_median_positive tmp_list Hne Hpos) as (med & Hmed & Hmpos).
  destruct (where_under_paper_spec paper im (py_int med) h w Hsp Hsi)
    as (ext & Hext & Hse & Hge).
  assert (H00 : exists v, get im 0 0 = Some v)
    by (apply (has_shape_get im h w); [exact Hsi|lia|lia]).
  destruct H00 as [v00 H00].
  exists (set_extended s ext med), ext.
  split.
  { unfold extend_image. rewrite Hpaper, Him, Hmasked. cbn [bind].
    fold tmp_list. rewrite Hmed, H00, Hext. reflexivity. }
  split; [reflexivity|]. split; [exact Hse|]. split; [exact Hmpos|].
  assert (Hout : forall y x,
             pixel ext y x
             = if (y <? h)%nat && (x <? w)%nat
               then (if 0 <? pixel paper y x then pixel im y x
                     else py_int med)
               else 0).
  { intros y x. destruct ((y <? h)%nat && (x <? w)%nat) eqn:Hb.
    - apply andb_true_iff in Hb. destruct Hb as [Hy Hx].
      apply Nat.ltb_lt in Hy, Hx. unfold pixel at 1.
      rewrite (Hge y x Hy Hx). reflexivity.
    - unfold pixel at 1. destruct (get ext y x) as [v|] eqn:Hg; [|reflexivity].
      destruct (get_in_bounds ext h w y x v Hse Hg) as [Hy Hx].
      apply Nat.ltb_lt in Hy, Hx. rewrite Hy, Hx in Hb. discriminate. }
  split; [|split; [|split]].
  - intros y x Hp. rewrite Hout.
    destruct (pixel_positive_in_bounds paper h w y x Hsp Hp) as [Hy Hx].
    apply Nat.ltb_lt in Hy, Hx. rewrite Hy, Hx. cbn [andb].
    replace (0 <? pixel paper y x) with true
      by (symmetry; apply Z.ltb_lt; exact Hp).
    reflexivity.
  - intros y x Hp. rewrite Hout. cbn [img_median set_extended].
    replace (0 <? pixel paper y x) with false
      by (symmetry; apply Z.ltb_ge; exact Hp).
    reflexivity.
  - intros y x Hp. rewrite Hout. cbn [img_median set_extended].
    replace (0 <? pixel paper y x) with false
      by (symmetry; apply Z.ltb_ge; exact Hp).
    destruct (_ && _).
    + apply py_int_le. apply Qlt_le_weak. exact Hmpos.
    + apply Qlt_le_weak. exact Hmpos.
  - repeat split.
Qed.

End ExtendedImage.

Lemma extend_image_spec_witness :
  exists s' ext,
    extend_image example_processor = Ok (Some s') /\
    img_extended s' = Some ext /\
    (0 < img_median s')%Q.
Proof.
  destruct (extend_image_spec example_processor example_paper example_img 5 5)
    as (s' & ext & H1 & H2 & _ & H3 & _).
  - reflexivity.
  - reflexivity.
  - apply example_shape; [reflexivity|repeat constructor].
  - apply example_shape; [reflexivity|repeat constructor].
  - exists 1%nat, 1%nat. split; reflexivity.
  - exists s', ext. split; [exact H1|]. split; [exact H2|exact H3].
Defined.

Section Thresholds.

Context `{cv : Cv2}.

Lemma py_int_floor (q : Q) : (0 <= q)%Q -> py_int q = Qfloor q.
Proof.
  intros Hq. unfold py_int.
  assert (Hnum : 0 <= Qnum q) by (unfold Qle in Hq; simpl in Hq; lia).
  rewrite Z.quot_div_nonneg by lia. destruct q as [n d]. reflexivity.
Qed.

Lemma py_int_inject_Z (z : Z) (q : Q) : (q == inject_Z z)%Q -> py_int q = z.
Proof.
  intros Hq. unfold py_int. unfold Qeq in Hq. simpl in Hq.
  rewrite Z.mul_1_r in Hq. rewrite Hq.
  apply Z.quot_mul. discriminate.
Qed.

(** The Otsu threshold alone decides the threshold of a region: the
    triangle threshold enters with weight 0. *)
Lemma roi_threshold_otsu (roi_img : array Z) (adj : Z) :
  roi_threshold roi_img adj = Z.max 1 (Z.min (otsu roi_img + adj) 255).
Proof.
  unfold roi_threshold. cbv zeta.
  rewrite (py_int_inject_Z (otsu roi_img)); [reflexivity|].
  unfold triangle_weight. ring.
Qed.

(** X14: [get_default_paper_threshold] is -1 without an image and lies in
    [0, 255] with one; for an Otsu and a triangle threshold in [0, 255] it
    is the weighted mean [(otsu + 3*triangle)/4] rounded down, which lies
    between the two. *)
Theorem default_paper_threshold_spec (s : VsaProcessor) (im : array Z) :
  (have_img s = false -> get_default_paper_threshold s = -1) /\
  (have_img s = true -> 0 <= get_default_paper_threshold s <= 255) /\
  (have_img s = true -> img s = Some im ->
   0 <= otsu im <= 255 -> 0 <= triangle im <= 255 ->
   get_default_paper_threshold s = (otsu im + 3 * triangle im) / 4 /\
   Z.min (otsu im) (triangle im) <= get_default_paper_threshold s
   <= Z.max (otsu im) (triangle im)).
Proof.
  split; [|split].
  - intros H. unfold get_default_paper_threshold. rewrite H. reflexivity.
  - intros H. unfold get_default_paper_threshold. rewrite H. cbn [negb].
    destruct (img s) as [a|] eqn:Hi.
    + cbv zeta. lia.
    + unfold have_img in H. rewrite Hi in H. discriminate.
  - intros H Hi Ho Ht. unfold get_default_paper_threshold.
    rewrite H, Hi. cbn [negb]. cbv zeta.
    assert (Hval : py_int ((1 - (3 # 4)) * inject_Z (otsu im)
                           + (3 # 4) * inject_Z (triangle im))%Q
                   = (otsu im + 3 * triangle im) / 4).
    { assert (Hq : ((1 - (3 # 4)) * inject_Z (otsu im)
                    + (3 # 4) * inject_Z (triangle im)
                    == (otsu im + 3 * triangle im) # 4)%Q).
      { rewrite (Qmake_Qdiv (otsu im + 3 * triangle im) 4).
        rewrite inject_Z_plus, inject_Z_mult.
        change (3 # 4)%Q with (inject_Z 3 / inject_Z 4)%Q.
        change 1%Q with (inject_Z 1). field. }
      rewrite py_int_floor.
      - rewrite Hq. reflexivity.
      - rewrite Hq. unfold Qle. cbn [Qnum Qden]. lia. }
    rewrite Hval.
    assert (Hlow : Z.min (otsu im) (triangle im)
                   <= (otsu im + 3 * triangle im) / 4)
      by (apply Z.div_le_lower_bound; lia).
    assert (Hup : (otsu im + 3 * triangle im) / 4
                  <= Z.max (otsu im) (triangle im))
      by (apply Z.div_le_upper_bound; lia).
    lia.
Qed.

End Thresholds.

Lemma default_paper_threshold_spec_witness :
  0 <= @get_default_paper_threshold example_cv2 example_processor <= 255.
Proof.
  apply (proj1 (proj2 (@default_paper_threshold_spec example_cv2
                         example_processor example_img))).
  reflexivity.
Defined.

Section RegionDecision.

Context `{cv : Cv2}.

Lemma Qltb_false (a b : Q) : Qltb a b = false <-> (b <= a)%Q.
Proof.
  unfold Qltb. rewrite negb_false_iff. apply Qle_bool_iff.
Qed.

Lemma Qltb_true (a b : Q) : Qltb a b = true <-> (a < b)%Q.
Proof.
  unfold Qltb. rewrite negb_true_iff. split.
  - intros H. apply Qnot_le_lt. intros Hle.
    apply Qle_bool_iff in Hle. congruence.
  - intros H. destruct (Qle_bool b a) eqn:E; [|reflexivity].
    apply Qle_bool_iff in E. exfalso. apply (Qlt_not_le _ _ H E).
Qed.

(** X15: the decision of the per-region procedure on a region with pixels.
    The threshold is the Otsu threshold plus the adjustment, clamped to
    [1, 255]; the region is accepted exactly when its thresholded mask has a
    foreground pixel, the threshold is at least the median of the paper, the
    intensity range is at least [min_range], and the threshold exceeds the
    median by at least [min_dist_from_median].  An accepted region returns
    its mask and the mask's contours moved by the origin of the region; a
    rejected one returns no polygon and no mask. *)
Theorem find_spots_decision (s : VsaProcessor) (sel : rect)
  (adj min_range min_dist : Z) (ext : array Z) :
  img_extended s = Some ext ->
  region ext sel <> [] ->
  let thresh := Z.max 1 (Z.min (otsu (region_img ext sel) + adj) 255) in
  let mask := threshold_binary (region_img ext sel) thresh in
  let accepted :=
    np_any mask = true /\
    (img_median s <= inject_Z thresh)%Q /\
    min_range <= intensity_range (region ext sel) /\
    (inject_Z min_dist <= inject_Z thresh - img_median s)%Q in
  1 <= thresh <= 255 /\
  (accepted ->
   _find_spots_in_rect s sel adj min_range min_dist
   = Ok ((map (translate (rx sel) (ry sel)) (findContours mask), Some mask),
         set_roi s sel (Some mask) [])) /\
  (~ accepted ->
   _find_spots_in_rect s sel adj min_range min_dist
   = Ok (([], None), set_roi s sel None [])).
Proof.
  intros Hext Hne thresh mask accepted.
  split; [unfold thresh; lia|].
  assert (Hrun :
            _find_spots_in_rect s sel adj min_range min_dist
            = if negb (np_any mask) then Ok (([], None), set_roi s sel None [])
              else if Qltb (inject_Z thresh) (img_median s)
              then Ok (([], None), set_roi s sel None [])
              else if intensity_range (region ext sel) <? min_range
              then Ok (([], None), set_roi s sel None [])
              else if Qltb (inject_Z thresh - img_median s) (inject_Z min_dist)
              then Ok (([], None), set_roi s sel None [])
              else Ok ((map (translate (rx sel) (ry sel)) (findContours mask),
                        Some mask), set_roi s sel (Some mask) [])).
  { unfold _find_spots_in_rect. cbv zeta.
    change (img_extended (set_roi s sel None [])) with (img_extended s).
    change (img_median (set_roi s sel None [])) with (img_median s).
    rewrite Hext.
    change (flatten (slice2 ext (ry sel) (ry sel + rh sel) (rx sel)
                            (rx sel + rw sel)))
      with (region ext sel).
    change (slice2 ext (ry sel) (ry sel + rh sel) (rx sel) (rx sel + rw sel))
      with (region_img ext sel).
    rewrite roi_threshold_otsu. fold thresh. fold mask.
    destruct (region ext sel) as [|a t] eqn:Hreg; [congruence|].
    destruct (np_sort_min_max a t) as [m [r [Hsort [Hmin Hmax]]]].
    rewrite Hsort, Hmax, Hmin.
    change (fold_left Z.max t a - fold_left Z.min t a)
      with (intensity_range (a :: t)).
    unfold contour_to_polygon. reflexivity. }
  rewrite Hrun. split.
  - intros (Hany & Hmed & Hrange & Hdist).
    rewrite Hany. cbn [negb].
    replace (Qltb (inject_Z thresh) (img_median s)) with false
      by (symmetry; apply Qltb_false; exact Hmed).
    replace (intensity_range (region ext sel) <? min_range) with false
      by (symmetry; apply Z.ltb_ge; exact Hrange).
    replace (Qltb (inject_Z thresh - img_median s) (inject_Z min_dist))
      with false by (symmetry; apply Qltb_false; exact Hdist).
    reflexivity.
  - intros Hrej.
    destruct (np_any mask) eqn:Hany; [|reflexivity]. cbn [negb].
    destruct (Qltb (inject_Z thresh) (img_median s)) eqn:Hmed; [reflexivity|].
    destruct (intensity_range (region ext sel) <? min_range) eqn:Hrange;
      [reflexivity|].
    destruct (Qltb (inject_Z thresh - img_median s) (inject_Z min_dist))
      eqn:Hdist; [reflexivity|].
    exfalso. apply Hrej. split; [reflexivity|].
    split; [apply Qltb_false; exact Hmed|].
    split; [apply Z.ltb_ge; exact Hrange|apply Qltb_false; exact Hdist].
Qed.

(** X16: probing a ROI commits nothing: whatever it returns, the spot mask,
    the spot polygons, the image, the paper mask and the extended image are
    as before, and only the ROI fields may differ.  With an image loaded it
    raises [TypeError] when there is no extended image yet and [IndexError]
    when the ROI holds no pixel of it. *)
Theorem segment_spots_in_roi_probe (s : VsaProcessor) (sel : rect)
  (adj min_range min_dist : Z) :
  (forall s',
     segment_spots_in_roi s sel adj min_range min_dist = Ok s' ->
     spot_mask s' = spot_mask s /\ spot_polygons s' = spot_polygons s /\
     spot_polygon_properties s' = spot_polygon_properties s /\
     img s' = img s /\ paper_mask s' = paper_mask s /\
     dist_map s' = dist_map s /\
     img_extended s' = img_extended s /\ img_median s' = img_median s) /\
  (have_img s = false ->
   segment_spots_in_roi s sel adj min_range min_dist = Ok s) /\
  (have_img s = true -> img_extended s = None ->
   segment_spots_in_roi s sel adj min_range min_dist = Raise TypeError) /\
  (forall ext,
     have_img s = true -> img_extended s = Some ext -> region ext sel = [] ->
     segment_spots_in_roi s sel adj min_range min_dist = Raise IndexError).
Proof.
  split; [|split; [|split]].
  - intros s' H. unfold segment_spots_in_roi in H.
    destruct (have_img s); cbn [negb] in H;
      [|injection H as <-; repeat split].
    destruct (img_extended s) as [ext|] eqn:Hext.
    + destruct (region ext sel) as [|a t] eqn:Hreg.
      * rewrite (find_spots_empty s sel adj min_range min_dist ext Hext Hreg)
          in H. discriminate.
      * destruct (find_spots_cases s sel adj min_range min_dist ext Hext)
          as [Hrej|(Hacc & _)]; [rewrite Hreg; discriminate| |].
        -- rewrite Hrej in H. cbn [bind] in H. injection H as <-.
           repeat split; assumption.
        -- rewrite Hacc in H. cbn [bind] in H. injection H as <-.
           repeat split; assumption.
    + unfold _find_spots_in_rect in H. cbv zeta in H.
      change (img_extended (set_roi s sel None [])) with (img_extended s) in H.
      rewrite Hext in H. discriminate.
  - intros H. unfold segment_spots_in_roi. rewrite H. reflexivity.
  - intros H Hext. unfold segment_spots_in_roi. rewrite H. cbn [negb].
    unfold _find_spots_in_rect. cbv zeta.
    change (img_extended (set_roi s sel None [])) with (img_extended s).
    rewrite Hext. reflexivity.
  - intros ext H Hext Hreg. unfold segment_spots_in_roi. rewrite H.
    cbn [negb].
    rewrite (find_spots_empty s sel adj min_range min_dist ext Hext Hreg).
    reflexivity.
Qed.

End RegionDecision.

Lemma find_spots_decision_witness :
  @_find_spots_in_rect example_cv2 example_processor (Rect 1 1 3 3) 0 40 10
  = Ok ((map (translate 1 1)
             (@findContours example_cv2
                (threshold_binary
                   (region_img example_extended (Rect 1 1 3 3)) 225)),
         Some (threshold_binary
                 (region_img example_extended (Rect 1 1 3 3)) 225)),
        set_roi example_processor (Rect 1 1 3 3)
          (Some (threshold_binary
                   (region_img example_extended (Rect 1 1 3 3)) 225)) []).
Proof.
  apply (proj1 (proj2 (@find_spots_decision example_cv2 example_processor
                         (Rect 1 1 3 3) 0 40 10 example_extended
                         eq_refl ltac:(vm_compute; discriminate)))).
  split; [reflexivity|]. split; [vm_compute; discriminate|].
  split; [vm_compute; discriminate|vm_compute; discriminate].
Defined.

Lemma segment_spots_in_roi_probe_witness :
  @segment_spots_in_roi example_cv2 init (Rect 0 0 2 2) 0 40 10 = Ok init.
Proof.
  apply (proj1 (proj2 (@segment_spots_in_roi_probe example_cv2 init
                         (Rect 0 0 2 2) 0 40 10))).
  reflexivity.
Defined.

Lemma has_same_rows_imap_from {A B : Type} (f : nat -> list A -> list B)
  (a : array A) :
  (forall i row, length (f i row) = length row) ->
  forall i, map (@length B) (imap_from i f a) = map (@length A) a.
Proof.
  intros Hf. induction a as [|row t IH]; intros i; simpl; [reflexivity|].
  rewrite Hf, IH. reflexivity.
Qed.

Lemma has_same_rows_imap2 {A B : Type} (f : nat -> nat -> A -> B)
  (a : array A) :
  map (@length B) (imap2 f a) = map (@length A) a.
Proof.
  unfold imap2, imap. apply has_same_rows_imap_from.
  intros i row. apply length_imap.
Qed.

Section RoiCommit.

Context `{cv : Cv2}.

(** X17: committing a ROI only adds foreground.  Without candidate polygons
    nothing changes.  With candidates, a spot mask of shape [h] by [w] and
    an ROI mask of shape [bh] by [bw], the commit raises ValueError when the
    ROI mask does not broadcast to the slice of the spot mask under the
    ROI; otherwise the spot mask keeps its shape, a pixel outside the ROI
    keeps its value, a pixel inside gets the bitwise OR of its old value and
    the cell of the ROI mask that lies over it (cell 0 along a dimension of
    length 1), so that it is foreground exactly when it was or that cell
    is, and the spot polygons are the contours of the new mask. *)
Theorem save_roi_spots_adds (s : VsaProcessor) (m rm : array Z)
  (h w bh bw : nat) :
  spot_mask s = Some m -> roi_mask s = Some rm ->
  has_shape m h w -> has_shape rm bh bw ->
  (0 < h)%nat -> (0 < bh)%nat ->
  let sel := roi s in
  let inside :=
    in_rect (ry sel) (ry sel + rh sel) (rx sel) (rx sel + rw sel) in
  let fits :=
    broadcastable bh bw (slice_len h (ry sel) (ry sel + rh sel))
                  (slice_len w (rx sel) (rx sel + rw sel)) in
  (roi_polygons s = [] -> save_roi_spots s = Ok s) /\
  (roi_polygons s <> [] -> fits = false ->
   save_roi_spots s = Raise ValueError) /\
  (roi_polygons s <> [] -> fits = true ->
   exists m',
     save_roi_spots s
     = Ok (set_spot_polygons_field (set_spot_mask s (Some m'))
                                   (findContours m')) /\
     has_shape m' h w /\
     forall y x, (y < h)%nat -> (x < w)%nat ->
       if inside y x
       then exists r,
              get rm (if (bh =? 1)%nat then 0%nat else (y - ry sel)%nat)
                     (if (bw =? 1)%nat then 0%nat else (x - rx sel)%nat)
              = Some r /\
              get m' y x = Some (Z.lor (pixel m y x) r) /\
              (pixel m' y x <> 0 <-> pixel m y x <> 0 \/ r <> 0)
       else get m' y x = get m y x).
Proof.
  intros Hm Hrm Hsm Hsrm Hh Hbh sel inside fits.
  assert (Hhm : height m = h) by (destruct Hsm as [E _]; exact E).
  assert (Hwm : width m = w) by (apply (has_shape_width m h w Hsm Hh)).
  assert (Hhr : height rm = bh) by (destruct Hsrm as [E _]; exact E).
  assert (Hwr : width rm = bw) by (apply (has_shape_width rm bh bw Hsrm Hbh)).
  unfold save_roi_spots. rewrite Hm, Hrm. cbv beta iota zeta.
  rewrite Hhm, Hwm, Hhr, Hwr. fold sel. fold fits.
  split; [|split].
  - intros ->. reflexivity.
  - intros Hne Hfits. destruct (roi_polygons s); [congruence|].
    cbn [length Nat.eqb]. rewrite Hfits. reflexivity.
  - intros Hne Hfits. destruct (roi_polygons s); [congruence|].
    cbn [length Nat.eqb]. rewrite Hfits.
    erewrite vectorize_spots_ok by reflexivity.
    eexists. split; [reflexivity|].
    split; [apply has_shape_imap2; exact Hsm|].
    intros y x Hy Hx. rewrite get_imap2.
    rewrite (pixel_get m h w y x Hsm Hy Hx). cbn [option_map].
    fold (inside y x). destruct (inside y x) eqn:Hin; [|reflexivity].
    assert (Hidx : (y - ry sel < slice_len h (ry sel) (ry sel + rh sel))%nat
                   /\ (x - rx sel < slice_len w (rx sel) (rx sel + rw sel))%nat).
    { unfold inside, in_rect in Hin. rewrite !andb_true_iff in Hin.
      destruct Hin as [[[Hy1 Hy2] Hx1] Hx2].
      apply Nat.leb_le in Hy1, Hx1. apply Nat.ltb_lt in Hy2, Hx2.
      unfold slice_len. lia. }
    destruct Hidx as [Hi Hj].
    unfold fits, broadcastable in Hfits.
    rewrite andb_true_iff, !orb_true_iff, !Nat.eqb_eq in Hfits.
    destruct Hfits as [Hfh Hfw].
    unfold broadcast_get. rewrite Hhr, Hwr.
    assert (Hbw : (0 < bw)%nat) by lia.
    destruct (has_shape_get rm bh bw
                (if (bh =? 1)%nat then 0%nat else (y - ry sel)%nat)
                (if (bw =? 1)%nat then 0%nat else (x - rx sel)%nat) Hsrm)
      as [r Hr].
    { destruct (bh =? 1)%nat eqn:E; [lia|].
      apply Nat.eqb_neq in E. lia. }
    { destruct (bw =? 1)%nat eqn:E; [lia|].
      apply Nat.eqb_neq in E. lia. }
    rewrite Hr. exists r. split; [reflexivity|]. split; [reflexivity|].
    unfold pixel at 1. rewrite get_imap2.
    rewrite (pixel_get m h w y x Hsm Hy Hx). cbn [option_map].
    fold (inside y x). rewrite Hin.
    unfold broadcast_get. rewrite ?Hhr, ?Hwr, Hr.
    rewrite Z.lor_eq_0_iff. split.
    + intros Hnz. destruct (Z.eq_dec (pixel m y x) 0) as [E|E];
        [|left; exact E].
      right. intros Er. apply Hnz. split; assumption.
    + intros [Hv|Hr0] [E1 E2]; congruence.
Qed.

End RoiCommit.

Lemma save_roi_spots_adds_witness :
  exists m',
    @save_roi_spots example_cv2 example_probed
    = Ok (set_spot_polygons_field (set_spot_mask example_probed (Some m'))
            (@findContours example_cv2 m')) /\
    get m' 1 1 = Some 255 /\ get m' 2 2 = Some 255 /\ get m' 0 0 = Some 0.
Proof.
  destruct (@save_roi_spots_adds example_cv2 example_probed
              example_spot_mask [[255; 0]; [0; 0]] 5 5 2 2 eq_refl eq_refl)
    as (_ & _ & Hok).
  - apply example_shape; [reflexivity|repeat constructor].
  - split; [reflexivity|repeat constructor].
  - lia.
  - lia.
  - destruct Hok as (m' & Hrun & _ & Hpix); [discriminate|reflexivity|].
    exists m'. split; [exact Hrun|].
    pose proof (Hpix 1%nat 1%nat ltac:(lia) ltac:(lia)) as H11.
    pose proof (Hpix 2%nat 2%nat ltac:(lia) ltac:(lia)) as H22.
    pose proof (Hpix 0%nat 0%nat ltac:(lia) ltac:(lia)) as H00.
    cbn in H11, H22, H00.
    destruct H11 as (r1 & Hr1 & Hg1 & _). injection Hr1 as <-.
    destruct H22 as (r2 & Hr2 & Hg2 & _). injection Hr2 as <-.
    split; [exact Hg1|]. split; [exact Hg2|exact H00].
Defined.

Section Recomputation.

Context `{cv : Cv2} `{nc : NumpyCast}.

Lemma array_ext {A : Type} (a b : array A) (h w : nat) :
  has_shape a h w -> has_shape b h w ->
  (forall y x, (y < h)%nat -> (x < w)%nat -> get a y x = get b y x) ->
  a = b.
Proof.
  intros [Ha Hra] [Hb Hrb] Hget. apply nth_error_ext. intros y.
  destruct (Nat.lt_ge_cases y h) as [Hy|Hy].
  - destruct (nth_error a y) as [ra|] eqn:Ea;
      [|apply nth_error_None in Ea; lia].
    destruct (nth_error b y) as [rb|] eqn:Eb;
      [|apply nth_error_None in Eb; lia].
    f_equal. apply nth_error_ext. intros x.
    rewrite Forall_forall in Hra, Hrb.
    pose proof (Hra ra (nth_error_In _ _ Ea)) as Hla.
    pose proof (Hrb rb (nth_error_In _ _ Eb)) as Hlb.
    destruct (Nat.lt_ge_cases x w) as [Hx|Hx].
    + specialize (Hget y x Hy Hx). unfold get in Hget.
      rewrite Ea, Eb in Hget. exact Hget.
    + rewrite (proj2 (nth_error_None ra x)) by lia.
      rewrite (proj2 (nth_error_None rb x)) by lia. reflexivity.
  - rewrite (proj2 (nth_error_None a y)) by lia.
    rewrite (proj2 (nth_error_None b y)) by lia. reflexivity.
Qed.

Lemma find_spots_frame (s s' : VsaProcessor) (sel : rect)
  (adj min_range min_dist : Z) (r : list polygon * option (array Z)) :
  _find_spots_in_rect s sel adj min_range min_dist = Ok (r, s') ->
  same_frame s s'.
Proof.
  unfold _find_spots_in_rect. cbv zeta.
  change (img_extended (set_roi s sel None [])) with (img_extended s).
  destruct (img_extended s); [|discriminate].
  destruct (np_sort _); [discriminate|].
  repeat match goal with
         | |- context [if ?b then _ else _] => destruct b
         end;
    intros H; injection H as _ <-;
    try apply same_frame_set_roi;
    (eapply same_frame_trans; apply same_frame_set_roi).
Qed.

Lemma tile_loop_frame (tiles : list (nat * nat * nat * nat))
  (adj min_range min_dist : Z) :
  forall s fm s' fm',
    tile_loop s fm tiles adj min_range min_dist = Ok (fm', s') ->
    same_frame s s'.
Proof.
  induction tiles as [|[[[x1 y1] x2] y2] rest IH]; intros s fm s' fm' H.
  - injection H as _ <-. apply same_frame_refl.
  - cbn [tile_loop] in H.
    destruct (_find_spots_in_rect s _ adj min_range min_dist)
      as [[[polys rm] s1]|e] eqn:Hfind; [|discriminate].
    cbn [bind] in H.
    destruct (assign_rect fm y1 y2 x1 x2 rm) as [fm1|e]; [|discriminate].
    cbn [bind] in H.
    eapply same_frame_trans; [eapply find_spots_frame; exact Hfind|].
    eapply IH. exact H.
Qed.

Lemma segment_spots_frame (s s' : VsaProcessor) (adj min_range min_dist : Z) :
  segment_spots s adj min_range min_dist = Ok s' -> same_frame s s'.
Proof.
  unfold segment_spots. cbv zeta.
  set (s0 := set_spot_polygons_field (set_roi_polygons s []) []).
  assert (H0 : same_frame s s0) by (repeat split).
  destruct (have_img s0); cbn [negb]; [|intros H; injection H as <-; exact H0].
  destruct (img s0); [|intros H; injection H as <-; exact H0].
  destruct (win_size s =? 0)%nat; [discriminate|].
  destruct (tile_loop s0 _ _ adj min_range min_dist) as [[fm s1]|e] eqn:Hloop;
    [|discriminate].
  cbn [bind].
  destruct (where_paper _ _) as [mk|e]; [|discriminate].
  cbn [bind]. unfold _vectorize_spots. cbn [spot_mask set_spot_mask].
  intros H. injection H as <-.
  eapply same_frame_trans; [exact H0|].
  eapply same_frame_trans; [eapply tile_loop_frame; exact Hloop|].
  repeat split.
Qed.

(** X18: whole-image segmentation is a recomputation.  Two processors with
    the same image, extended image, median, paper mask and window side get
    the same spot mask and spot polygons from [segment_spots], whatever
    their spot masks, polygons and ROI were before; and running it a second
    time changes nothing. *)
Theorem segment_spots_recomputed (s1 s2 : VsaProcessor)
  (adj min_range min_dist : Z) (im ext paper : array Z) (h w : nat) :
  img s1 = Some im -> img_extended s1 = Some ext ->
  paper_mask s1 = Some paper ->
  has_shape im h w -> has_shape ext h w -> has_shape paper h w ->
  (0 < h)%nat -> (0 < w)%nat -> (0 < win_size s1)%nat ->
  img s2 = img s1 -> img_extended s2 = img_extended s1 ->
  img_median s2 = img_median s1 -> paper_mask s2 = paper_mask s1 ->
  win_size s2 = win_size s1 ->
  exists r1 r2 m,
    segment_spots s1 adj min_range min_dist = Ok r1 /\
    segment_spots s2 adj min_range min_dist = Ok r2 /\
    spot_mask r1 = Some m /\ spot_mask r2 = Some m /\
    spot_polygons r1 = findContours m /\
    spot_polygons r2 = findContours m /\
    exists r3,
      segment_spots r1 adj min_range min_dist = Ok r3 /\
      spot_mask r3 = Some m /\ spot_polygons r3 = findContours m.
Proof.
  intros Him Hext Hpaper Hsim Hsext Hspaper Hh Hw Hwin E1 E2 E3 E4 E5.
  assert (Hsame : forall t,
             img t = img s1 -> img_extended t = img_extended s1 ->
             img_median t = img_median s1 -> paper_mask t = paper_mask s1 ->
             win_size t = win_size s1 ->
             forall r m,
               segment_spots s1 adj min_range min_dist = Ok r ->
               spot_mask r = Some m -> has_shape m h w ->
               (forall y x, (y < h)%nat -> (x < w)%nat ->
                  let roi := tile_of h w (win_size s1) y x in
                  get m y x =
                  Some (if pixel paper y x =? 0 then 0
                        else astype_uint8
                               (window_cell
                                  (tile_mask s1 roi adj min_range min_dist)
                                  (roi_threshold (region_img ext roi) adj)
                                  (pixel ext y x)))) ->
               exists r',
                 segment_spots t adj min_range min_dist = Ok r' /\
                 spot_mask r' = Some m /\ spot_polygons r' = findContours m).
  { intros t T1 T2 T3 T4 T5 r m Hr Hmask Hm Hget.
    destruct (segment_spots_pixels t adj min_range min_dist im ext paper h w)
      as (r' & m' & Hr' & Hmask' & Hm' & Hpoly' & _ & Hget');
      try congruence; try assumption.
    assert (Heq : m' = m).
    { apply (array_ext m' m h w Hm' Hm). intros y x Hy Hx.
      rewrite (Hget y x Hy Hx), (Hget' y x Hy Hx), T5.
      rewrite (tile_mask_frame t s1) by assumption. reflexivity. }
    subst m'. exists r'. split; [exact Hr'|]. split; assumption. }
  destruct (segment_spots_pixels s1 adj min_range min_dist im ext paper h w
              Him Hext Hpaper Hsim Hsext Hspaper Hh Hw Hwin)
    as (r1 & m & Hr1 & Hmask1 & Hm & Hpoly1 & _ & Hget).
  destruct (Hsame s2 E1 E2 E3 E4 E5 r1 m Hr1 Hmask1 Hm Hget)
    as (r2 & Hr2 & Hmask2 & Hpoly2).
  destruct (segment_spots_frame s1 r1 adj min_range min_dist Hr1)
    as (F1 & F2 & F3 & F4 & _ & F6 & _).
  destruct (Hsame r1 F1 F2 F3 F4 F6 r1 m Hr1 Hmask1 Hm Hget)
    as (r3 & Hr3 & Hmask3 & Hpoly3).
  exists r1, r2, m. repeat (split; [assumption|]).
  exists r3. repeat split; assumption.
Qed.

End Recomputation.

Lemma segment_spots_recomputed_witness :
  exists r1 r2 m,
    @segment_spots example_cv2 example_cast example_processor 0 40 10 = Ok r1 /\
    @segment_spots example_cv2 example_cast example_spotted 0 40 10 = Ok r2 /\
    spot_mask r1 = Some m /\ spot_mask r2 = Some m.
Proof.
  destruct (@segment_spots_recomputed example_cv2 example_cast
              example_processor example_spotted 0 40 10
              example_img example_extended example_paper 5 5)
    as (r1 & r2 & m & H1 & H2 & H3 & H4 & _);
    try reflexivity;
    try (apply example_shape; [reflexivity|repeat constructor]);
    try (simpl; lia).
  exists r1, r2, m. repeat split; assumption.
Defined.

(** ** Properties of open_image *)

Section OpenImage.

Context `{cv : Cv2} `{nc : NumpyCast} `{ext : PolygonToolsExt}
        `{mo : Cv2Morphology}.

(** X19: after an [open_image] that returned False the processor holds no
    image and every operation is inert: the dimensions are [(0, 0)], the
    default paper threshold is -1, [segment_paper] returns False, and
    segmentation, ROI probing and committing, filling, clearing, replacing
    the polygons and measuring all leave the processor as it is, the
    measured total being 0. *)
Theorem failed_open_image_inert (s : VsaProcessor) (imread : option (array Z))
  (paper_polygon pg : polygon) (polygons : list polygon) (sel : rect)
  (threshold adj min_range min_dist : Z)
  (volume_mapper : AreaVolumeMap.model) (pix_per_cm : Q)
  (size_thresh_list : list Q) :
  fst (open_image s imread) = false ->
  let s' := snd (open_image s imread) in
  (imread = None \/ exists im, imread = Some im /\ height im = 0%nat) /\
  have_img s' = false /\
  get_img_dim s' = (0%nat, 0%nat) /\
  get_default_paper_threshold s' = -1 /\
  segment_paper s' paper_polygon threshold
  = Ok (Some (false, paper_polygon, s')) /\
  segment_spots s' adj min_range min_dist = Ok s' /\
  segment_spots_in_roi s' sel adj min_range min_dist = Ok s' /\
  save_roi_spots s' = Ok s' /\
  fill_poly_selection s' pg = Ok s' /\
  clear_poly_selection s' pg = Ok s' /\
  set_spot_polygons s' polygons = s' /\
  measure_spots s' volume_mapper pix_per_cm size_thresh_list = Ok (0%Q, s').
Proof.
  intros Hfail s'.
  assert (Hs' : s' =
            {| img := None; img_extended := img_extended s;
               img_median := img_median s; paper_mask := None;
               dist_map := None; spot_mask := None; spot_polygons := [];
               spot_polygon_properties := []; roi := Rect 0 0 0 0;
               roi_mask := None; roi_polygons := [];
               win_size := win_size s |} /\
            (imread = None \/ exists im, imread = Some im /\ height im = 0%nat)).
  { subst s'. unfold open_image in *. destruct imread as [im|].
    - destruct (height im =? 0)%nat eqn:Hh; [|discriminate].
      split; [reflexivity|]. right. exists im.
      split; [reflexivity|apply Nat.eqb_eq; exact Hh].
    - split; [reflexivity|left; reflexivity]. }
  destruct Hs' as [Hs' Hwhy]. clearbody s'. subst s'.
  split; [exact Hwhy|]. repeat split.
Qed.

(** X20: [open_image] keeps the extended image and the median of the image
    that was open before.  A ROI probe right after a successful
    [open_image] therefore does not look at the new image: whatever image
    was read, the ROI, ROI mask and ROI polygons it leaves (or the error it
    raises) are the same; with no extended image left from
    before, the probe raises TypeError. *)
Theorem open_image_keeps_extended (s : VsaProcessor) (im1 im2 : array Z)
  (sel : rect) (adj min_range min_dist : Z) :
  height im1 <> 0%nat -> height im2 <> 0%nat ->
  let s1 := snd (open_image s (Some im1)) in
  let s2 := snd (open_image s (Some im2)) in
  fst (open_image s (Some im1)) = true /\
  img s1 = Some im1 /\
  img_extended s1 = img_extended s /\ img_median s1 = img_median s /\
  win_size s1 = win_size s /\
  paper_mask s1 = None /\ dist_map s1 = None /\
  spot_mask s1 = Some (tabulate (height im1) (width im1) (fun _ _ => 0)) /\
  probe_view (segment_spots_in_roi s1 sel adj min_range min_dist)
  = probe_view (segment_spots_in_roi s2 sel adj min_range min_dist) /\
  (img_extended s = None ->
   segment_spots_in_roi s1 sel adj min_range min_dist = Raise TypeError).
Proof.
  intros H1 H2 s1 s2. subst s1 s2. unfold open_image.
  apply Nat.eqb_neq in H1, H2. rewrite H1, H2. cbn [fst snd].
  repeat (split; [reflexivity|]).
  unfold segment_spots_in_roi, have_img. cbn [img]. rewrite H1, H2.
  cbn [negb]. unfold _find_spots_in_rect. cbv zeta.
  cbn [img_extended set_roi img_median].
  split.
  - destruct (img_extended s) as [e|]; [|reflexivity].
    destruct (np_sort _); [reflexivity|].
    repeat match goal with
           | |- context [if ?b then _ else _] => destruct b
           end; reflexivity.
  - intros ->. reflexivity.
Qed.

End OpenImage.

Lemma failed_open_image_inert_witness :
  @segment_spots example_cv2 example_cast
    (snd (open_image example_spotted None)) 0 40 10
  = Ok (snd (open_image example_spotted None)).
Proof.
  exact (proj1 (proj2 (proj2 (proj2 (proj2 (proj2
    (@failed_open_image_inert example_cv2 example_cast example_ext
       {| erode := fun a => a; dilate := fun a => a;
          distanceTransform := fun a => a |}
       example_spotted None [] [] [] (Rect 0 0 1 1) 0 0 40 10
       (AreaVolumeMap.Model 1 0) 1%Q [] eq_refl))))))).
Defined.

Lemma open_image_keeps_extended_witness :
  probe_view (@segment_spots_in_roi example_cv2
                (snd (open_image example_processor (Some [[0]])))
                (Rect 1 1 3 3) 0 40 10)
  = probe_view (@segment_spots_in_roi example_cv2
                  (snd (open_image example_processor (Some [[7]])))
                  (Rect 1 1 3 3) 0 40 10).
Proof.
  refine (proj1 (proj2 (proj2 (proj2 (proj2 (proj2 (proj2 (proj2 (proj2
    (@open_image_keeps_extended example_cv2 example_processor
       [[0]] [[7]] (Rect 1 1 3 3) 0 40 10 _ _)))))))))).
  - simpl. lia.
  - simpl. lia.
Defined.

(** ** Further properties of measure_spots *)

Section MeasureOrder.

Context `{cv : Cv2} `{ext : PolygonToolsExt}.

Lemma insert_desc_perm (p : poly_props) (l : list poly_props) :
  Permutation (p :: l) (insert_desc p l).
Proof.
  induction l as [|q t IH]; simpl; [apply Permutation_refl|].
  destruct (Qle_bool (volume_ul q) (volume_ul p)); [apply Permutation_refl|].
  eapply Permutation_trans; [apply perm_swap|].
  apply perm_skip. exact IH.
Qed.

Lemma sorted_desc_perm (l : list poly_props) : Permutation l (sorted_desc l).
Proof.
  induction l as [|p t IH]; simpl; [constructor|].
  eapply Permutation_trans; [apply perm_skip; exact IH|].
  apply insert_desc_perm.
Qed.

Lemma insert_desc_sorted (p : poly_props) (l : list poly_props) :
  volume_desc l -> volume_desc (insert_desc p l).
Proof.
  unfold volume_desc. induction 1 as [|q t Hsorted IH Hall]; simpl.
  - constructor; constructor.
  - destruct (Qle_bool (volume_ul q) (volume_ul p)) eqn:Hle.
    + apply Qle_bool_iff in Hle. constructor.
      * constructor; assumption.
      * constructor; [exact Hle|].
        eapply Forall_impl; [|exact Hall].
        intros b Hb. cbv beta in Hb |- *.
        eapply Qle_trans; eassumption.
    + assert (Hlt : (volume_ul p < volume_ul q)%Q).
      { apply Qnot_le_lt. intros H. apply Qle_bool_iff in H. congruence. }
      constructor; [exact IH|].
      apply insert_desc_forall; [apply Qlt_le_weak; exact Hlt|exact Hall].
Qed.

Lemma sorted_desc_sorted (l : list poly_props) : volume_desc (sorted_desc l).
Proof.
  induction l as [|p t IH]; simpl; [constructor|].
  apply insert_desc_sorted. exact IH.
Qed.

Lemma counted_area_perm (l l' : list poly_props) :
  Permutation l l' -> (counted_area l == counted_area l')%Q.
Proof.
  induction 1 as [|p l l' _ IH|p q l|l l' l'' _ IH1 _ IH2].
  - reflexivity.
  - cbn [counted_area fold_right]. fold (counted_area l) (counted_area l').
    destruct (is_junk p); [exact IH|]. rewrite IH. reflexivity.
  - cbn [counted_area fold_right]. fold (counted_area l).
    destruct (is_junk p), (is_junk q); try reflexivity. ring.
  - rewrite IH1. exact IH2.
Qed.

Lemma measure_loop_spec (s : VsaProcessor)
  (volume_mapper : AreaVolumeMap.model) (pix_per_cm : Q)
  (size_thresh_list : list Q) (polygons : list polygon) :
  forall acc props,
    measure_loop s volume_mapper pix_per_cm size_thresh_list polygons acc
    = Ok props ->
    exists news,
      props = acc ++ news /\
      Forall2 (fun pg p =>
                 measure_polygon s volume_mapper pix_per_cm size_thresh_list pg
                 = Ok p) polygons news.
Proof.
  induction polygons as [|pg rest IH]; intros acc props H.
  - simpl in H. injection H as <-. exists []. rewrite app_nil_r.
    split; [reflexivity|constructor].
  - cbn [measure_loop] in H.
    destruct (measure_polygon s volume_mapper pix_per_cm size_thresh_list pg)
      as [p|e] eqn:Hp; [|discriminate].
    cbn [bind] in H. destruct (IH _ _ H) as (news & -> & Hall).
    exists (p :: news). rewrite <- app_assoc. split; [reflexivity|].
    constructor; assumption.
Qed.

Lemma sum_area_sorted (t0 : Q) (l : list poly_props) :
  volume_desc l ->
  Forall (fun p => is_junk p = Qltb (volume_ul p) t0 /\ class p <> None) l ->
  forall acc, exists r,
    sum_area acc l = Ok r /\ (r == acc + counted_area l)%Q.
Proof.
  unfold volume_desc. induction 1 as [|p t Hsorted IH Hbelow]; intros Hcls acc.
  - exists acc. split; [reflexivity|]. cbn. ring.
  - inversion Hcls as [|? ? [Hp Hsome] Hrest]; subst.
    cbn [sum_area counted_area fold_right]. fold (counted_area t).
    unfold is_junk in *.
    destruct (class p) as [[| | |]|] eqn:Hc; try congruence.
    + exists acc. split; [reflexivity|].
      assert (Hzero : (counted_area t == 0)%Q).
      { symmetry in Hp. apply Qltb_true in Hp.
        clear IH Hsorted Hcls.
        induction t as [|q t IHt]; [reflexivity|].
        inversion Hbelow as [|? ? Hq Hbelow']; subst.
        inversion Hrest as [|? ? [Hq' _] Hrest']; subst.
        cbn [counted_area fold_right]. fold (counted_area t).
        assert (Hj : is_junk q = true).
        { unfold is_junk. rewrite Hq'. apply Qltb_true.
          eapply Qle_lt_trans; eassumption. }
        rewrite Hj. apply IHt; assumption. }
      rewrite Hzero. ring.
    + destruct (IH Hrest (acc + area_pix2 p)%Q) as (r & Hr & Heq).
      exists r. split; [exact Hr|]. rewrite Heq. ring.
    + destruct (IH Hrest (acc + area_pix2 p)%Q) as (r & Hr & Heq).
      exists r. split; [exact Hr|]. rewrite Heq. ring.
    + destruct (IH Hrest (acc + area_pix2 p)%Q) as (r & Hr & Heq).
      exists r. split; [exact Hr|]. rewrite Heq. ring.
Qed.

Lemma classify_junk (v : Q) (size_thresh_list : list Q) :
  length size_thresh_list = 3%nat ->
  classify v size_thresh_list <> None /\
  (match classify v size_thresh_list with
   | Some junk => true
   | _ => false
   end) = Qltb v (nth 0 size_thresh_list 0%Q).
Proof.
  intros Hlen. unfold classify. rewrite Hlen. cbn [Nat.eqb].
  destruct (Qltb v (nth 0 size_thresh_list 0%Q));
    [split; [discriminate|reflexivity]|].
  destruct (Qltb v (nth 1 size_thresh_list 0%Q));
    [split; [discriminate|reflexivity]|].
  destruct (Qltb v (nth 2 size_thresh_list 0%Q));
    split; try discriminate; reflexivity.
Qed.

(** X21: with three thresholds a successful [measure_spots] stores one
    record per spot polygon, in descending order of volume (a permutation
    of the records in polygon order), and returns the summed pixel area of
    all records that are not junk: the junk records form the tail of the
    sorted list, so the [break] at the first of them drops nothing. *)
Theorem measure_spots_total (s s' : VsaProcessor)
  (volume_mapper : AreaVolumeMap.model) (pix_per_cm : Q)
  (size_thresh_list : list Q) (total : Q) :
  length size_thresh_list = 3%nat ->
  measure_spots s volume_mapper pix_per_cm size_thresh_list = Ok (total, s') ->
  exists props,
    Forall2 (fun pg p =>
               measure_polygon s volume_mapper pix_per_cm size_thresh_list pg
               = Ok p) (spot_polygons s) props /\
    s' = set_properties s (spot_polygon_properties s') /\
    Permutation props (spot_polygon_properties s') /\
    volume_desc (spot_polygon_properties s') /\
    (total == counted_area (spot_polygon_properties s'))%Q /\
    (total == counted_area props)%Q.
Proof.
  intros Hlen H. unfold measure_spots in H.
  destruct (measure_loop s volume_mapper pix_per_cm size_thresh_list
              (spot_polygons s) []) as [props|e] eqn:Hloop; [|discriminate].
  cbn [bind] in H.
  destruct (measure_loop_spec _ _ _ _ _ _ _ Hloop) as (news & Hnews & Hall).
  cbn [app] in Hnews. subst news.
  assert (Hcls : Forall (fun p => is_junk p = Qltb (volume_ul p)
                                                 (nth 0 size_thresh_list 0%Q)
                                  /\ class p <> None) (sorted_desc props)).
  { apply sorted_desc_forall.
    clear Hloop H. induction Hall as [|pg p pgs ps Hp _ IH]; constructor.
    - unfold is_junk. rewrite (measure_polygon_class _ _ _ _ _ _ Hp).
      destruct (classify_junk (volume_ul p) size_thresh_list Hlen) as [Hn Hj].
      split; [exact Hj|exact Hn].
    - exact IH. }
  destruct (sum_area_sorted _ _ (sorted_desc_sorted props) Hcls 0%Q)
    as (r & Hr & Heq).
  rewrite Hr in H. cbn [bind] in H. injection H as <- <-.
  exists props. cbn [spot_polygon_properties set_properties].
  split; [exact Hall|]. split; [reflexivity|].
  split; [apply sorted_desc_perm|]. split; [apply sorted_desc_sorted|].
  assert (Hr0 : (r == counted_area (sorted_desc props))%Q)
    by (rewrite Heq; ring).
  split; [exact Hr0|].
  rewrite Hr0. symmetry. apply counted_area_perm. apply sorted_desc_perm.
Qed.

(** X22: [measure_spots] at its edges.  Without spot polygons it returns 0
    and stores an empty list, whatever the thresholds; an empty first
    polygon raises ValueError; a scale of zero pixels per centimetre raises
    ZeroDivisionError at the first polygon that has a vertex. *)
Theorem measure_spots_edges (s : VsaProcessor)
  (volume_mapper : AreaVolumeMap.model) (pix_per_cm : Q)
  (size_thresh_list : list Q) :
  (spot_polygons s = [] ->
   measure_spots s volume_mapper pix_per_cm size_thresh_list
   = Ok (0%Q, set_properties s [])) /\
  (forall rest, spot_polygons s = [] :: rest ->
   measure_spots s volume_mapper pix_per_cm size_thresh_list
   = Raise ValueError) /\
  (forall p pg rest, spot_polygons s = (p :: pg) :: rest ->
   (pix_per_cm == 0)%Q ->
   measure_spots s volume_mapper pix_per_cm size_thresh_list
   = Raise ZeroDivisionError).
Proof.
  unfold measure_spots. split; [|split].
  - intros ->. reflexivity.
  - intros rest ->. reflexivity.
  - intros p pg rest -> Hzero. cbn [measure_loop]. unfold measure_polygon.
    destruct (polygon_mbr (p :: pg)) as [[[[x y] w] h]|e] eqn:Hmbr;
      [|unfold polygon_mbr in Hmbr; discriminate].
    cbn [bind].
    destruct (polygon_perimeter (p :: pg)) as [L|e] eqn:HL.
    + cbn [bind]. unfold AreaVolumeMap.fdiv.
      apply Qeq_bool_iff in Hzero. rewrite Hzero. reflexivity.
    + unfold polygon_perimeter in HL. discriminate.
Qed.

End MeasureOrder.

Lemma measure_spots_total_witness :
  exists total s',
    @measure_spots example_cv2 example_ext
      (set_spot_polygons_field example_processor
         [corner_selection; paper_selection])
      (AreaVolumeMap.Model 1 0) 1 [2; 3; 5]%Q = Ok (total, s') /\
    volume_desc (spot_polygon_properties s') /\
    (total == counted_area (spot_polygon_properties s'))%Q.
Proof.
  eexists. eexists. split; [reflexivity|].
  destruct (@measure_spots_total example_cv2 example_ext
              (set_spot_polygons_field example_processor
                 [corner_selection; paper_selection])
              _ (AreaVolumeMap.Model 1 0) 1 [2; 3; 5]%Q _ eq_refl eq_refl)
    as (props & _ & _ & _ & Hsorted & Htotal & _).
  split; [exact Hsorted|exact Htotal].
Defined.

(** X23: with three ascending thresholds every volume gets a class, the
    classes are the four intervals the thresholds cut out, and a larger
    volume never gets a smaller class. *)
Theorem classify_monotone (v v' t0 t1 t2 : Q) :
  (t0 <= t1)%Q -> (t1 <= t2)%Q -> (v <= v')%Q ->
  exists c c',
    classify v [t0; t1; t2] = Some c /\
    classify v' [t0; t1; t2] = Some c' /\
    (class_rank c <= class_rank c')%nat /\
    (c = junk <-> (v < t0)%Q) /\
    (c = nano <-> (t0 <= v)%Q /\ (v < t1)%Q) /\
    (c = micro <-> (t1 <= v)%Q /\ (v < t2)%Q) /\
    (c = primary <-> (t2 <= v)%Q).
Proof.
  intros H01 H12 Hv. unfold classify. cbn [length Nat.eqb nth].
  destruct (Qltb v t0) eqn:A0; [apply Qltb_true in A0|apply Qltb_false in A0];
  destruct (Qltb v t1) eqn:A1; [apply Qltb_true in A1|apply Qltb_false in A1
                               |apply Qltb_true in A1|apply Qltb_false in A1];
  destruct (Qltb v t2) eqn:A2;
    try (apply Qltb_true in A2); try (apply Qltb_false in A2);
  destruct (Qltb v' t0) eqn:B0;
    try (apply Qltb_true in B0); try (apply Qltb_false in B0);
  destruct (Qltb v' t1) eqn:B1;
    try (apply Qltb_true in B1); try (apply Qltb_false in B1);
  destruct (Qltb v' t2) eqn:B2;
    try (apply Qltb_true in B2); try (apply Qltb_false in B2);
  try (exfalso; Lqa.lra);
  eexists; eexists; (split; [reflexivity|]); (split; [reflexivity|]);
  (split; [cbn; lia|]);
  repeat split; intros; try discriminate; try Lqa.lra;
  try (exfalso; Lqa.lra);
  try match goal with
      | H : _ /\ _ |- _ => destruct H; exfalso; Lqa.lra
      end.
Qed.

Lemma classify_monotone_witness :
  exists c c',
    classify 1 [2; 3; 5]%Q = Some c /\
    classify 4 [2; 3; 5]%Q = Some c' /\
    (class_rank c <= class_rank c')%nat.
Proof.
  destruct (classify_monotone 1 4 2 3 5) as (c & c' & H1 & H2 & H3 & _).
  - unfold Qle. simpl. lia.
  - unfold Qle. simpl. lia.
  - unfold Qle. simpl. lia.
  - exists c, c'. repeat split; assumption.
Defined.

(** ** Properties of segment_paper *)

Section SegmentPaper.

Context `{cv : Cv2} `{mo : Cv2Morphology}.

Lemma np_any_spec (a : array Z) :
  np_any a = true <-> exists y x v, get a y x = Some v /\ v <> 0.
Proof.
  unfold np_any. rewrite existsb_exists. split.
  - intros (row & Hrow & Hex). apply existsb_exists in Hex.
    destruct Hex as (v & Hv & Hnz).
    assert (Hin : In v (flatten a))
      by (unfold flatten; apply in_concat; exists row; split; assumption).
    apply in_flatten_get in Hin. destruct Hin as (y & x & Hg).
    exists y, x, v. split; [exact Hg|].
    apply negb_true_iff in Hnz. apply Z.eqb_neq. exact Hnz.
  - intros (y & x & v & Hg & Hnz).
    assert (Hin : In v (flatten a))
      by (apply in_flatten_get; exists y, x; exact Hg).
    unfold flatten in Hin. apply in_concat in Hin.
    destruct Hin as (row & Hrow & Hv). exists row. split; [exact Hrow|].
    apply existsb_exists. exists v. split; [exact Hv|].
    apply negb_true_iff. apply Z.eqb_neq. exact Hnz.
Qed.

Lemma np_any_threshold_binary (im : array Z) (t : Z) :
  np_any (threshold_binary im t) = true <->
  exists y x v, get im y x = Some v /\ t < v.
Proof.
  rewrite np_any_spec. split.
  - intros (y & x & v & Hg & Hnz). rewrite get_threshold_binary in Hg.
    destruct (get im y x) as [u|] eqn:Hu; [|discriminate].
    cbn [option_map] in Hg. exists y, x, u. split; [exact Hu|].
    destruct (t <? u) eqn:Ht; [apply Z.ltb_lt; exact Ht|].
    injection Hg as <-. congruence.
  - intros (y & x & v & Hg & Ht). exists y, x, 255.
    rewrite get_threshold_binary, Hg. cbn [option_map].
    replace (t <? v) with true by (symmetry; apply Z.ltb_lt; exact Ht).
    split; [reflexivity|discriminate].
Qed.

(** X24: the outcomes of [segment_paper].  It returns False and leaves the
    processor as it is when there is no image or no pixel is above the
    threshold; it raises IndexError when a pixel is above the threshold but
    the opened mask has no contour.  When it returns True the paper polygon
    is one of the contours of the opened mask, the paper mask is that
    contour filled on zeros, the distance map is computed from that paper
    mask, an extended image is set, and the image, the spot mask, the spot
    polygons and the ROI are as before. *)
Theorem segment_paper_outcomes (s : VsaProcessor) (paper_polygon : polygon)
  (threshold : Z) :
  (have_img s = false ->
   segment_paper s paper_polygon threshold
   = Ok (Some (false, paper_polygon, s))) /\
  (forall im, img s = Some im ->
     (forall y x v, get im y x = Some v -> v <= threshold) ->
     segment_paper s paper_polygon threshold
     = Ok (Some (false, paper_polygon, s))) /\
  (forall im y x v, img s = Some im -> have_img s = true ->
     get im y x = Some v -> threshold < v ->
     findContours (dilate (erode (threshold_binary im threshold))) = [] ->
     segment_paper s paper_polygon threshold = Raise IndexError) /\
  (forall b pp' s',
     segment_paper s paper_polygon threshold = Ok (Some (b, pp', s')) ->
     img s' = img s /\ spot_mask s' = spot_mask s /\
     spot_polygons s' = spot_polygons s /\
     spot_polygon_properties s' = spot_polygon_properties s /\
     roi s' = roi s /\ roi_mask s' = roi_mask s /\
     roi_polygons s' = roi_polygons s /\ win_size s' = win_size s /\
     (b = false -> s' = s /\ pp' = paper_polygon) /\
     (b = true ->
      exists im opened pm e,
        img s = Some im /\
        opened = dilate (erode (threshold_binary im threshold)) /\
        In pp' (findContours opened) /\
        pm = drawContours
               (tabulate (height opened) (width opened) (fun _ _ => 0))
               [pp'] 255 /\
        paper_mask s' = Some pm /\
        dist_map s' = Some (distanceTransform pm) /\
        img_extended s' = Some e)).
Proof.
  split; [|split; [|split]].
  - intros Hno. unfold segment_paper. rewrite Hno. reflexivity.
  - intros im Him Hle. unfold segment_paper.
    destruct (have_img s); cbn [negb]; [|reflexivity]. rewrite Him.
    destruct (np_any (threshold_binary im threshold)) eqn:Hany;
      [|reflexivity].
    apply np_any_threshold_binary in Hany.
    destruct Hany as (y & x & v & Hg & Ht). specialize (Hle y x v Hg). lia.
  - intros im y x v Him Hhave Hg Ht Hnone. unfold segment_paper.
    rewrite Hhave, Him. cbn [negb].
    replace (np_any (threshold_binary im threshold)) with true
      by (symmetry; apply np_any_threshold_binary; exists y, x, v;
          split; assumption).
    cbn [negb]. rewrite Hnone. reflexivity.
  - intros b pp' s' H. unfold segment_paper in H.
    destruct (have_img s); cbn [negb] in H;
      [|injection H as <- <- <-;
        repeat (split; [reflexivity|]);
        split; [intros _; split; reflexivity|discriminate]].
    destruct (img s) as [im|] eqn:Him;
      [|injection H as <- <- <-;
        repeat (split; [try assumption; reflexivity|]);
        split; [intros _; split; reflexivity|discriminate]].
    destruct (np_any (threshold_binary im threshold)); cbn [negb] in H;
      [|injection H as <- <- <-;
        repeat (split; [try assumption; reflexivity|]);
        split; [intros _; split; reflexivity|discriminate]].
    set (opened := dilate (erode (threshold_binary im threshold))) in *.
    destruct (py_index (findContours opened)
                (largest_contour (Some (findContours opened))))
      as [contour|e] eqn:Hidx; [|discriminate].
    cbn [bind] in H.
    assert (Hin : In contour (findContours opened)).
    { unfold py_index in Hidx.
      destruct (_ <? 0); [discriminate|].
      destruct (nth_error _ _) eqn:Hn; [|discriminate].
      injection Hidx as <-. eapply nth_error_In. exact Hn. }
    set (pm := drawContours
                 (tabulate (height opened) (width opened) (fun _ _ => 0))
                 [contour] 255) in *.
    unfold extend_image in H. cbn [Vsa.paper_mask set_paper img] in H.
    rewrite Him in H.
    destruct (where_under_paper pm im 0) as [masked|e]; [|discriminate].
    cbn [bind] in H.
    destruct (get im 0 0); [|discriminate].
    destruct (np_median _) as [med| |]; try discriminate.
    destruct (where_under_paper pm im (py_int med)) as [e|?]; [|discriminate].
    cbn [bind Vsa.paper_mask set_extended set_paper] in H.
    injection H as <- <- <-.
    cbn. rewrite Him.
    repeat (split; [reflexivity|]).
    split; [discriminate|]. intros _.
    exists im, opened, pm, e. unfold contour_to_polygon.
    repeat split; try reflexivity. exact Hin.
Qed.

End SegmentPaper.

(** ** Further properties of the mask edits *)

Section MaskEdits.

Context `{cv : Cv2}.

Lemma imap_from_comp {A B C : Type} (f : nat -> B -> C) (g : nat -> A -> B)
  (l : list A) :
  forall i,
    imap_from i f (imap_from i g l) = imap_from i (fun n a => f n (g n a)) l.
Proof.
  induction l as [|a t IH]; intros i; simpl; [reflexivity|].
  rewrite IH. reflexivity.
Qed.

Lemma imap_from_ext {A B : Type} (f g : nat -> A -> B) (l : list A) :
  (forall n a, f n a = g n a) ->
  forall i, imap_from i f l = imap_from i g l.
Proof.
  intros Hfg. induction l as [|a t IH]; intros i; simpl; [reflexivity|].
  rewrite Hfg, IH. reflexivity.
Qed.

Lemma imap2_imap2 {A B C : Type} (f : nat -> nat -> B -> C)
  (g : nat -> nat -> A -> B) (a : array A) :
  imap2 f (imap2 g a) = imap2 (fun y x v => f y x (g y x v)) a.
Proof.
  unfold imap2, imap. rewrite imap_from_comp. apply imap_from_ext.
  intros y row. apply imap_from_comp.
Qed.

Lemma imap2_ext {A B : Type} (f g : nat -> nat -> A -> B) (a : array A) :
  (forall y x v, f y x v = g y x v) -> imap2 f a = imap2 g a.
Proof.
  intros Hfg. unfold imap2, imap. apply imap_from_ext.
  intros y row. apply imap_from_ext. intros x v. apply Hfg.
Qed.

Lemma drawContours_twice (m : array Z) (cs cs' : list polygon) (c c' : Z) :
  drawContours (drawContours m cs c) cs' c'
  = imap2 (fun y x v =>
             if painted cs' y x then c'
             else if painted cs y x then c else v) m.
Proof. unfold drawContours. apply imap2_imap2. Qed.

Lemma drawContours_absorb (m : array Z) (cs : list polygon) (c c' : Z) :
  drawContours (drawContours m cs c) cs c' = drawContours m cs c'.
Proof.
  rewrite drawContours_twice. unfold drawContours. apply imap2_ext.
  intros y x v. destruct (painted cs y x); reflexivity.
Qed.

Lemma drawContours_comm (m : array Z) (cs cs' : list polygon) (c : Z) :
  drawContours (drawContours m cs c) cs' c
  = drawContours (drawContours m cs' c) cs c.
Proof.
  rewrite !drawContours_twice. apply imap2_ext.
  intros y x v. destruct (painted cs y x), (painted cs' y x); reflexivity.
Qed.

(** X25: the algebra of the mask edits on a processor with an image and a
    spot mask.  Filling or clearing the same selection twice is the same as
    once; two fills commute and two clears commute; a fill after a clear of
    the same selection is the fill alone, and a clear after a fill is the
    clear alone; the edited mask has the rows of the old one and differs
    from it only on painted pixels. *)
Theorem mask_edit_algebra (s : VsaProcessor) (pg pg' : polygon)
  (im m : array Z) :
  img s = Some im -> spot_mask s = Some m ->
  (r <- fill_poly_selection s pg ;; fill_poly_selection r pg)
  = fill_poly_selection s pg /\
  (r <- clear_poly_selection s pg ;; clear_poly_selection r pg)
  = clear_poly_selection s pg /\
  (r <- fill_poly_selection s pg ;; fill_poly_selection r pg')
  = (r <- fill_poly_selection s pg' ;; fill_poly_selection r pg) /\
  (r <- clear_poly_selection s pg ;; clear_poly_selection r pg')
  = (r <- clear_poly_selection s pg' ;; clear_poly_selection r pg) /\
  (r <- clear_poly_selection s pg ;; fill_poly_selection r pg)
  = fill_poly_selection s pg /\
  (r <- fill_poly_selection s pg ;; clear_poly_selection r pg)
  = clear_poly_selection s pg /\
  exists sf sc mf mc,
    fill_poly_selection s pg = Ok sf /\ spot_mask sf = Some mf /\
    clear_poly_selection s pg = Ok sc /\ spot_mask sc = Some mc /\
    map (@length Z) mf = map (@length Z) m /\
    map (@length Z) mc = map (@length Z) m /\
    forall y x, painted [pg] y x = false ->
      get mf y x = get m y x /\ get mc y x = get m y x.
Proof.
  intros Him Hm.
  assert (Hstep : forall c c' p p',
             (r <- Ok (set_spot_polygons_field
                         (set_spot_mask s (Some (drawContours m [p] c)))
                         (findContours (drawContours m [p] c))) ;;
              _vectorize_spots
                (set_spot_mask r
                   (Some (drawContours
                            (drawContours m [p] c) [p'] c'))))
             = Ok (set_spot_polygons_field
                     (set_spot_mask s
                        (Some (drawContours (drawContours m [p] c) [p'] c')))
                     (findContours
                        (drawContours (drawContours m [p] c) [p'] c')))).
  { intros c c' p p'. cbn [bind].
    erewrite vectorize_spots_ok by reflexivity. reflexivity. }
  assert (Hfill : forall p c,
             fill_poly_selection
               (set_spot_polygons_field
                  (set_spot_mask s (Some (drawContours m [p] c)))
                  (findContours (drawContours m [p] c))) pg
             = Ok (set_spot_polygons_field
                     (set_spot_mask s
                        (Some (drawContours (drawContours m [p] c) [pg] 255)))
                     (findContours
                        (drawContours (drawContours m [p] c) [pg] 255)))).
  { intros p c.
    erewrite fill_poly_selection_ok by (cbn; first [exact Him|reflexivity]).
    reflexivity. }
  assert (Hfill' : forall p c,
             fill_poly_selection
               (set_spot_polygons_field
                  (set_spot_mask s (Some (drawContours m [p] c)))
                  (findContours (drawContours m [p] c))) pg'
             = Ok (set_spot_polygons_field
                     (set_spot_mask s
                        (Some (drawContours (drawContours m [p] c) [pg'] 255)))
                     (findContours
                        (drawContours (drawContours m [p] c) [pg'] 255)))).
  { intros p c.
    erewrite fill_poly_selection_ok by (cbn; first [exact Him|reflexivity]).
    reflexivity. }
  assert (Hclear : forall p c,
             clear_poly_selection
               (set_spot_polygons_field
                  (set_spot_mask s (Some (drawContours m [p] c)))
                  (findContours (drawContours m [p] c))) pg
             = Ok (set_spot_polygons_field
                     (set_spot_mask s
                        (Some (drawContours (drawContours m [p] c) [pg] 0)))
                     (findContours
                        (drawContours (drawContours m [p] c) [pg] 0)))).
  { intros p c.
    erewrite clear_poly_selection_ok by (cbn; first [exact Him|reflexivity]).
    reflexivity. }
  assert (Hclear' : forall p c,
             clear_poly_selection
               (set_spot_polygons_field
                  (set_spot_mask s (Some (drawContours m [p] c)))
                  (findContours (drawContours m [p] c))) pg'
             = Ok (set_spot_polygons_field
                     (set_spot_mask s
                        (Some (drawContours (drawContours m [p] c) [pg'] 0)))
                     (findContours
                        (drawContours (drawContours m [p] c) [pg'] 0)))).
  { intros p c.
    erewrite clear_poly_selection_ok by (cbn; first [exact Him|reflexivity]).
    reflexivity. }
  rewrite !(fill_poly_selection_ok s _ im m Him Hm).
  rewrite !(clear_poly_selection_ok s _ im m Him Hm).
  cbn [bind]. rewrite !Hfill, !Hfill', !Hclear, !Hclear'.
  rewrite !drawContours_absorb.
  rewrite (drawContours_comm m [pg] [pg'] 255).
  rewrite (drawContours_comm m [pg] [pg'] 0).
  repeat (split; [reflexivity|]).
  do 4 eexists.
  split; [reflexivity|]. split; [reflexivity|].
  split; [reflexivity|]. split; [reflexivity|].
  split; [apply has_same_rows_imap2|]. split; [apply has_same_rows_imap2|].
  intros y x Hp. rewrite !get_drawContours, Hp.
  destruct (get m y x); split; reflexivity.
Qed.

(** X26: [set_spot_polygons] on a processor with an image stores the given
    polygons as they are and rebuilds the spot mask from zeros: the mask has
    the shape of the image, is 255 on the pixels the polygons paint and 0
    elsewhere, and does not depend on the spot mask before.  For one
    polygon it is the mask that [fill_poly_selection] makes of an all-zero
    spot mask. *)
Theorem set_spot_polygons_rebuilds (s : VsaProcessor)
  (polygons : list polygon) (im : array Z) :
  img s = Some im ->
  spot_polygons (set_spot_polygons s polygons) = polygons /\
  same_frame s (set_spot_polygons s polygons) /\
  exists m',
    spot_mask (set_spot_polygons s polygons) = Some m' /\
    has_shape m' (height im) (width im) /\
    (forall y x, (y < height im)%nat -> (x < width im)%nat ->
       get m' y x = Some (if painted polygons y x then 255 else 0)) /\
    (forall old,
       spot_mask (set_spot_polygons (set_spot_mask s old) polygons)
       = Some m') /\
    (forall pg, polygons = [pg] ->
       fill_poly_selection
         (set_spot_mask s
            (Some (tabulate (height im) (width im) (fun _ _ => 0)))) pg
       = Ok (set_spot_polygons_field (set_spot_polygons s polygons)
               (findContours m'))).
Proof.
  intros Him. unfold set_spot_polygons. rewrite Him.
  cbn [img set_spot_mask]. rewrite Him.
  split; [reflexivity|]. split; [repeat split|].
  eexists. split; [reflexivity|].
  split; [apply has_shape_imap2, has_shape_tabulate|].
  split; [|split].
  - intros y x Hy Hx. unfold polygon_to_contour. rewrite map_id.
    rewrite get_drawContours, get_tabulate.
    replace (y <? height im)%nat with true
      by (symmetry; apply Nat.ltb_lt; exact Hy).
    replace (x <? width im)%nat with true
      by (symmetry; apply Nat.ltb_lt; exact Hx).
    reflexivity.
  - intros old. reflexivity.
  - intros pg ->.
    erewrite fill_poly_selection_ok by (cbn; first [exact Him|reflexivity]).
    reflexivity.
Qed.

End MaskEdits.

Lemma mask_edit_algebra_witness :
  (r <- @fill_poly_selection example_cv2 example_spotted corner_selection ;;
   @fill_poly_selection example_cv2 r corner_selection)
  = @fill_poly_selection example_cv2 example_spotted corner_selection.
Proof.
  exact (proj1 (@mask_edit_algebra example_cv2 example_spotted
                  corner_selection paper_selection
                  example_img example_spot_mask eq_refl eq_refl)).
Defined.

Lemma set_spot_polygons_rebuilds_witness :
  spot_polygons (@set_spot_polygons example_cv2 example_spotted
                   [corner_selection]) = [corner_selection].
Proof.
  exact (proj1 (@set_spot_polygons_rebuilds example_cv2 example_spotted
                  [corner_selection] example_img eq_refl)).
Defined.
